(** * ss_ref_bot: the referral ledger over a spreadsheet store

    A shallow embedding of [sheets/sheets.go] (the index cache, the code
    generator, the withdrawal filter, the balance repair job) and of the
    reconciliation functions of the bot package ([syncWithdrawals],
    [processWithdrawal]), of a round of the sync worker and of the message
    handlers, followed by the properties proved about them.
    Not embedded: [NewSheetsClient], [NewBot], [Start], the timers of the
    two workers and package [config].

    Conventions.
    - [int64] and [int] in [n++] wrap as Go's do ([incrInt]).
    - The handlers run one at a time: the goroutines of [Start] and a reload
      between two steps of a handler are not modelled.
    - A Go [string] is the list of its Unicode code points: every string the
      program handles is decoded from JSON or produced by formatting, hence
      valid UTF-8, and on valid UTF-8 the functions of package [strings] act
      rune by rune.
    - [int64] and [int] are [Z] (the embedded functions do no arithmetic on
      them apart from [i + 2] on row indexes); [float64] is the kernel's
      binary64 [float] with its IEEE operations.
    - A map is a [gmap]. The cache stores [*Referrer] pointers, but no function
      writes through a stored pointer and every lookup returns a copy, so the
      maps hold values.
    - The spreadsheet service is outside the program: every call to it takes
      its outcome from a script carried by the [World] and is appended to the
      world's trace.  A theorem quantified over worlds covers every behaviour
      of the service, failures and concurrent edits included. *)

From Stdlib Require Import Floats ZArith List Bool String.
From stdpp Require Import gmap list.

Open Scope Z_scope.

(** ** Strings *)

Abbreviation rune := N (only parsing).
Abbreviation gostring := (list N) (only parsing).

(** An ASCII literal as a Go string. *)
Definition str (s : String.string) : gostring :=
  map Ascii.N_of_ascii (String.list_ascii_of_string s).

(** [unicode.IsSpace]: the Latin-1 cases and the White_Space range table. *)
Definition unicode_IsSpace (r : rune) : bool :=
  ((9 <=? r) && (r <=? 13) || (r =? 32) || (r =? 133) || (r =? 160)
   || (r =? 5760) || (8192 <=? r) && (r <=? 8202) || (r =? 8232)
   || (r =? 8233) || (r =? 8239) || (r =? 8287) || (r =? 12288))%N.

Fixpoint trimLeft (s : gostring) : gostring :=
  match s with
  | r :: s' => if unicode_IsSpace r then trimLeft s' else s
  | [] => []
  end.

Definition trimRight (s : gostring) : gostring := rev (trimLeft (rev s)).

(** [strings.TrimSpace]. *)
Definition strings_TrimSpace (s : gostring) : gostring := trimRight (trimLeft s).

(** [strings.ReplaceAll(s, string(r), "")] for a one-rune pattern. *)
Definition removeRune (r : rune) (s : gostring) : gostring :=
  filter (fun c => c ≠ r) s.

Fixpoint strings_HasPrefix (s p : gostring) : bool :=
  match p, s with
  | [], _ => true
  | c :: p', d :: s' => bool_decide (c = d) && strings_HasPrefix s' p'
  | _ :: _, [] => false
  end.

(** ** strconv: decimal integers *)

Definition digitVal (r : rune) : option Z :=
  if ((48 <=? r) && (r <=? 57))%N then Some (Z.of_N r - 48) else None.

Fixpoint parseDigits (acc : Z) (s : gostring) : option Z :=
  match s with
  | [] => Some acc
  | r :: s' =>
      match digitVal r with
      | Some d => parseDigits (10 * acc + d) s'
      | None => None
      end
  end.

Definition minInt64 : Z := - 2 ^ 63.
Definition maxInt64 : Z := 2 ^ 63 - 1.

(** [strconv.ParseInt(s, 10, 64)]; [None] when it returns an error (empty
    input, a sign alone, a character that is no digit, a value outside int64). *)
Definition strconv_ParseInt (s : gostring) : option Z :=
  let '(neg, body) :=
    match s with
    | 43%N :: b => (false, b)
    | 45%N :: b => (true, b)
    | _ => (false, s)
    end in
  match body with
  | [] => None
  | _ =>
      match parseDigits 0 body with
      | Some un =>
          let n := if neg then - un else un in
          if (minInt64 <=? n) && (n <=? maxInt64) then Some n else None
      | None => None
      end
  end.

(** [strconv.Atoi] on a 64-bit platform. *)
Definition strconv_Atoi (s : gostring) : option Z := strconv_ParseInt s.

Fixpoint digitsOf (fuel : nat) (n : Z) (acc : gostring) : gostring :=
  match fuel with
  | O => acc
  | S fuel' =>
      let acc' := Z.to_N (48 + n mod 10) :: acc in
      if n <? 10 then acc' else digitsOf fuel' (n / 10) acc'
  end.

(** [fmt.Sprintf("%d", n)]. *)
Definition formatInt (n : Z) : gostring :=
  if n <? 0 then 45%N :: digitsOf 20 (- n) [] else digitsOf 20 n [].

(** ** Conversions between integers and float64 *)

(** [float64(n)] for an integer [n]: the nearest binary64 value. *)
Definition float64_of_int (n : Z) : float :=
  SF2Prim (binary_normalize prec emax n 0 false).

(** [int64(f)]: truncation toward zero.  Go leaves the result open when [f]
    is NaN, infinite or out of range; amd64 yields the smallest int64. *)
Definition int64_of_float (f : float) : Z :=
  match Prim2SF f with
  | S754_zero _ => 0
  | S754_finite s m e =>
      let a := if 0 <=? e then Z.pos m * 2 ^ e else Z.pos m / 2 ^ (- e) in
      let n := if s then - a else a in
      if (minInt64 <=? n) && (n <=? maxInt64) then n else minInt64
  | _ => minInt64
  end.

(** ** Cells and rows *)

(** The dynamic types the program's type switches distinguish in an
    [interface{}] cell. *)
Inductive Cell :=
| VNil
| VBool (b : bool)
| VString (s : gostring)
| VFloat64 (f : float)
| VFloat32 (f : float)
| VInt (n : Z)
| VInt64 (n : Z).

Abbreviation Row := (list Cell) (only parsing).

(** ** The data model of [sheets.go]

    Field names are the source's; where two structs share a field name the
    later struct's field carries the struct's initial ([rRefCode] of
    [Referral], [wUserID] of [Withdrawal]). *)

Record Referrer := mkReferrer {
  ID : Z;
  Username : gostring;
  Code : gostring;
  Wallet : gostring;
  RefCount : Z;
  PendingPayout : float;
  PaidOut : float
}.

Record Invited := mkInvited {
  UserID : Z;
  RefCode : gostring
}.

Record Referral := mkReferral {
  RefID : Z;
  rRefCode : gostring;
  rProfit : float;
  rDealID : gostring;
  Bonus : float;
  Date : gostring
}.

Record Withdrawal := mkWithdrawal {
  DealID : gostring;
  wUserID : Z;
  Profit : float
}.

(** The cache fields of [SheetsClient] (all guarded by [cacheMutex]). *)
Record Cache := mkCache {
  referrersByID : gmap Z Referrer;
  referrersByCode : gmap (list N) Referrer;
  invitedByUserID : gmap Z Invited;
  existingDealIDs : gmap (list N) bool;
  lastCacheUpdate : Z
}.

(** The cache [NewSheetsClient] allocates. *)
Definition emptyCache : Cache := mkCache ∅ ∅ ∅ ∅ 0.

(** ** The spreadsheet service *)

(** The sheets "Рефоводы", "Приглашенные", "Рефералы" and "Выводы". *)
Inductive Sheet := Referrers | InvitedUsers | Referrals | Withdrawals.

Inductive Col := cA | cB | cC | cD | cE | cF | cG.

(** A1 ranges as the program writes them: ["S!A2:G"], ["S!A7:G7"], ["S!F7"]. *)
Inductive Range :=
| RangeFrom (s : Sheet) (c1 : Col) (r1 : Z) (c2 : Col)
| RangeRow (s : Sheet) (c1 : Col) (r1 : Z) (c2 : Col) (r2 : Z)
| RangeCell (s : Sheet) (c : Col) (r : Z).

(** [ValueRenderOption]: the default, or ["UNFORMATTED_VALUE"]. *)
Inductive Render := FormattedValue | UnformattedValue.

(** A request to the service with its outcome.  A read yields the rows of the
    range or fails; a write (always with input option "USER_ENTERED") is
    acknowledged or fails. *)
Inductive Call :=
| CallGet (r : Range) (opt : Render) (res : option (list (list Cell)))
| CallUpdate (r : Range) (values : list (list Cell)) (ok : bool)
| CallBatchUpdate (data : list (Range * list (list Cell))) (ok : bool).

(** What lies outside the process: the outcomes the service will give to the
    coming reads and writes, the draws of [crypto/rand], the clock, and the
    requests made so far (oldest first).  An exhausted script fails the call. *)
Record World := mkWorld {
  gets : list (option (list (list Cell)));
  acks : list bool;
  rands : list (option N);
  clock : Z;
  trace : list Call
}.

Record State := mkState {
  cache : Cache;
  world : World
}.

(** ** Errors and the program monad *)

(** The message a [fmt.Errorf("...: %w", err)] puts before the wrapped error. *)
Inductive ErrContext :=
| InLoadReferrers | InLoadInvited | InLoadDealIDs
| InReadSheet (s : Sheet)
| InFindEmptyRow | InGenerateCode | InRandom
| InAddReferrer | InUpdateReferrer | InAddInvited | InAddReferral
| InUpdatePending
| InFindInvited | InGetReferrer | InCreateReferral | InUpdateReferrerBonus.

Inductive error :=
| ErrService
| ErrEntropy
| ErrReferrerNotFound
| ErrAttemptsExhausted (maxAttempts : Z)
| ErrWrap (ctx : ErrContext) (e : error).

Inductive result (A : Type) :=
| Ok (a : A)
| Err (e : error).
Arguments Ok {A} a.
Arguments Err {A} e.

Definition M (A : Type) : Type := State -> result A * State.

Definition ret {A} (a : A) : M A := fun st => (Ok a, st).

Definition fail {A} (e : error) : M A := fun st => (Err e, st).

Definition bind {A B} (m : M A) (k : A -> M B) : M B :=
  fun st =>
    match m st with
    | (Ok a, st') => k a st'
    | (Err e, st') => (Err e, st')
    end.

Notation "x <- m ;; k" := (bind m (fun x => k))
  (at level 100, m at next level, right associativity).
Notation "m ;;; k" := (bind m (fun _ => k))
  (at level 100, right associativity).

(** [if err != nil { return fmt.Errorf(ctx, err) }] around a call. *)
Definition wrap {A} (ctx : ErrContext) (m : M A) : M A :=
  fun st =>
    match m st with
    | (Ok a, st') => (Ok a, st')
    | (Err e, st') => (Err (ErrWrap ctx e), st')
    end.

Definition getCache : M Cache := fun st => (Ok (cache st), st).

Definition modifyCache (f : Cache -> Cache) : M unit :=
  fun st => (Ok tt, mkState (f (cache st)) (world st)).

Definition record (c : Call) (w : World) : World :=
  mkWorld (gets w) (acks w) (rands w) (clock w) (trace w ++ [c]).

(** [service.Spreadsheets.Values.Get(id, range).ValueRenderOption(opt).Do()]. *)
Definition valuesGet (r : Range) (opt : Render) : M (list (list Cell)) :=
  fun st =>
    let w := world st in
    let res := match gets w with o :: _ => o | [] => None end in
    let w' := record (CallGet r opt res)
                (mkWorld (tail (gets w)) (acks w) (rands w) (clock w) (trace w)) in
    (match res with Some rows => Ok rows | None => Err ErrService end,
     mkState (cache st) w').

Definition nextAck (w : World) : bool :=
  match acks w with b :: _ => b | [] => false end.

Definition dropAck (w : World) : World :=
  mkWorld (gets w) (tail (acks w)) (rands w) (clock w) (trace w).

(** [service.Spreadsheets.Values.Update(id, range, values).Do()]. *)
Definition valuesUpdate (r : Range) (values : list (list Cell)) : M unit :=
  fun st =>
    let w := world st in
    let ok := nextAck w in
    (if ok then Ok tt else Err ErrService,
     mkState (cache st) (record (CallUpdate r values ok) (dropAck w))).

(** [service.Spreadsheets.Values.BatchUpdate(id, body).Do()]. *)
Definition valuesBatchUpdate (data : list (Range * list (list Cell))) : M unit :=
  fun st =>
    let w := world st in
    let ok := nextAck w in
    (if ok then Ok tt else Err ErrService,
     mkState (cache st) (record (CallBatchUpdate data ok) (dropAck w))).

(** [rand.Int(rand.Reader, max)]: an error, or a value below [max]. *)
Definition randInt (max : N) : M N :=
  fun st =>
    let w := world st in
    let w' := mkWorld (gets w) (acks w) (tail (rands w)) (clock w) (trace w) in
    (match rands w with
     | Some n :: _ => Ok (n mod max)%N
     | _ => Err ErrEntropy
     end, mkState (cache st) w').

(** [time.Now()]. *)
Definition timeNow : M Z := fun st => (Ok (clock (world st)), st).

(** ** A library instance for evaluating examples

    The program is parametric in the tables and conversions of the Go
    library listed at the head of section [Program].  The closed examples
    below run it on ASCII text and numeric cells, which never reach those
    parameters; they are instantiated with runes above ASCII left caseless,
    a [ParseFloat] that reads decimal integers, and integer-valued texts for
    floats and times. *)

Definition caseless (r : N) : N := r.

Definition parseFloatExample (s : gostring) : option float :=
  option_map float64_of_int (strconv_ParseInt s).

Definition formatFloatExample (bitSize : Z) (f : float) : gostring :=
  formatInt (int64_of_float f).

Definition formatTimeExample (t : Z) : gostring := formatInt t.

(** The data of the examples: a referrer with code ABC123, who invited user
    7; rows of "Выводы" as the service returns them unformatted (deal id,
    user id, a text column, profit); a world with an empty script. *)
Definition alice : Referrer :=
  mkReferrer 1001 (str "@alice") (str "ABC123") [] 1 0%float 0%float.

Definition exampleCache : Cache :=
  mkCache {[1001 := alice]} {[str "ABC123" := alice]}
          {[7 := mkInvited 7 (str "ABC123")]} ∅ 0.

Definition withdrawalRow (deal : String.string) (user profit : float) : Row :=
  [VString (str deal); VFloat64 user; VString (str "TON"); VFloat64 profit].

(** The row of "Рефоводы" holding [alice], as read formatted. *)
Definition aliceRow : Row := [VString (str "1001")].

Definition scripted (reads : list (option (list (list Cell)))) (writes : list bool)
    (draws : list (option N)) : World :=
  mkWorld reads writes draws 0 [].

(** ** The program *)

Section Program.

(** What the program takes from the Go library without this file repeating
    its tables or algorithms: the case mappings of runes above ASCII
    ([unicode.To(unicode.UpperCase, r)], [unicode.To(unicode.LowerCase, r)]),
    [strconv.ParseFloat(s, 64)] ([None] when it returns an error),
    [strconv.FormatFloat(f, 'g', -1, bitSize)] (the text [%v] gives a float)
    and [t.Format("02.01.2006 15:04")]. *)
Variable upperCase : N -> N.
Variable lowerCase : N -> N.
Variable strconv_ParseFloat : list N -> option float.
Variable strconv_FormatFloat : Z -> float -> list N.
Variable time_Format : Z -> list N.

Definition unicode_ToUpper (r : rune) : rune :=
  (if r <=? 127
   then if (97 <=? r) && (r <=? 122) then r - 32 else r
   else upperCase r)%N.

Definition unicode_ToLower (r : rune) : rune :=
  (if r <=? 127
   then if (65 <=? r) && (r <=? 90) then r + 32 else r
   else lowerCase r)%N.

Definition strings_ToUpper (s : gostring) : gostring := map unicode_ToUpper s.

Definition strings_ToLower (s : gostring) : gostring := map unicode_ToLower s.

(** *** Helper functions *)

(** [fmt.Sprintf("%v", val)]. *)
Definition fmt_Sprint (val : Cell) : gostring :=
  match val with
  | VNil => str "<nil>"
  | VBool b => if b then str "true" else str "false"
  | VString s => s
  | VFloat64 f => strconv_FormatFloat 64 f
  | VFloat32 f => strconv_FormatFloat 32 f
  | VInt n => formatInt n
  | VInt64 n => formatInt n
  end.

Definition getStringValue (val : Cell) : gostring :=
  match val with
  | VNil => []
  | _ => strings_TrimSpace (fmt_Sprint val)
  end.

Definition getIntValue (val : Cell) : Z :=
  match val with
  | VNil => 0
  | VInt v => v
  | VInt64 v => v
  | VFloat64 v => int64_of_float v
  | VString v =>
      if bool_decide (v = []) then 0
      else default 0 (strconv_Atoi (strings_TrimSpace v))
  | _ =>
      let s := getStringValue val in
      if bool_decide (s = []) then 0 else default 0 (strconv_Atoi s)
  end.

Definition getFloatValue (val : Cell) : float :=
  match val with
  | VNil => 0%float
  | VFloat64 v => v
  | VFloat32 v => v
  | VInt v => float64_of_int v
  | VInt64 v => float64_of_int v
  | VString v =>
      if bool_decide (v = []) then 0%float
      else default 0%float (strconv_ParseFloat (strings_TrimSpace v))
  | _ =>
      let s := getStringValue val in
      if bool_decide (s = []) then 0%float
      else default 0%float (strconv_ParseFloat s)
  end.

(** [strings.ToUpper(strings.TrimSpace(code))], the key of [referrersByCode]. *)
Definition normalizedCode (code : gostring) : gostring :=
  strings_ToUpper (strings_TrimSpace code).

(** *** Loading the cache *)

Definition parseReferrerRow (row : Row) : option Referrer :=
  match row with
  | [] => None
  | c0 :: _ =>
      let id :=
        match c0 with
        | VString v => strconv_ParseInt v
        | VInt64 v => Some v
        | VInt v => Some v
        | VFloat64 v => Some (int64_of_float v)
        | _ =>
            let idStr := getStringValue c0 in
            if bool_decide (idStr = []) then None else strconv_ParseInt idStr
        end in
      match id with
      | None => None
      | Some id =>
          Some {| ID := id;
                  Username := from_option getStringValue [] (row !! 1%nat);
                  Code := from_option getStringValue [] (row !! 2%nat);
                  Wallet := from_option getStringValue [] (row !! 3%nat);
                  RefCount := from_option getIntValue 0 (row !! 4%nat);
                  PendingPayout := from_option getFloatValue 0%float (row !! 5%nat);
                  PaidOut := from_option getFloatValue 0%float (row !! 6%nat) |}
      end
  end.

(** The two cache writes [UpdateReferrer] and the reload loop share:
    [referrersByID[ref.ID] = ref], and, when [ref.Code != ""],
    [referrersByCode[normalized] = ref]. *)
Definition upsertReferrer (ref : Referrer) (c : Cache) : Cache :=
  mkCache (<[ID ref := ref]> (referrersByID c))
          (if bool_decide (Code ref = []) then referrersByCode c
           else <[normalizedCode (Code ref) := ref]> (referrersByCode c))
          (invitedByUserID c) (existingDealIDs c) (lastCacheUpdate c).

(** One iteration of the loop of [loadReferrersCache]. *)
Definition indexReferrerRow (c : Cache) (row : Row) : Cache :=
  match row with
  | [] => c
  | _ =>
      match parseReferrerRow row with
      | None => c
      | Some ref => upsertReferrer ref c
      end
  end.

Definition resetReferrers (c : Cache) : Cache :=
  mkCache ∅ ∅ (invitedByUserID c) (existingDealIDs c) (lastCacheUpdate c).

Definition loadReferrersCache : M unit :=
  rows <- wrap (InReadSheet Referrers)
            (valuesGet (RangeFrom Referrers cA 2 cG) UnformattedValue) ;;
  modifyCache (fun c => fold_left indexReferrerRow rows (resetReferrers c)).

Definition upsertInvited (inv : Invited) (c : Cache) : Cache :=
  mkCache (referrersByID c) (referrersByCode c)
          (<[UserID inv := inv]> (invitedByUserID c))
          (existingDealIDs c) (lastCacheUpdate c).

(** One iteration of the loop of [loadInvitedCache]. *)
Definition indexInvitedRow (c : Cache) (row : Row) : Cache :=
  match row with
  | c0 :: c1 :: _ =>
      let userID :=
        match c0 with
        | VString v => strconv_ParseInt v
        | VInt64 v => Some v
        | VInt v => Some v
        | VFloat64 v => Some (int64_of_float v)
        | _ => None
        end in
      match userID with
      | None => c
      | Some userID => upsertInvited (mkInvited userID (getStringValue c1)) c
      end
  | _ => c
  end.

Definition resetInvited (c : Cache) : Cache :=
  mkCache (referrersByID c) (referrersByCode c) ∅
          (existingDealIDs c) (lastCacheUpdate c).

Definition loadInvitedCache : M unit :=
  rows <- wrap (InReadSheet InvitedUsers)
            (valuesGet (RangeFrom InvitedUsers cA 2 cB) FormattedValue) ;;
  modifyCache (fun c => fold_left indexInvitedRow rows (resetInvited c)).

(** [sc.existingDealIDs[dealID] = true]. *)
Definition markDealID (dealID : gostring) (c : Cache) : Cache :=
  mkCache (referrersByID c) (referrersByCode c) (invitedByUserID c)
          (<[dealID := true]> (existingDealIDs c)) (lastCacheUpdate c).

(** One iteration of the loop of [loadDealIDsCache]. *)
Definition indexDealIDRow (c : Cache) (row : Row) : Cache :=
  match row with
  | c0 :: _ =>
      let dealID := getStringValue c0 in
      if bool_decide (dealID = []) then c else markDealID dealID c
  | [] => c
  end.

Definition resetDealIDs (c : Cache) : Cache :=
  mkCache (referrersByID c) (referrersByCode c) (invitedByUserID c) ∅
          (lastCacheUpdate c).

Definition loadDealIDsCache : M unit :=
  rows <- wrap (InReadSheet Referrals)
            (valuesGet (RangeFrom Referrals cD 2 cD) FormattedValue) ;;
  modifyCache (fun c => fold_left indexDealIDRow rows (resetDealIDs c)).

Definition setLastCacheUpdate (t : Z) (c : Cache) : Cache :=
  mkCache (referrersByID c) (referrersByCode c) (invitedByUserID c)
          (existingDealIDs c) t.

Definition LoadCache : M unit :=
  wrap InLoadReferrers loadReferrersCache ;;;
  wrap InLoadInvited loadInvitedCache ;;;
  wrap InLoadDealIDs loadDealIDsCache ;;;
  t <- timeNow ;;
  modifyCache (setLastCacheUpdate t).

(** *** Lookups (each returns a copy, and never an error) *)

Definition GetReferrerByID (userID : Z) : M (option Referrer) :=
  c <- getCache ;; ret (referrersByID c !! userID).

Definition GetReferrerByCode (code : gostring) : M (option Referrer) :=
  c <- getCache ;; ret (referrersByCode c !! normalizedCode code).

Definition GetInvitedByUserID (userID : Z) : M (option Invited) :=
  c <- getCache ;; ret (invitedByUserID c !! userID).

Definition GetExistingDealIDs : M (gmap (list N) bool) :=
  c <- getCache ;; ret (existingDealIDs c).

(** *** Writing referrers *)

(** The loop of [findFirstEmptyRow] from index [i] on. *)
Fixpoint scanEmptyRow (i : Z) (rows : list (list Cell)) : Z :=
  match rows with
  | [] => i + 2
  | row :: rest =>
      match row with
      | [] => i + 2
      | c0 :: _ =>
          if bool_decide (getStringValue c0 = []) then i + 2
          else scanEmptyRow (i + 1) rest
      end
  end.

Definition findFirstEmptyRow (sheet : Sheet) : M Z :=
  rows <- wrap (InReadSheet sheet)
            (valuesGet (RangeFrom sheet cA 2 cA) FormattedValue) ;;
  match rows with
  | [] => ret 2
  | _ => ret (scanEmptyRow 0 rows)
  end.

(** The row [CreateReferrer] and [UpdateReferrer] write (columns A to G). *)
Definition referrerValues (ref : Referrer) : Row :=
  let walletValue := if bool_decide (Wallet ref = []) then [] else Wallet ref in
  [ VString (formatInt (ID ref)); VString (Username ref); VString (Code ref);
    VString walletValue; VInt (RefCount ref); VFloat64 (PendingPayout ref);
    VFloat64 (PaidOut ref) ].

Definition charset : gostring := str "ABCDEFGHIJKLMNOPQRSTUVWXYZ0123456789".

Definition codeLength : nat := 6.

Definition maxAttempts : nat := 100.

(** The scan of [codeExists] over the rows of column C. *)
Definition codeInRows (code : gostring) (rows : list (list Cell)) : bool :=
  existsb (fun row : Row =>
             match row with
             | c0 :: _ => bool_decide (getStringValue c0 = code)
             | [] => false
             end) rows.

Definition codeExists (code : gostring) : M bool :=
  rows <- valuesGet (RangeFrom Referrers cC 2 cC) FormattedValue ;;
  ret (codeInRows code rows).

(** The inner loop of [generateUniqueCode]: [n] more bytes of the code. *)
Fixpoint randomCode (n : nat) : M gostring :=
  match n with
  | O => ret []
  | S n' =>
      k <- wrap InRandom (randInt (N.of_nat (length charset))) ;;
      rest <- randomCode n' ;;
      ret (nth (N.to_nat k) charset 0%N :: rest)
  end.

(** The outer loop of [generateUniqueCode] with [left] attempts to go. *)
Fixpoint generateAttempts (left : nat) : M gostring :=
  match left with
  | O => fail (ErrAttemptsExhausted (Z.of_nat maxAttempts))
  | S left' =>
      codeStr <- randomCode codeLength ;;
      exists_ <- codeExists codeStr ;;
      if exists_ then generateAttempts left' else ret codeStr
  end.

Definition generateUniqueCode : M gostring := generateAttempts maxAttempts.

Definition CreateReferrer (userID : Z) (username : gostring) : M Referrer :=
  code <- wrap InGenerateCode generateUniqueCode ;;
  let ref := mkReferrer userID username code [] 0 0%float 0%float in
  rowIndex <- wrap InFindEmptyRow (findFirstEmptyRow Referrers) ;;
  wrap InAddReferrer
    (valuesUpdate (RangeRow Referrers cA rowIndex cG rowIndex)
       [referrerValues ref]) ;;;
  ret ref.

(** The search loop of [UpdateReferrer] from index [i] on: the sheet row of
    the first row whose first cell is a string that parses to [id]. *)
Fixpoint findReferrerRow (id : Z) (i : Z) (rows : list (list Cell)) : option Z :=
  match rows with
  | [] => None
  | row :: rest =>
      match row with
      | VString idStr :: _ =>
          match strconv_ParseInt idStr with
          | Some id' =>
              if id' =? id then Some (i + 2) else findReferrerRow id (i + 1) rest
          | None => findReferrerRow id (i + 1) rest
          end
      | _ => findReferrerRow id (i + 1) rest
      end
  end.

Definition UpdateReferrer (ref : Referrer) : M unit :=
  rows <- wrap (InReadSheet Referrers)
            (valuesGet (RangeFrom Referrers cA 2 cG) FormattedValue) ;;
  match findReferrerRow (ID ref) 0 rows with
  | None => fail ErrReferrerNotFound
  | Some rowIndex =>
      wrap InUpdateReferrer
        (valuesUpdate (RangeRow Referrers cA rowIndex cG rowIndex)
           [referrerValues ref]) ;;;
      modifyCache (upsertReferrer ref)
  end.

Definition CreateInvited (userID : Z) (refCode : gostring) : M unit :=
  rowIndex <- wrap InFindEmptyRow (findFirstEmptyRow InvitedUsers) ;;
  wrap InAddInvited
    (valuesUpdate (RangeRow InvitedUsers cA rowIndex cB rowIndex)
       [[VString (formatInt userID); VString refCode]]) ;;;
  modifyCache (upsertInvited (mkInvited userID refCode)).

(** *** Withdrawals and the ledger *)

(** The user id of a row of "Выводы" (its second cell). *)
Definition parseUserID (c1 : Cell) : option Z :=
  let fromText (v : gostring) :=
    let cleaned := strings_TrimSpace (removeRune 32%N (removeRune 160%N v)) in
    if bool_decide (cleaned = [])
       || strings_HasPrefix (strings_ToLower cleaned) [1073; 1077; 1079]%N
    then None
    else strconv_ParseInt cleaned in
  match c1 with
  | VString v => fromText v
  | VInt64 v => Some v
  | VInt v => Some v
  | VFloat64 v => Some (int64_of_float v)
  | _ => fromText (getStringValue c1)
  end.

(** The cell the profit is read from: index 3 of a row of at least four
    cells, index 2 of a row of three. *)
Definition profitCell (row : Row) : option Cell :=
  if (4 <=? length row)%nat then row !! 3%nat
  else if (3 <=? length row)%nat then row !! 2%nat
  else None.

(** One iteration of the loop of [GetNewWithdrawals]: the withdrawal the row
    contributes, if any. *)
Definition parseWithdrawalRow (existing : gmap (list N) bool) (row : Row)
  : option Withdrawal :=
  match row with
  | c0 :: c1 :: _ =>
      let dealID := getStringValue c0 in
      if bool_decide (dealID = []) then None
      else if default false (existing !! dealID) then None
      else
        match parseUserID c1 with
        | None => None
        | Some userID =>
            match profitCell row with
            | None => None
            | Some cell =>
                let profit := getFloatValue cell in
                if (profit <=? 0)%float then None
                else Some (mkWithdrawal dealID userID profit)
            end
        end
  | _ => None
  end.

Definition GetNewWithdrawals : M (list Withdrawal) :=
  existing <- GetExistingDealIDs ;;
  rows <- wrap (InReadSheet Withdrawals)
            (valuesGet (RangeFrom Withdrawals cA 2 cD) UnformattedValue) ;;
  ret (omap (parseWithdrawalRow existing) rows).

(** The row [CreateReferral] writes (columns A to F). *)
Definition referralValues (ref : Referral) : Row :=
  [ VString (formatInt (RefID ref)); VString (rRefCode ref);
    VFloat64 (rProfit ref); VString (rDealID ref); VFloat64 (Bonus ref);
    VString (Date ref) ].

Definition CreateReferral (ref : Referral) : M unit :=
  rowIndex <- wrap InFindEmptyRow (findFirstEmptyRow Referrals) ;;
  wrap InAddReferral
    (valuesUpdate (RangeRow Referrals cA rowIndex cF rowIndex)
       [referralValues ref]) ;;;
  modifyCache (markDealID (rDealID ref)).

(** *** The balance repair job *)

(** The values the loop of [UpdatePendingPayouts] reads from a row. *)
Definition currentPendingOf (row : Row) : float :=
  from_option getFloatValue 0%float (row !! 5%nat).

Definition paidOutOf (row : Row) : float :=
  from_option getFloatValue 0%float (row !! 6%nat).

(** One iteration of the loop of [UpdatePendingPayouts], at index [i]: the
    value range it appends to [updates], if any. *)
Definition repairRow (i : Z) (row : Row) : option (Range * list (list Cell)) :=
  match row with
  | [] => None
  | c0 :: _ =>
      if bool_decide (getStringValue c0 = []) then None
      else
        let currentPending := currentPendingOf row in
        let paidOut := paidOutOf row in
        let newPending := (currentPending - paidOut)%float in
        if negb (newPending =? currentPending)%float
        then Some (RangeCell Referrers cF (i + 2), [[VFloat64 newPending]])
        else None
  end.

(** The loop of [UpdatePendingPayouts] from index [i] on: the final [updates]. *)
Fixpoint pendingUpdates (i : Z) (rows : list (list Cell))
  : list (Range * list (list Cell)) :=
  match rows with
  | [] => []
  | row :: rest =>
      match repairRow i row with
      | Some u => u :: pendingUpdates (i + 1) rest
      | None => pendingUpdates (i + 1) rest
      end
  end.

Definition UpdatePendingPayouts : M unit :=
  rows <- wrap (InReadSheet Referrers)
            (valuesGet (RangeFrom Referrers cA 2 cG) UnformattedValue) ;;
  match rows with
  | [] => ret tt
  | _ =>
      match pendingUpdates 0 rows with
      | [] => ret tt
      | updates => wrap InUpdatePending (valuesBatchUpdate updates)
      end
  end.

(** *** The reconciliation pass (package bot) *)

(** The float64 constant [0.1]. *)
Definition bonusRate : float := 0x1.999999999999ap-4%float.

Definition addBonus (ref : Referrer) (bonus : float) : Referrer :=
  mkReferrer (ID ref) (Username ref) (Code ref) (Wallet ref) (RefCount ref)
             (PendingPayout ref + bonus)%float (PaidOut ref).

Definition processWithdrawal (withdrawal : Withdrawal) : M unit :=
  invited <- wrap InFindInvited (GetInvitedByUserID (wUserID withdrawal)) ;;
  match invited with
  | None => ret tt
  | Some invited =>
      ref <- wrap InGetReferrer (GetReferrerByCode (RefCode invited)) ;;
      match ref with
      | None => ret tt
      | Some ref =>
          let bonus := (Profit withdrawal * bonusRate)%float in
          t <- timeNow ;;
          let referral :=
            mkReferral (wUserID withdrawal) (RefCode invited)
                       (Profit withdrawal) (DealID withdrawal) bonus
                       (time_Format t) in
          wrap InCreateReferral (CreateReferral referral) ;;;
          wrap InUpdateReferrerBonus (UpdateReferrer (addBonus ref bonus))
      end
  end.

(** [syncWithdrawals] returns nothing: an error of [GetNewWithdrawals] ends
    the pass, an error of [processWithdrawal] is logged and the loop goes on. *)
Definition syncWithdrawals (st : State) : State :=
  match GetNewWithdrawals st with
  | (Err _, st') => st'
  | (Ok withdrawals, st') =>
      fold_left (fun s w => snd (processWithdrawal w s)) withdrawals st'
  end.

(** *** Reading the trace *)

(** The deal ids of the ledger rows the service acknowledged, oldest first. *)
Definition ledgerDealID (c : Call) : option gostring :=
  match c with
  | CallUpdate (RangeRow Referrals _ _ _ _) [[_; _; _; VString d; _; _]] true =>
      Some d
  | _ => None
  end.

Definition ledgerDealIDs (tr : list Call) : list gostring := omap ledgerDealID tr.

(** The deal ids whose bonus reached a referrer row: an acknowledged write of
    a referrer row belongs to the ledger row acknowledged last before it. *)
Fixpoint creditedFrom (last : option gostring) (tr : list Call) : list gostring :=
  match tr with
  | [] => []
  | c :: tr' =>
      match ledgerDealID c with
      | Some d => creditedFrom (Some d) tr'
      | None =>
          match c, last with
          | CallUpdate (RangeRow Referrers _ _ _ _) _ true, Some d =>
              d :: creditedFrom last tr'
          | _, _ => creditedFrom last tr'
          end
      end
  end.

Definition creditedDealIDs (tr : list Call) : list gostring := creditedFrom None tr.

(** The write requests of a trace. *)
Definition isWrite (c : Call) : bool :=
  match c with
  | CallGet _ _ _ => false
  | _ => true
  end.

(** *** Definitions used to state the properties *)

(** The withdrawal of a row of "Выводы" that passed the checks on its deal
    id, read at [cell] for the profit. *)
Definition withdrawalAt (c0 c1 cell : Cell) : option Withdrawal :=
  match parseUserID c1 with
  | Some userID =>
      if (getFloatValue cell <=? 0)%float then None
      else Some (mkWithdrawal (getStringValue c0) userID (getFloatValue cell))
  | None => None
  end.

(** Every key of [referrersByCode] built by the reload loop is the
    normalized code of the referrer stored under it. *)
Definition codesNormalized (c : Cache) : Prop :=
  forall k ref, referrersByCode c !! k = Some ref -> normalizedCode (Code ref) = k.

(** The live read of the code column by [codeExists]. *)
Definition codeRead (res : option (list (list Cell))) : Call :=
  CallGet (RangeFrom Referrers cC 2 cC) FormattedValue res.

(** A request is a live check that found its candidate code in the store. *)
Definition collision (c : Call) : Prop :=
  exists rows code, c = codeRead (Some rows) /\ codeInRows code rows = true.

(** What a request made while [withdrawal] is processed may be: a read, the
    write of its ledger row with the bonus at a tenth of its profit, or the
    write of a referrer row credited with that bonus. *)
Definition bonusCall (withdrawal : Withdrawal) (c : Call) : Prop :=
  let bonus := (Profit withdrawal * bonusRate)%float in
  match c with
  | CallGet _ _ _ => True
  | CallUpdate (RangeRow Referrals _ _ _ _) values _ =>
      exists refCode date,
        values = [referralValues
                    (mkReferral (wUserID withdrawal) refCode (Profit withdrawal)
                                (DealID withdrawal) bonus date)]
  | CallUpdate (RangeRow Referrers _ _ _ _) values _ =>
      exists ref, values = [referrerValues (addBonus ref bonus)]
  | _ => False
  end.

(** A computation that leaves the cache as it found it, whatever it returns. *)
Definition keepsCache {A} (m : M A) : Prop :=
  forall st r st', m st = (r, st') -> cache st' = cache st.

(** The user id and code a row of "Приглашенные" binds, as the loop of
    [loadInvitedCache] reads them. *)
Definition parseInvitedRow (row : Row) : option Invited :=
  match row with
  | c0 :: c1 :: _ =>
      match c0 with
      | VString v => option_map (fun u => mkInvited u (getStringValue c1)) (strconv_ParseInt v)
      | VInt64 v => Some (mkInvited v (getStringValue c1))
      | VInt v => Some (mkInvited v (getStringValue c1))
      | VFloat64 v => Some (mkInvited (int64_of_float v) (getStringValue c1))
      | _ => None
      end
  | _ => None
  end.

(** The deal id a row of column D of "Рефералы" contributes to the known set. *)
Definition dealIDOfRow (row : Row) : option gostring :=
  match row with
  | c0 :: _ =>
      if bool_decide (getStringValue c0 = []) then None else Some (getStringValue c0)
  | [] => None
  end.

(** The key under which the cache indexes a referrer by code, if it does. *)
Definition codeKey (ref : Referrer) : option gostring :=
  if bool_decide (Code ref = []) then None else Some (normalizedCode (Code ref)).

(** A row of column A counts as empty for [findFirstEmptyRow] when it has no
    cell or its first cell holds no text once trimmed. *)
Definition rowIsEmpty (row : Row) : bool :=
  match row with
  | [] => true
  | c0 :: _ => bool_decide (getStringValue c0 = [])
  end.

(** A row of "Рефоводы" that [UpdateReferrer] takes for the row of [id]: its
    first cell is a string that parses to [id]. *)
Definition rowHasID (id : Z) (row : Row) : bool :=
  match row with
  | VString idStr :: _ => bool_decide (strconv_ParseInt idStr = Some id)
  | _ => false
  end.

(** *** More of [sheets.go] and of the bot *)

(** [n++] on a Go [int] (64 bits): the successor, wrapping at the largest
    value. *)
Definition incrInt (n : Z) : Z := if n =? maxInt64 then minInt64 else n + 1.

Definition withRefCount (ref : Referrer) (n : Z) : Referrer :=
  mkReferrer (ID ref) (Username ref) (Code ref) (Wallet ref) n
             (PendingPayout ref) (PaidOut ref).

(** What [IncrementRefCount] returns when it fails: its own error naming the
    code, or the error of a call, passed on unwrapped. *)
Inductive IncrementError :=
| ErrCodeNotFound (refCode : gostring)
| ErrPassed (e : error).

(** [IncrementRefCount]; [None] is the nil error. *)
Definition IncrementRefCount (refCode : gostring)
  : State -> option IncrementError * State :=
  fun st =>
    match GetReferrerByCode refCode st with
    | (Err e, st1) => (Some (ErrPassed e), st1)
    | (Ok None, st1) => (Some (ErrCodeNotFound refCode), st1)
    | (Ok (Some ref), st1) =>
        match UpdateReferrer (withRefCount ref (incrInt (RefCount ref))) st1 with
        | (Ok _, st2) => (None, st2)
        | (Err e, st2) => (Some (ErrPassed e), st2)
        end
    end.

Definition withUsername (ref : Referrer) (username : gostring) : Referrer :=
  mkReferrer (ID ref) username (Code ref) (Wallet ref) (RefCount ref)
             (PendingPayout ref) (PaidOut ref).

(** [updateUsernameIfChanged] of the bot.  It returns nothing and logs the
    error of [UpdateReferrer]; it assigns [ref.Username] through the pointer
    it is given, so the referrer the caller holds afterwards is returned
    with the state. *)
Definition updateUsernameIfChanged (ref : Referrer) (currentUsername : gostring)
  : State -> Referrer * State :=
  fun st =>
    if bool_decide (currentUsername = []) then (ref, st)
    else
      let currentUsernameWithAt := 64%N :: currentUsername in
      let storedUsername := strings_TrimSpace (Username ref) in
      if bool_decide (storedUsername = currentUsernameWithAt) then (ref, st)
      else
        let ref' := withUsername ref currentUsernameWithAt in
        (ref', snd (UpdateReferrer ref' st)).

(** Every entry of the code index sits under the normal form of its own,
    non-empty code. *)
Definition codeIndexSound (c : Cache) : Prop :=
  forall k ref,
    referrersByCode c !! k = Some ref ->
    Code ref <> [] /\ normalizedCode (Code ref) = k.

(** One round of the loop of [startSyncWorker]: the cache is reloaded, an
    error of the reload being logged only, and the pass runs on what the
    cache then holds. *)
Definition syncRound (st : State) : State :=
  syncWithdrawals (snd (LoadCache st)).

(** *** The handlers of the bot

    The Telegram side is kept to what the handlers decide: which text goes
    to which chat, in which parse mode and with which keyboard.  A text is
    given by its template and the values formatted into it; whether a send
    succeeds is scripted, as the acknowledgements of the service are.  A
    message has a sender ([msg.From]); [IsCommand], [Command] and
    [CommandArguments] are what the library's methods of these names return
    for it. *)

Record Message := mkMessage {
  FromID : Z;
  FromUserName : gostring;
  ChatID : Z;
  Text : gostring;
  IsCommand : bool;
  Command : gostring;
  CommandArguments : gostring
}.

(** "Пригласить друзей", "Мои рефералы", "Подключить TON-кошелёк",
    "Изменить кошелек". *)
Definition btnInviteFriends : gostring :=
  [1055; 1088; 1080; 1075; 1083; 1072; 1089; 1080; 1090; 1100; 32;
   1076; 1088; 1091; 1079; 1077; 1081]%N.

Definition btnMyReferrals : gostring :=
  [1052; 1086; 1080; 32; 1088; 1077; 1092; 1077; 1088; 1072; 1083; 1099]%N.

Definition btnConnectWallet : gostring :=
  [1055; 1086; 1076; 1082; 1083; 1102; 1095; 1080; 1090; 1100; 32;
   84; 79; 78; 45; 1082; 1086; 1096; 1077; 1083; 1105; 1082]%N.

Definition btnChangeWallet : gostring :=
  [1048; 1079; 1084; 1077; 1085; 1080; 1090; 1100; 32;
   1082; 1086; 1096; 1077; 1083; 1077; 1082]%N.

(** "не привязан". *)
Definition walletNotLinked : gostring :=
  [1085; 1077; 32; 1087; 1088; 1080; 1074; 1103; 1079; 1072; 1085]%N.

(** [walletRegex.MatchString], for [^(UQ|EQ)[A-Za-z0-9_-]{46}$]. *)
Definition walletRune (r : rune) : bool :=
  ((65 <=? r) && (r <=? 90) || (97 <=? r) && (r <=? 122)
   || (48 <=? r) && (r <=? 57) || (r =? 95) || (r =? 45))%N.

Definition walletRegex_MatchString (s : gostring) : bool :=
  match s with
  | c0 :: c1 :: rest =>
      ((c0 =? 85) || (c0 =? 69))%N && (c1 =? 81)%N
      && (length rest =? 46)%nat && forallb walletRune rest
  | _ => false
  end.

(** The texts of the bot, in the order they appear in the source. *)
Inductive Reply :=
| WalletDetected
| ChooseAction
| TryLater
| NeedUsername
| RegistrationFailed
| Welcome
| AlreadyLinked
| WrongCode
| OwnLink
| NewReferral (referralUsername : gostring) (refCount : Z) (code : gostring)
| NeedUsernameForLink
| InviteLink (code : gostring)
| NotRegisteredUseStart
| Statistics (refCount : Z) (pending paidOut : float) (walletInfo : gostring)
| AskWallet
| WrongWalletFormat
| NotRegistered
| WalletSaveFailed
| WalletConnected (wallet : gostring)
| NoText
| Unformatted (r : Reply).

Inductive ParseMode := NoMode | ModeMarkdown | ModeHTML.

(** The reply keyboard of [showMenu], by the label of its wallet button. *)
Inductive Markup := NoMarkup | MenuKeyboard (walletButtonText : gostring).

(** A call of [b.api.Send] with its outcome. *)
Record Sent := mkSent {
  sentChat : Z;
  sentText : Reply;
  sentMode : ParseMode;
  sentMarkup : Markup;
  sentOK : bool
}.

(** The bot: the sheets client with what lies behind it, the users asked
    for a wallet, and the Telegram API as the outcomes of the coming sends
    and the sends made so far. *)
Record Bot := mkBot {
  sheets : State;
  waitingForWallet : gmap Z bool;
  apiResults : list bool;
  apiSent : list Sent
}.

(** How a handler ends: it returns, or it dereferences a nil pointer. *)
Inductive Run :=
| Returned (b : Bot)
| Panicked (b : Bot).

Definition run {A} (f : State -> A * State) (b : Bot) : A * Bot :=
  let (a, st) := f (sheets b) in
  (a, mkBot st (waitingForWallet b) (apiResults b) (apiSent b)).

Definition setWaiting (m : gmap Z bool) (b : Bot) : Bot :=
  mkBot (sheets b) m (apiResults b) (apiSent b).

Definition apiSend (chatID : Z) (text : Reply) (mode : ParseMode)
    (markup : Markup) (b : Bot) : bool * Bot :=
  let ok := match apiResults b with r :: _ => r | [] => false end in
  (ok, mkBot (sheets b) (waitingForWallet b) (tail (apiResults b))
             (apiSent b ++ [mkSent chatID text mode markup ok])).

Definition sendMessage (chatID : Z) (text : Reply) (b : Bot) : Bot :=
  snd (apiSend chatID text NoMode NoMarkup b).

Definition sendFormattedMessage (chatID : Z) (text : Reply) (b : Bot) : Bot :=
  let (ok, b1) := apiSend chatID text ModeMarkdown NoMarkup b in
  if ok then b1 else sendMessage chatID (Unformatted text) b1.

Definition sendHTMLMessage (chatID : Z) (text : Reply) (b : Bot) : Bot :=
  let (ok, b1) := apiSend chatID text ModeHTML NoMarkup b in
  if ok then b1 else sendMessage chatID (Unformatted text) b1.

Definition showMenu (chatID : Z) (text : Reply) (b : Bot) : Bot :=
  let (ref, b1) := run (GetReferrerByID chatID) b in
  let walletButtonText :=
    match ref with
    | Ok (Some ref) =>
        if bool_decide (Wallet ref <> []) then btnChangeWallet
        else btnConnectWallet
    | _ => btnConnectWallet
    end in
  snd (apiSend chatID text NoMode (MenuKeyboard walletButtonText) b1).

Definition withWallet (ref : Referrer) (wallet : gostring) : Referrer :=
  mkReferrer (ID ref) (Username ref) (Code ref) wallet (RefCount ref)
             (PendingPayout ref) (PaidOut ref).

(** [referralUsername] of [handleReferralLink]. *)
Definition referralUsernameOf (userID : Z) (username : gostring) : gostring :=
  if bool_decide (username = []) then str "ID: " ++ formatInt userID
  else 64%N :: username.

Definition handleReferralLink (msg : Message) (userID : Z)
    (username refCode : gostring) (b : Bot) : Run :=
  let chat := ChatID msg in
  match run (GetInvitedByUserID userID) b with
  | (Err _, b) => Returned (sendMessage chat TryLater b)
  | (Ok (Some _), b) =>
      Returned (showMenu chat NoText (sendMessage chat AlreadyLinked b))
  | (Ok None, b) =>
      match run (GetReferrerByCode refCode) b with
      | (Err _, b) => Returned (sendMessage chat TryLater b)
      | (Ok None, b) => Returned (sendMessage chat WrongCode b)
      | (Ok (Some ref), b) =>
          if bool_decide (ID ref = userID)
          then Returned (showMenu chat NoText (sendMessage chat OwnLink b))
          else
            match run (CreateInvited userID refCode) b with
            | (Err _, b) => Returned (sendMessage chat TryLater b)
            | (Ok _, b) =>
                let b := snd (run (IncrementRefCount refCode) b) in
                let b := sendHTMLMessage chat Welcome b in
                let referralUsername := referralUsernameOf userID username in
                let (updatedRef, b) :=
                  match run (GetReferrerByCode refCode) b with
                  | (Err _, b) => (Some ref, b)
                  | (Ok updatedRef, b) => (updatedRef, b)
                  end in
                match updatedRef with
                | None => Panicked b
                | Some updatedRef =>
                    let b :=
                      sendFormattedMessage (ID ref)
                        (NewReferral referralUsername (RefCount updatedRef)
                                     (Code ref)) b in
                    let b :=
                      match run (GetReferrerByID userID) b with
                      | (Err _, b) => b
                      | (Ok None, b) =>
                          if bool_decide (username <> [])
                          then snd (run (CreateReferrer userID (64%N :: username)) b)
                          else b
                      | (Ok (Some existingRef), b) =>
                          snd (run (updateUsernameIfChanged existingRef username) b)
                      end in
                    Returned (showMenu chat NoText b)
                end
            end
      end
  end.

Definition handleStart (msg : Message) (userID : Z) (username : gostring)
    (b : Bot) : Run :=
  let chat := ChatID msg in
  let commandArgs := CommandArguments msg in
  if bool_decide (commandArgs <> [])
  then handleReferralLink msg userID username commandArgs b
  else
    let welcome (b : Bot) :=
      Returned (showMenu chat NoText (sendHTMLMessage chat Welcome b)) in
    match run (GetReferrerByID userID) b with
    | (Err _, b) => Returned (sendMessage chat TryLater b)
    | (Ok None, b) =>
        if bool_decide (username = [])
        then Returned (sendMessage chat NeedUsername b)
        else
          match run (CreateReferrer userID (64%N :: username)) b with
          | (Err _, b) => Returned (sendMessage chat RegistrationFailed b)
          | (Ok _, b) => welcome b
          end
    | (Ok (Some ref), b) =>
        welcome (snd (run (updateUsernameIfChanged ref username) b))
    end.

Definition handleInviteFriends (msg : Message) (userID : Z)
    (username : gostring) (b : Bot) : Bot :=
  let chat := ChatID msg in
  let link (ref : Referrer) (b : Bot) :=
    if bool_decide (Username ref = []) || bool_decide (Username ref = [64%N])
    then sendMessage chat NeedUsernameForLink b
    else sendFormattedMessage chat (InviteLink (Code ref)) b in
  match run (GetReferrerByID userID) b with
  | (Err _, b) => sendMessage chat TryLater b
  | (Ok None, b) =>
      if bool_decide (username = [])
      then sendMessage chat NeedUsernameForLink b
      else
        match run (CreateReferrer userID (64%N :: username)) b with
        | (Err _, b) => sendMessage chat TryLater b
        | (Ok ref, b) => link ref b
        end
  | (Ok (Some ref), b) =>
      let (ref, b) := run (updateUsernameIfChanged ref username) b in
      link ref b
  end.

Definition handleMyReferrals (msg : Message) (userID : Z) (b : Bot) : Run :=
  let chat := ChatID msg in
  match run (GetReferrerByID userID) b with
  | (Err _, b) => Returned (sendMessage chat TryLater b)
  | (Ok None, b) => Returned (sendMessage chat NotRegisteredUseStart b)
  | (Ok (Some ref), b) =>
      let username := FromUserName msg in
      let (ref, b) :=
        if bool_decide (username <> [])
        then
          let b := snd (run (updateUsernameIfChanged ref username) b) in
          match run (GetReferrerByID userID) b with
          | (Err _, b) => (None, b)
          | (Ok ref, b) => (ref, b)
          end
        else (Some ref, b) in
      match ref with
      | None => Panicked b
      | Some ref =>
          let walletInfo :=
            if bool_decide (Wallet ref <> []) then Wallet ref
            else walletNotLinked in
          Returned
            (sendHTMLMessage chat
               (Statistics (RefCount ref) (PendingPayout ref) (PaidOut ref)
                           walletInfo) b)
      end
  end.

Definition handleConnectWallet (msg : Message) (userID : Z) (b : Bot) : Bot :=
  let chat := ChatID msg in
  match run (GetReferrerByID userID) b with
  | (Err _, b) => sendMessage chat TryLater b
  | (Ok None, b) => sendMessage chat NotRegisteredUseStart b
  | (Ok (Some ref), b) =>
      let username := FromUserName msg in
      let b :=
        if bool_decide (username <> [])
        then snd (run (updateUsernameIfChanged ref username) b)
        else b in
      let b := setWaiting (<[userID := true]> (waitingForWallet b)) b in
      sendMessage chat AskWallet b
  end.

Definition isMenuButton (text : gostring) : bool :=
  bool_decide (text = btnInviteFriends) || bool_decide (text = btnMyReferrals)
  || bool_decide (text = btnConnectWallet) || bool_decide (text = btnChangeWallet).

(** The deferred function runs last on every path. *)
Definition handleWalletInput (msg : Message) (userID : Z) (b : Bot) : Bot :=
  let chat := ChatID msg in
  let deferred (b : Bot) := setWaiting (delete userID (waitingForWallet b)) b in
  let wallet := strings_TrimSpace (Text msg) in
  if isMenuButton (Text msg) || IsCommand msg then deferred b
  else if negb (walletRegex_MatchString wallet)
  then
    let b := sendMessage chat WrongWalletFormat b in
    deferred (setWaiting (<[userID := true]> (waitingForWallet b)) b)
  else
    match run (GetReferrerByID userID) b with
    | (Err _, b) => deferred (sendMessage chat TryLater b)
    | (Ok None, b) => deferred (sendMessage chat NotRegistered b)
    | (Ok (Some ref), b) =>
        match run (UpdateReferrer (withWallet ref wallet)) b with
        | (Err _, b) => deferred (sendMessage chat WalletSaveFailed b)
        | (Ok _, b) => deferred (sendMessage chat (WalletConnected wallet) b)
        end
    end.

Definition handleUpdate (update : option Message) (b : Bot) : Run :=
  match update with
  | None => Returned b
  | Some msg =>
      let userID := FromID msg in
      let username := FromUserName msg in
      let buttons (b : Bot) :=
        if bool_decide (Text msg = btnInviteFriends)
        then Returned (handleInviteFriends msg userID username b)
        else if bool_decide (Text msg = btnMyReferrals)
        then handleMyReferrals msg userID b
        else if bool_decide (Text msg = btnConnectWallet)
                || bool_decide (Text msg = btnChangeWallet)
        then Returned (handleConnectWallet msg userID b)
        else Returned (showMenu (ChatID msg) ChooseAction b) in
      if IsCommand msg && bool_decide (Command msg = str "start")
      then handleStart msg userID username b
      else if bool_decide (Text msg <> [])
      then
        if default false (waitingForWallet b !! userID)
        then Returned (handleWalletInput msg userID b)
        else if walletRegex_MatchString (strings_TrimSpace (Text msg))
        then
          match run (GetReferrerByID userID) b with
          | (Ok (Some ref), b) =>
              if bool_decide (Wallet ref = [])
              then buttons (sendMessage (ChatID msg) WalletDetected b)
              else buttons b
          | (_, b) => buttons b
          end
        else buttons b
      else buttons b
  end.

Definition botOf (r : Run) : Bot :=
  match r with
  | Returned b => b
  | Panicked b => b
  end.

(** Every key of the two referrer maps of [c] is a key of those of [c']. *)
Definition keepsReferrerKeys (c c' : Cache) : Prop :=
  (forall u, is_Some (referrersByID c !! u) -> is_Some (referrersByID c' !! u)) /\
  (forall k, is_Some (referrersByCode c !! k) ->
             is_Some (referrersByCode c' !! k)).

(** A computation that only adds requests to the trace. *)
Definition extendsTrace {A} (m : M A) : Prop :=
  forall st r st', m st = (r, st') ->
                   trace (world st) `prefix_of` trace (world st').

(** What a write request made while [withdrawal] is processed, in a state
    with cache [c] and clock [t], has to be: the ledger row of the
    withdrawal, with the code of the user's Invited record and the bonus at
    a tenth of the profit, or the row of the referrer cached under that code
    with this bonus added to its pending payout. *)
Definition bonusWrite (c : Cache) (t : Z) (withdrawal : Withdrawal) (call : Call)
  : Prop :=
  exists inv ref,
    invitedByUserID c !! wUserID withdrawal = Some inv /\
    referrersByCode c !! normalizedCode (RefCode inv) = Some ref /\
    let bonus := (Profit withdrawal * bonusRate)%float in
    let referral :=
      mkReferral (wUserID withdrawal) (RefCode inv) (Profit withdrawal)
                 (DealID withdrawal) bonus (time_Format t) in
    (exists i ok,
       call = CallUpdate (RangeRow Referrals cA i cF i) [referralValues referral] ok)
    \/
    (exists j ok,
       call = CallUpdate (RangeRow Referrers cA j cG j)
                [referrerValues (addBonus ref bonus)] ok).

(** The loop of [syncWithdrawals]. *)
Definition passLoop (withdrawals : list Withdrawal) (st : State) : State :=
  fold_left (fun s w => snd (processWithdrawal w s)) withdrawals st.

(** The referrer a withdrawal is credited to, if the cache has one: the one
    found under the code of the Invited record of the withdrawal's user. *)
Definition referrerOf (c : Cache) (withdrawal : Withdrawal) : option Referrer :=
  match invitedByUserID c !! wUserID withdrawal with
  | Some inv => referrersByCode c !! normalizedCode (RefCode inv)
  | None => None
  end.

(** A read of "Рефоводы" in which [UpdateReferrer] finds the row of every
    referrer the cache has under a code. *)
Definition coversReferrers (c : Cache) (sheet : list (list Cell)) : Prop :=
  forall k ref,
    referrersByCode c !! k = Some ref ->
    is_Some (findReferrerRow (ID ref) 0 sheet).

(** The outcomes the service holds ready for a pass that goes through: the
    rows of "Выводы", then for each withdrawal the column A of the ledger
    and the sheet of referrers, then [rest]. *)
Definition passReads (rows : list (list Cell))
    (steps : list (list (list Cell) * list (list Cell)))
    (rest : list (option (list (list Cell)))) : list (option (list (list Cell))) :=
  Some rows :: flat_map (fun s => [Some (fst s); Some (snd s)]) steps ++ rest.

(** * Properties *)

(** ** Running the monad *)

Lemma bind_inv {A B} (m : M A) (k : A -> M B) st r st' :
  bind m k st = (r, st') ->
  (exists a st1, m st = (Ok a, st1) /\ k a st1 = (r, st')) \/
  (exists e, m st = (Err e, st') /\ r = Err e).
Proof.
  unfold bind. destruct (m st) as [[a|e] st1]; intros H.
  - left. eauto.
  - right. inversion H; subst. eauto.
Qed.

Lemma wrap_inv {A} ctx (m : M A) st r st' :
  wrap ctx m st = (r, st') ->
  (exists a, m st = (Ok a, st') /\ r = Ok a) \/
  (exists e, m st = (Err e, st') /\ r = Err (ErrWrap ctx e)).
Proof.
  unfold wrap. destruct (m st) as [[a|e] st1]; intros H; inversion H; subst; eauto.
Qed.

Lemma bind_ok {A B} (m : M A) (k : A -> M B) st a st1 :
  m st = (Ok a, st1) -> bind m k st = k a st1.
Proof. unfold bind. intros ->. reflexivity. Qed.

Lemma bind_err {A B} (m : M A) (k : A -> M B) st e st1 :
  m st = (Err e, st1) -> bind m k st = (Err e, st1).
Proof. unfold bind. intros ->. reflexivity. Qed.

Lemma wrap_ok {A} ctx (m : M A) st a st1 :
  m st = (Ok a, st1) -> wrap ctx m st = (Ok a, st1).
Proof. unfold wrap. intros ->. reflexivity. Qed.

Lemma wrap_err {A} ctx (m : M A) st e st1 :
  m st = (Err e, st1) -> wrap ctx m st = (Err (ErrWrap ctx e), st1).
Proof. unfold wrap. intros ->. reflexivity. Qed.

(** The three lookups only read the cache. *)
Lemma GetReferrerByID_run userID st :
  GetReferrerByID userID st = (Ok (referrersByID (cache st) !! userID), st).
Proof. reflexivity. Qed.

Lemma GetReferrerByCode_run code st :
  GetReferrerByCode code st
  = (Ok (referrersByCode (cache st) !! normalizedCode code), st).
Proof. reflexivity. Qed.

Lemma GetInvitedByUserID_run userID st :
  GetInvitedByUserID userID st = (Ok (invitedByUserID (cache st) !! userID), st).
Proof. reflexivity. Qed.

(** ** C6: referential gaps are skipped without any effect *)

(** C6. A withdrawal whose user id has no Invited record, or whose Invited
    record's code matches no Referrer, makes [processWithdrawal] return nil
    with the whole state (cache, pending balances, the service's script and
    the trace of requests) exactly as before: no ledger row is written and no
    request is made at all. *)
Theorem processWithdrawal_gap_is_skipped (w : Withdrawal) (st : State) :
  invitedByUserID (cache st) !! wUserID w = None \/
  (exists inv, invitedByUserID (cache st) !! wUserID w = Some inv /\
               referrersByCode (cache st) !! normalizedCode (RefCode inv) = None) ->
  processWithdrawal w st = (Ok tt, st).
Proof.
  intros [Hnone | (inv & Hinv & Hcode)]; unfold processWithdrawal.
  - rewrite (bind_ok _ _ st None st); [reflexivity|].
    apply wrap_ok. rewrite GetInvitedByUserID_run, Hnone. reflexivity.
  - rewrite (bind_ok _ _ st (Some inv) st).
    + rewrite (bind_ok _ _ st None st); [reflexivity|].
      apply wrap_ok. rewrite GetReferrerByCode_run, Hcode. reflexivity.
    + apply wrap_ok. rewrite GetInvitedByUserID_run, Hinv. reflexivity.
Qed.

(** ** C5: the column the profit is read from *)

Lemma profitCell_four (row : Row) :
  (4 <= length row)%nat -> profitCell row = row !! 3%nat.
Proof.
  intros H. unfold profitCell.
  destruct (Nat.leb_spec 4 (length row)); [reflexivity | lia].
Qed.

Lemma profitCell_three (row : Row) :
  length row = 3%nat -> profitCell row = row !! 2%nat.
Proof.
  intros H. unfold profitCell. rewrite H. reflexivity.
Qed.

Lemma parseWithdrawalRow_short existing (row : Row) :
  (length row < 3)%nat -> parseWithdrawalRow existing row = None.
Proof.
  intros H. destruct row as [|c0 [|c1 [|c2 row]]]; simpl in H; try lia; try reflexivity.
  unfold parseWithdrawalRow, profitCell. simpl.
  repeat case_match; reflexivity.
Qed.

Lemma parseWithdrawalRow_candidate existing (c0 c1 : Cell) (rest : Row) :
  getStringValue c0 <> [] ->
  default false (existing !! getStringValue c0) = false ->
  parseWithdrawalRow existing (c0 :: c1 :: rest)
  = match profitCell (c0 :: c1 :: rest) with
    | Some cell => withdrawalAt c0 c1 cell
    | None => None
    end.
Proof.
  intros Hne Hnew. unfold parseWithdrawalRow, withdrawalAt.
  rewrite bool_decide_eq_false_2 by exact Hne. rewrite Hnew.
  destruct (parseUserID c1); [reflexivity|].
  destruct (profitCell _); reflexivity.
Qed.

(** C5. In [GetNewWithdrawals] (whose result is, row by row and in order,
    what [parseWithdrawalRow] yields against the known deal ids) a row with
    fewer than 3 cells yields no withdrawal; a candidate row (non-empty new
    deal id in A) with at least 4 cells is read at index 3 and one with
    exactly 3 cells at index 2; and every withdrawal produced carries as its
    profit the value of the cell at the offset chosen for its row's shape. *)
Theorem GetNewWithdrawals_profit_column :
  (forall st rows g,
     gets (world st) = Some rows :: g ->
     fst (GetNewWithdrawals st)
     = Ok (omap (parseWithdrawalRow (existingDealIDs (cache st))) rows)) /\
  (forall existing (row : Row),
     (length row < 3)%nat -> parseWithdrawalRow existing row = None) /\
  (forall existing c0 c1 c2 c3 (rest : Row),
     getStringValue c0 <> [] ->
     default false (existing !! getStringValue c0) = false ->
     parseWithdrawalRow existing (c0 :: c1 :: c2 :: c3 :: rest)
     = withdrawalAt c0 c1 c3) /\
  (forall existing c0 c1 c2,
     getStringValue c0 <> [] ->
     default false (existing !! getStringValue c0) = false ->
     parseWithdrawalRow existing [c0; c1; c2] = withdrawalAt c0 c1 c2) /\
  (forall existing (row : Row) w,
     parseWithdrawalRow existing row = Some w ->
     exists cell,
       Profit w = getFloatValue cell /\
       ((4 <= length row)%nat /\ row !! 3%nat = Some cell \/
        length row = 3%nat /\ row !! 2%nat = Some cell)).
Proof.
  split; [|split; [|split; [|split]]].
  - intros st rows g Hg. unfold GetNewWithdrawals, GetExistingDealIDs.
    unfold bind at 1. unfold bind at 1. simpl.
    unfold bind, wrap, valuesGet. rewrite Hg. reflexivity.
  - apply parseWithdrawalRow_short.
  - intros. rewrite parseWithdrawalRow_candidate by assumption. reflexivity.
  - intros. rewrite parseWithdrawalRow_candidate by assumption. reflexivity.
  - intros existing row w H.
    destruct row as [|c0 [|c1 rest]]; try discriminate.
    unfold parseWithdrawalRow in H.
    repeat case_match; try discriminate.
    inversion H; subst; clear H. simpl.
    eexists; split; [reflexivity|].
    match goal with Hp : profitCell _ = Some _ |- _ => rename Hp into Hcell end.
    unfold profitCell in Hcell.
    destruct (Nat.leb_spec 4 (length (c0 :: c1 :: rest))) as [Hge4|Hlt4].
    + left. split; [exact Hge4 | exact Hcell].
    + destruct (Nat.leb_spec 3 (length (c0 :: c1 :: rest))) as [Hge3|Hlt3];
        [|discriminate].
      right. split; [simpl in *; lia | exact Hcell].
Qed.

(** ** C8: what the balance repair job writes *)

Lemma repairRow_Some (i : Z) (row : Row) u :
  repairRow i row = Some u <->
  exists c0,
    row !! 0%nat = Some c0 /\ getStringValue c0 <> [] /\
    (currentPendingOf row - paidOutOf row =? currentPendingOf row)%float = false /\
    u = (RangeCell Referrers cF (i + 2),
         [[VFloat64 (currentPendingOf row - paidOutOf row)]]).
Proof.
  unfold repairRow. destruct row as [|c0 cells].
  { split; [discriminate | intros (c & Hc & _); discriminate]. }
  simpl. destruct (bool_decide (getStringValue c0 = [])) eqn:Hid.
  { apply bool_decide_eq_true_1 in Hid.
    split; [discriminate | intros (c & Hc & Hne & _)].
    inversion Hc; subst. contradiction. }
  apply bool_decide_eq_false_1 in Hid.
  destruct (_ =? _)%float eqn:Hdiff; simpl.
  - split; [discriminate | intros (c & _ & _ & Hd & _); discriminate].
  - split.
    + intros H. inversion H; subst. exists c0. auto.
    + intros (c & _ & _ & _ & ->). reflexivity.
Qed.

Lemma elem_of_pendingUpdates (i : Z) (rows : list (list Cell)) u :
  u ∈ pendingUpdates i rows <->
  exists (k : nat) (row : Row),
    rows !! k = Some row /\ repairRow (i + Z.of_nat k) row = Some u.
Proof.
  revert i. induction rows as [|row rows IH]; intros i; simpl.
  - split; [intros H; inversion H|].
    intros (k & row & Hk & _). rewrite lookup_nil in Hk. discriminate.
  - assert (Hrest : u ∈ pendingUpdates (i + 1) rows <->
              exists (k : nat) (row' : Row),
                rows !! k = Some row' /\
                repairRow (i + Z.of_nat (S k)) row' = Some u).
    { rewrite IH. split; intros (k & row' & Hk & Hu); exists k, row';
        (split; [exact Hk|]);
        replace (i + Z.of_nat (S k)) with (i + 1 + Z.of_nat k) in * by lia;
        exact Hu. }
    destruct (repairRow i row) as [u0|] eqn:Hrow.
    + rewrite elem_of_cons, Hrest. split.
      * intros [-> | (k & row' & Hk & Hu)].
        -- exists 0%nat, row. rewrite Z.add_0_r. auto.
        -- exists (S k), row'. auto.
      * intros ([|k] & row' & Hk & Hu).
        -- left. simpl in Hk. inversion Hk; subst row'.
           rewrite Z.add_0_r in Hu. congruence.
        -- right. exists k, row'. auto.
    + rewrite Hrest. split.
      * intros (k & row' & Hk & Hu). exists (S k), row'. auto.
      * intros ([|k] & row' & Hk & Hu).
        -- simpl in Hk. inversion Hk; subst row'.
           rewrite Z.add_0_r in Hu. congruence.
        -- exists k, row'. auto.
Qed.

Lemma pendingUpdates_NoDup (i : Z) (rows : list (list Cell)) :
  NoDup (map fst (pendingUpdates i rows)).
Proof.
  revert i. induction rows as [|row rows IH]; intros i; simpl; [constructor|].
  destruct (repairRow i row) as [u|] eqn:Hrow; [|apply IH].
  simpl. constructor; [|apply IH].
  intros Hin. apply list_elem_of_fmap in Hin as (u' & Heq & Hin).
  apply elem_of_pendingUpdates in Hin as (k & row' & _ & Hu').
  apply repairRow_Some in Hrow as (_ & _ & _ & _ & ->).
  apply repairRow_Some in Hu' as (_ & _ & _ & _ & ->).
  simpl in Heq. inversion Heq. lia.
Qed.

Lemma UpdatePendingPayouts_run st rows g :
  gets (world st) = Some rows :: g ->
  let read := CallGet (RangeFrom Referrers cA 2 cG) UnformattedValue (Some rows) in
  let after w := mkWorld g (acks w) (rands w) (clock w) (trace w ++ [read]) in
  UpdatePendingPayouts st
  = match pendingUpdates 0 rows with
    | [] => (Ok tt, mkState (cache st) (after (world st)))
    | updates =>
        wrap InUpdatePending (valuesBatchUpdate updates)
          (mkState (cache st) (after (world st)))
    end.
Proof.
  intros Hg read after. unfold UpdatePendingPayouts.
  erewrite bind_ok.
  2:{ apply wrap_ok. unfold valuesGet. rewrite Hg. reflexivity. }
  destruct rows as [|row rows]; [reflexivity|].
  destruct (pendingUpdates 0 (row :: rows)); reflexivity.
Qed.

(** C8. [UpdatePendingPayouts] computes for every row with a non-empty id
    cell [newPending = currentPending - paidOut] from columns F and G (index
    5 and 6, 0 when absent); [updates] holds, once each, precisely the rows
    whose [newPending] differs from [currentPending], as the one-cell range
    F(i+2) with the new value; after the read it issues one batch update with
    exactly these ranges, and no write at all when none differs (or when the
    read fails); a row with pending 50.0 and paid out 20.0 is written with
    30.0. *)
Theorem UpdatePendingPayouts_postcondition :
  (forall (rows : list (list Cell)) u,
     u ∈ pendingUpdates 0 rows <->
     exists (i : nat) (row : Row) c0,
       rows !! i = Some row /\ row !! 0%nat = Some c0 /\
       getStringValue c0 <> [] /\
       (currentPendingOf row - paidOutOf row =? currentPendingOf row)%float
       = false /\
       u = (RangeCell Referrers cF (Z.of_nat i + 2),
            [[VFloat64 (currentPendingOf row - paidOutOf row)]])) /\
  (forall rows : list (list Cell), NoDup (map fst (pendingUpdates 0 rows))) /\
  (forall st rows g,
     gets (world st) = Some rows :: g ->
     let st' := snd (UpdatePendingPayouts st) in
     let read :=
       CallGet (RangeFrom Referrers cA 2 cG) UnformattedValue (Some rows) in
     cache st' = cache st /\
     trace (world st')
     = trace (world st) ++ read ::
         match pendingUpdates 0 rows with
         | [] => []
         | updates => [CallBatchUpdate updates (nextAck (world st))]
         end) /\
  (forall st g,
     gets (world st) = [] \/ gets (world st) = None :: g ->
     let st' := snd (UpdatePendingPayouts st) in
     filter (fun c => isWrite c = true) (trace (world st'))
     = filter (fun c => isWrite c = true) (trace (world st))) /\
  (forall (c0 c1 c2 c3 c4 : Cell),
     getStringValue c0 <> [] ->
     pendingUpdates 0 [[c0; c1; c2; c3; c4; VFloat64 50; VFloat64 20]]
     = [(RangeCell Referrers cF 2, [[VFloat64 30]])]).
Proof.
  split; [|split; [|split; [|split]]].
  - intros rows u. rewrite elem_of_pendingUpdates. split.
    + intros (k & row & Hk & Hu). apply repairRow_Some in Hu as (c0 & H).
      exists k, row, c0. rewrite Z.add_0_l in H. tauto.
    + intros (k & row & c0 & Hk & H). exists k, row. split; [exact Hk|].
      apply repairRow_Some. exists c0. rewrite Z.add_0_l. tauto.
  - intros rows. apply pendingUpdates_NoDup.
  - intros st rows g Hg. cbv zeta. rewrite (UpdatePendingPayouts_run st rows g Hg).
    destruct (pendingUpdates 0 rows) as [|u us]; simpl.
    + split; reflexivity.
    + unfold wrap, valuesBatchUpdate, nextAck. simpl.
      destruct (acks (world st)) as [|[|] ?]; simpl; rewrite <- app_assoc;
        split; reflexivity.
  - intros st g Hg. cbv zeta. unfold UpdatePendingPayouts, bind, wrap, valuesGet.
    destruct Hg as [-> | ->]; simpl; rewrite filter_app; apply app_nil_r.
  - intros c0 c1 c2 c3 c4 Hid. simpl. unfold repairRow.
    rewrite bool_decide_eq_false_2 by exact Hid. reflexivity.
Qed.

(** ** C10: running the repair twice *)

(** Subtracting a zero from a float that is not NaN gives a float that
    compares equal to it. *)
Lemma sub_zero_eqb (x y : float) :
  is_zero y = true -> is_nan x = false -> (x - y =? x)%float = true.
Proof.
  unfold is_zero, is_nan. rewrite !FloatAxioms.eqb_spec, sub_spec.
  change (Prim2SF zero) with (S754_zero false).
  intros Hy Hx. apply negb_false_iff in Hx.
  destruct (Prim2SF y) as [sy|sy| |sy my ey].
  2: destruct sy; discriminate Hy.
  2: discriminate Hy.
  2: destruct sy; discriminate Hy.
  clear Hy. destruct (Prim2SF x) as [sx|sx| |sx mx ex].
  - destruct sx, sy; reflexivity.
  - exact Hx.
  - discriminate Hx.
  - exact Hx.
Qed.

Lemma repairRow_single (i : Z) (row : Row) :
  pendingUpdates i [row] = match repairRow i row with Some u => [u] | None => [] end.
Proof. simpl. destruct (repairRow i row); reflexivity. Qed.

Lemma repairRow_None_iff (i : Z) (row : Row) c0 :
  row !! 0%nat = Some c0 -> getStringValue c0 <> [] ->
  repairRow i row = None <->
  (currentPendingOf row - paidOutOf row =? currentPendingOf row)%float = true.
Proof.
  intros Hc0 Hid. destruct row as [|c cells]; [discriminate|].
  simpl in Hc0. inversion Hc0; subst c. unfold repairRow.
  rewrite bool_decide_eq_false_2 by exact Hid.
  destruct (_ =? _)%float; simpl; split; intros H; try reflexivity; discriminate.
Qed.

(** C10 (as amended). For a row with a non-empty id cell the repair
    computation writes nothing exactly when the float64 difference
    [pending - paidOut] compares equal to [pending]; this holds whenever
    [paidOut] is zero and [pending] is not NaN.  When the row is read again
    with the value written by the first run in column F and the same
    [paidOut], the second run computes [(pending - paidOut) - paidOut]: it
    subtracts the same amount again, and writes it unless that difference
    again compares equal (from 50.0 with paid out 20.0: 30.0, then 10.0). *)
Theorem repair_twice_subtracts_again :
  (forall (i : Z) (row : Row) c0,
     row !! 0%nat = Some c0 -> getStringValue c0 <> [] ->
     (pendingUpdates i [row] = [] <->
      (currentPendingOf row - paidOutOf row =? currentPendingOf row)%float = true)) /\
  (forall (i : Z) (row : Row),
     is_zero (paidOutOf row) = true -> is_nan (currentPendingOf row) = false ->
     pendingUpdates i [row] = []) /\
  (forall (i : Z) (row row' : Row) c0 c0',
     row !! 0%nat = Some c0 -> getStringValue c0 <> [] ->
     row' !! 0%nat = Some c0' -> getStringValue c0' <> [] ->
     let pending := currentPendingOf row in
     let paidOut := paidOutOf row in
     currentPendingOf row' = (pending - paidOut)%float ->
     paidOutOf row' = paidOut ->
     pendingUpdates i [row']
     = if (pending - paidOut - paidOut =? pending - paidOut)%float then []
       else [(RangeCell Referrers cF (i + 2),
              [[VFloat64 (pending - paidOut - paidOut)]])]) /\
  (forall (c0 c1 c2 c3 c4 : Cell),
     getStringValue c0 <> [] ->
     pendingUpdates 0 [[c0; c1; c2; c3; c4; VFloat64 50; VFloat64 20]]
     = [(RangeCell Referrers cF 2, [[VFloat64 30]])] /\
     pendingUpdates 0 [[c0; c1; c2; c3; c4; VFloat64 30; VFloat64 20]]
     = [(RangeCell Referrers cF 2, [[VFloat64 10]])]).
Proof.
  split; [|split; [|split]].
  - intros i row c0 Hc0 Hid. rewrite repairRow_single.
    rewrite <- (repairRow_None_iff i row c0 Hc0 Hid).
    destruct (repairRow i row); split; intros H; try reflexivity; discriminate.
  - intros i row Hz Hnan. rewrite repairRow_single.
    destruct (repairRow i row) as [u|] eqn:Hu; [|reflexivity].
    apply repairRow_Some in Hu as (c0 & _ & _ & Hd & _).
    rewrite sub_zero_eqb in Hd by assumption. discriminate.
  - intros i row row' c0 c0' Hc0 Hid Hc0' Hid' pending paidOut Hp Hq.
    rewrite repairRow_single. destruct row' as [|c cells]; [discriminate|].
    simpl in Hc0'. inversion Hc0'; subst c. unfold repairRow.
    rewrite bool_decide_eq_false_2 by exact Hid'. rewrite Hp, Hq.
    destruct (_ =? _)%float; reflexivity.
  - intros c0 c1 c2 c3 c4 Hid. simpl. unfold repairRow.
    rewrite bool_decide_eq_false_2 by exact Hid. split; reflexivity.
Qed.

(** ** C9: code lookup and normalization *)

Lemma trimLeft_idem (s : gostring) : trimLeft (trimLeft s) = trimLeft s.
Proof.
  induction s as [|r s IH]; simpl; [reflexivity|].
  destruct (unicode_IsSpace r) eqn:Hr; [exact IH|]. simpl. rewrite Hr. reflexivity.
Qed.

Lemma trimLeft_head (s : gostring) :
  trimLeft s = [] \/
  exists r t, trimLeft s = r :: t /\ unicode_IsSpace r = false.
Proof.
  induction s as [|r s IH]; simpl; [left; reflexivity|].
  destruct (unicode_IsSpace r) eqn:Hr; [exact IH|]. right. eauto.
Qed.

Lemma trimLeft_last (s : gostring) (r : rune) :
  unicode_IsSpace r = false -> exists t, trimLeft (s ++ [r]) = t ++ [r].
Proof.
  intros Hr. induction s as [|c s IH]; simpl.
  - rewrite Hr. exists []. reflexivity.
  - destruct (unicode_IsSpace c); [exact IH|]. exists (c :: s). reflexivity.
Qed.

Lemma trimLeft_trimSpace (s : gostring) :
  trimLeft (strings_TrimSpace s) = strings_TrimSpace s.
Proof.
  unfold strings_TrimSpace, trimRight.
  destruct (trimLeft_head s) as [-> | (r & t & -> & Hr)]; [reflexivity|].
  simpl rev at 2. destruct (trimLeft_last (rev t) r Hr) as (u & Hu).
  simpl rev at 3. rewrite Hu, rev_app_distr. simpl. rewrite Hr. reflexivity.
Qed.

Lemma strings_TrimSpace_idem (s : gostring) :
  strings_TrimSpace (strings_TrimSpace s) = strings_TrimSpace s.
Proof.
  unfold strings_TrimSpace at 1. rewrite trimLeft_trimSpace.
  unfold strings_TrimSpace, trimRight.
  rewrite rev_involutive, trimLeft_idem. reflexivity.
Qed.

Lemma trimLeft_map (f : N -> N) (s : gostring) :
  (forall r, unicode_IsSpace (f r) = unicode_IsSpace r) ->
  trimLeft (map f s) = map f (trimLeft s).
Proof.
  intros Hf. induction s as [|r s IH]; simpl; [reflexivity|].
  rewrite Hf. destruct (unicode_IsSpace r); [exact IH | reflexivity].
Qed.

Lemma strings_TrimSpace_map (f : N -> N) (s : gostring) :
  (forall r, unicode_IsSpace (f r) = unicode_IsSpace r) ->
  strings_TrimSpace (map f s) = map f (strings_TrimSpace s).
Proof.
  intros Hf. unfold strings_TrimSpace, trimRight.
  rewrite trimLeft_map by exact Hf. rewrite <- map_rev.
  rewrite trimLeft_map by exact Hf. rewrite map_rev. reflexivity.
Qed.

Section UpperCaseTable.

(** Two facts about the Unicode upper-case table: mapping to upper case
    twice is mapping once, and it takes white space to white space and the
    rest to the rest. *)
Hypothesis upperCase_idem :
  forall r, (127 < r)%N -> unicode_ToUpper (upperCase r) = upperCase r.
Hypothesis upperCase_space :
  forall r, (127 < r)%N -> unicode_IsSpace (upperCase r) = unicode_IsSpace r.

Lemma unicode_ToUpper_idem (r : rune) :
  unicode_ToUpper (unicode_ToUpper r) = unicode_ToUpper r.
Proof.
  unfold unicode_ToUpper at 2 3.
  destruct (N.leb_spec r 127) as [Hle|Hgt]; [|apply upperCase_idem; exact Hgt].
  destruct ((97 <=? r) && (r <=? 122))%N eqn:Hlow; unfold unicode_ToUpper.
  - apply andb_true_iff in Hlow as [H1%N.leb_le H2%N.leb_le].
    destruct (N.leb_spec (r - 32) 127); [|lia].
    destruct (N.leb_spec 97 (r - 32)); [lia|]. reflexivity.
  - destruct (N.leb_spec r 127); [|lia]. rewrite Hlow. reflexivity.
Qed.

Lemma unicode_ToUpper_space (r : rune) :
  unicode_IsSpace (unicode_ToUpper r) = unicode_IsSpace r.
Proof.
  unfold unicode_ToUpper.
  destruct (N.leb_spec r 127) as [Hle|Hgt]; [|apply upperCase_space; exact Hgt].
  destruct ((97 <=? r) && (r <=? 122))%N eqn:Hlow; [|reflexivity].
  apply andb_true_iff in Hlow as [H1%N.leb_le H2%N.leb_le].
  unfold unicode_IsSpace.
  repeat match goal with
         | |- context [(?a <=? ?b)%N] => destruct (N.leb_spec a b); try lia
         | |- context [(?a =? ?b)%N] => destruct (N.eqb_spec a b); try lia
         end; reflexivity.
Qed.

Lemma normalizedCode_idem (code : gostring) :
  normalizedCode (normalizedCode code) = normalizedCode code.
Proof.
  unfold normalizedCode, strings_ToUpper.
  rewrite strings_TrimSpace_map by exact unicode_ToUpper_space.
  rewrite strings_TrimSpace_idem, map_map.
  apply map_ext. intros r. apply unicode_ToUpper_idem.
Qed.

End UpperCaseTable.

(** ** The service calls leave the cache alone *)

Lemma valuesGet_cache r opt st res st' :
  valuesGet r opt st = (res, st') -> cache st' = cache st.
Proof. unfold valuesGet. intros H. inversion H. reflexivity. Qed.

Lemma valuesUpdate_cache r values st res st' :
  valuesUpdate r values st = (res, st') -> cache st' = cache st.
Proof. unfold valuesUpdate. intros H. inversion H. reflexivity. Qed.

Lemma randInt_cache n st res st' :
  randInt n st = (res, st') -> cache st' = cache st.
Proof. unfold randInt. intros H. inversion H. reflexivity. Qed.

(** Taking a bind or a wrap apart in a hypothesis [H : _ = (r, st')]. *)
Ltac run_inv H :=
  let a := fresh "a" in
  let e := fresh "e" in
  let s := fresh "st" in
  let H1 := fresh "Hrun" in
  let H2 := fresh "Hrun" in
  first
    [ apply bind_inv in H as [(a & s & H1 & H) | (e & H & H2)]
    | apply wrap_inv in H as [(a & H & H1) | (e & H & H1)] ].

Lemma findFirstEmptyRow_cache sheet st res st' :
  findFirstEmptyRow sheet st = (res, st') -> cache st' = cache st.
Proof.
  unfold findFirstEmptyRow. intros H. run_inv H.
  - run_inv Hrun; [|discriminate]. apply valuesGet_cache in Hrun.
    destruct a; inversion H; subst; exact Hrun.
  - run_inv H; [discriminate|]. apply valuesGet_cache in H. exact H.
Qed.

Lemma UpdateReferrer_cache ref st res st' :
  UpdateReferrer ref st = (res, st') ->
  cache st' = match res with
              | Ok _ => upsertReferrer ref (cache st)
              | Err _ => cache st
              end.
Proof.
  unfold UpdateReferrer. intros H. run_inv H.
  - run_inv Hrun; [|discriminate]. apply valuesGet_cache in Hrun.
    inversion Hrun0; subst a0. clear Hrun0.
    destruct (findReferrerRow (ID ref) 0 a) as [rowIndex|].
    + run_inv H.
      * run_inv Hrun0; [|discriminate]. apply valuesUpdate_cache in Hrun0.
        unfold modifyCache in H. inversion H; subst. simpl. congruence.
      * run_inv H; [discriminate|]. apply valuesUpdate_cache in H. subst res.
        congruence.
    + inversion H; subst. exact Hrun.
  - run_inv H; [discriminate|]. apply valuesGet_cache in H. subst res. exact H.
Qed.

Lemma loadReferrersCache_cache st res st' :
  loadReferrersCache st = (res, st') ->
  match res with
  | Ok _ =>
      exists rows g,
        gets (world st) = Some rows :: g /\
        cache st' = fold_left indexReferrerRow rows (resetReferrers (cache st))
  | Err _ => cache st' = cache st
  end.
Proof.
  unfold loadReferrersCache, bind, wrap, valuesGet, modifyCache.
  destruct (gets (world st)) as [|[rows|] g]; simpl; intros H; inversion H; subst;
    simpl; eauto.
Qed.

Lemma upsertReferrer_codesNormalized ref c :
  codesNormalized c -> codesNormalized (upsertReferrer ref c).
Proof.
  intros Hc k ref'. unfold upsertReferrer. simpl.
  destruct (bool_decide (Code ref = [])); [apply Hc|].
  rewrite lookup_insert. case_decide as Hk.
  - intros H. inversion H; subst. reflexivity.
  - apply Hc.
Qed.

Lemma indexReferrerRow_codesNormalized c (row : Row) :
  codesNormalized c -> codesNormalized (indexReferrerRow c row).
Proof.
  intros Hc. unfold indexReferrerRow. destruct row; [exact Hc|].
  destruct (parseReferrerRow _); [|exact Hc].
  apply upsertReferrer_codesNormalized. exact Hc.
Qed.

Lemma indexReferrerRow_keeps_code c (row : Row) k :
  is_Some (referrersByCode c !! k) ->
  is_Some (referrersByCode (indexReferrerRow c row) !! k).
Proof.
  intros Hk. unfold indexReferrerRow. destruct row; [exact Hk|].
  destruct (parseReferrerRow _) as [ref|]; [|exact Hk].
  unfold upsertReferrer. simpl. destruct (bool_decide _); [exact Hk|].
  rewrite lookup_insert. case_decide; [eauto | exact Hk].
Qed.

Lemma fold_indexReferrerRow_codesNormalized (rows : list (list Cell)) c :
  codesNormalized c -> codesNormalized (fold_left indexReferrerRow rows c).
Proof.
  revert c. induction rows as [|row rows IH]; intros c Hc; simpl; [exact Hc|].
  apply IH, indexReferrerRow_codesNormalized, Hc.
Qed.

Lemma fold_indexReferrerRow_keeps_code (rows : list (list Cell)) c k :
  is_Some (referrersByCode c !! k) ->
  is_Some (referrersByCode (fold_left indexReferrerRow rows c) !! k).
Proof.
  revert c. induction rows as [|row rows IH]; intros c Hk; simpl; [exact Hk|].
  apply IH, indexReferrerRow_keeps_code, Hk.
Qed.

Lemma fold_indexReferrerRow_indexed (rows : list (list Cell)) c (row : Row) ref :
  In row rows -> parseReferrerRow row = Some ref -> Code ref <> [] ->
  is_Some (referrersByCode (fold_left indexReferrerRow rows c)
             !! normalizedCode (Code ref)).
Proof.
  intros Hin Hrow Hcode. revert c.
  induction rows as [|row' rows IH]; intros c; [destruct Hin|].
  simpl. destruct Hin as [-> | Hin]; [|apply IH; exact Hin].
  apply fold_indexReferrerRow_keeps_code.
  unfold indexReferrerRow. rewrite Hrow.
  destruct row; [discriminate|].
  unfold upsertReferrer. simpl.
  rewrite bool_decide_eq_false_2 by exact Hcode.
  rewrite lookup_insert_eq. eauto.
Qed.

(** C9. Given that the Unicode upper-case table is idempotent and keeps
    white space apart from the rest, [GetReferrerByCode c] returns what
    [GetReferrerByCode] returns on the trimmed, upper-cased [c].  The index is
    keyed the same way on upsert and on reload: after a successful
    [UpdateReferrer ref] with a non-empty code, and after a reload that read
    a row parsed to [ref] with a non-empty code, every [c] whose normal form
    is that of the stored code finds a referrer (on upsert [ref] itself, on
    reload one whose code has that normal form). *)
Theorem GetReferrerByCode_normalizes :
  (forall r, (127 < r)%N -> unicode_ToUpper (upperCase r) = upperCase r) ->
  (forall r, (127 < r)%N -> unicode_IsSpace (upperCase r) = unicode_IsSpace r) ->
  (forall c st,
     GetReferrerByCode c st = GetReferrerByCode (normalizedCode c) st) /\
  (forall ref st st' c,
     UpdateReferrer ref st = (Ok tt, st') ->
     Code ref <> [] ->
     normalizedCode c = normalizedCode (Code ref) ->
     GetReferrerByCode c st' = (Ok (Some ref), st')) /\
  (forall st st' rows g (row : Row) ref c,
     gets (world st) = Some rows :: g ->
     loadReferrersCache st = (Ok tt, st') ->
     In row rows -> parseReferrerRow row = Some ref -> Code ref <> [] ->
     normalizedCode c = normalizedCode (Code ref) ->
     exists ref',
       GetReferrerByCode c st' = (Ok (Some ref'), st') /\
       normalizedCode (Code ref') = normalizedCode c).
Proof.
  intros Hidem Hspace. split; [|split].
  - intros c st. rewrite !GetReferrerByCode_run.
    rewrite normalizedCode_idem by assumption. reflexivity.
  - intros ref st st' c Hrun Hcode Hc.
    apply UpdateReferrer_cache in Hrun.
    rewrite GetReferrerByCode_run, Hrun, Hc. unfold upsertReferrer. simpl.
    rewrite bool_decide_eq_false_2 by exact Hcode.
    rewrite lookup_insert_eq. reflexivity.
  - intros st st' rows g row ref c Hg Hrun Hin Hrow Hcode Hc.
    apply loadReferrersCache_cache in Hrun as (rows' & g' & Hg' & Hcache).
    rewrite Hg in Hg'. inversion Hg'; subst rows' g'. clear Hg'.
    destruct (fold_indexReferrerRow_indexed rows (resetReferrers (cache st))
                row ref Hin Hrow Hcode) as [ref' Href'].
    exists ref'. rewrite GetReferrerByCode_run, Hcache, Hc. split.
    + rewrite Href'. reflexivity.
    + apply (fold_indexReferrerRow_codesNormalized rows
               (resetReferrers (cache st))) in Href'; [exact Href'|].
      intros k r Hk. simpl in Hk. rewrite lookup_empty in Hk. discriminate.
Qed.

(** ** C3: local writes and the cache *)

Lemma CreateInvited_cache userID refCode st res st' :
  CreateInvited userID refCode st = (res, st') ->
  cache st' = match res with
              | Ok _ => upsertInvited (mkInvited userID refCode) (cache st)
              | Err _ => cache st
              end.
Proof.
  unfold CreateInvited. intros H. run_inv H.
  - run_inv Hrun; [|discriminate]. apply findFirstEmptyRow_cache in Hrun.
    inversion Hrun0; subst a0. clear Hrun0. run_inv H.
    + run_inv Hrun0; [|discriminate]. apply valuesUpdate_cache in Hrun0.
      unfold modifyCache in H. inversion H; subst. simpl. congruence.
    + run_inv H; [discriminate|]. apply valuesUpdate_cache in H. subst res.
      congruence.
  - run_inv H; [discriminate|]. apply findFirstEmptyRow_cache in H. subst res.
    exact H.
Qed.

Lemma CreateReferral_cache ref st res st' :
  CreateReferral ref st = (res, st') ->
  cache st' = match res with
              | Ok _ => markDealID (rDealID ref) (cache st)
              | Err _ => cache st
              end.
Proof.
  unfold CreateReferral. intros H. run_inv H.
  - run_inv Hrun; [|discriminate]. apply findFirstEmptyRow_cache in Hrun.
    inversion Hrun0; subst a0. clear Hrun0. run_inv H.
    + run_inv Hrun0; [|discriminate]. apply valuesUpdate_cache in Hrun0.
      unfold modifyCache in H. inversion H; subst. simpl. congruence.
    + run_inv H; [discriminate|]. apply valuesUpdate_cache in H. subst res.
      congruence.
  - run_inv H; [discriminate|]. apply findFirstEmptyRow_cache in H. subst res.
    exact H.
Qed.

(** C3 (as amended). [UpdateReferrer], [CreateInvited] and [CreateReferral]
    upsert the cache when they succeed: after [UpdateReferrer r],
    [GetReferrerByID (ID r)] returns [r], and [GetReferrerByCode (Code r)]
    returns [r] when [r]'s code is not empty (an empty code is not indexed);
    after [CreateInvited] the binding is found by user id; after
    [CreateReferral] the deal id is known. *)
Theorem local_writes_upsert_cache :
  (forall ref st st',
     UpdateReferrer ref st = (Ok tt, st') ->
     GetReferrerByID (ID ref) st' = (Ok (Some ref), st') /\
     (Code ref <> [] ->
      GetReferrerByCode (Code ref) st' = (Ok (Some ref), st'))) /\
  (forall userID refCode st st',
     CreateInvited userID refCode st = (Ok tt, st') ->
     GetInvitedByUserID userID st' = (Ok (Some (mkInvited userID refCode)), st')) /\
  (forall ref st st',
     CreateReferral ref st = (Ok tt, st') ->
     fst (GetExistingDealIDs st') = Ok (existingDealIDs (cache st')) /\
     existingDealIDs (cache st') !! rDealID ref = Some true).
Proof.
  split; [|split].
  - intros ref st st' Hrun. apply UpdateReferrer_cache in Hrun. split.
    + rewrite GetReferrerByID_run, Hrun. unfold upsertReferrer. simpl.
      rewrite lookup_insert_eq. reflexivity.
    + intros Hcode. rewrite GetReferrerByCode_run, Hrun.
      unfold upsertReferrer. simpl.
      rewrite bool_decide_eq_false_2 by exact Hcode.
      rewrite lookup_insert_eq. reflexivity.
  - intros userID refCode st st' Hrun. apply CreateInvited_cache in Hrun.
    rewrite GetInvitedByUserID_run, Hrun. unfold upsertInvited. simpl.
    rewrite lookup_insert_eq. reflexivity.
  - intros ref st st' Hrun. apply CreateReferral_cache in Hrun. split.
    + reflexivity.
    + rewrite Hrun. unfold markDealID. simpl. apply lookup_insert_eq.
Qed.

(** ** The cache after each sub-load *)

Lemma fold_indexReferrerRow_frame (rows : list (list Cell)) c :
  invitedByUserID (fold_left indexReferrerRow rows c) = invitedByUserID c /\
  existingDealIDs (fold_left indexReferrerRow rows c) = existingDealIDs c /\
  lastCacheUpdate (fold_left indexReferrerRow rows c) = lastCacheUpdate c.
Proof.
  revert c. induction rows as [|row rows IH]; intros c; simpl; [auto|].
  destruct (IH (indexReferrerRow c row)) as (-> & -> & ->).
  unfold indexReferrerRow. destruct row; [auto|].
  destruct (parseReferrerRow _); auto.
Qed.

Lemma fold_indexInvitedRow_frame (rows : list (list Cell)) c :
  referrersByID (fold_left indexInvitedRow rows c) = referrersByID c /\
  referrersByCode (fold_left indexInvitedRow rows c) = referrersByCode c /\
  existingDealIDs (fold_left indexInvitedRow rows c) = existingDealIDs c /\
  lastCacheUpdate (fold_left indexInvitedRow rows c) = lastCacheUpdate c.
Proof.
  revert c. induction rows as [|row rows IH]; intros c; simpl; [auto|].
  destruct (IH (indexInvitedRow c row)) as (-> & -> & -> & ->).
  unfold indexInvitedRow. destruct row as [|c0 [|c1 row]]; auto.
  repeat case_match; auto.
Qed.

Lemma loadInvitedCache_cache st res st' :
  loadInvitedCache st = (res, st') ->
  match res with
  | Ok _ =>
      exists rows g,
        gets (world st) = Some rows :: g /\
        cache st' = fold_left indexInvitedRow rows (resetInvited (cache st))
  | Err _ => cache st' = cache st
  end.
Proof.
  unfold loadInvitedCache, bind, wrap, valuesGet, modifyCache.
  destruct (gets (world st)) as [|[rows|] g]; simpl; intros H; inversion H; subst;
    simpl; eauto.
Qed.

Lemma loadDealIDsCache_cache st res st' :
  loadDealIDsCache st = (res, st') ->
  match res with
  | Ok _ =>
      exists rows g,
        gets (world st) = Some rows :: g /\
        cache st' = fold_left indexDealIDRow rows (resetDealIDs (cache st))
  | Err _ => cache st' = cache st
  end.
Proof.
  unfold loadDealIDsCache, bind, wrap, valuesGet, modifyCache.
  destruct (gets (world st)) as [|[rows|] g]; simpl; intros H; inversion H; subst;
    simpl; eauto.
Qed.

(** ** C7: the code generation protocol *)

Lemma charset_length : length charset = 36%nat.
Proof. reflexivity. Qed.

Opaque charset.

Lemma randomCode_S n :
  randomCode (S n)
  = (k <- wrap InRandom (randInt (N.of_nat (length charset))) ;;
     rest <- randomCode n ;;
     ret (nth (N.to_nat k) charset 0%N :: rest)).
Proof. reflexivity. Qed.

Lemma generateAttempts_S n :
  generateAttempts (S n)
  = (codeStr <- randomCode codeLength ;;
     exists_ <- codeExists codeStr ;;
     if exists_ then generateAttempts n else ret codeStr).
Proof. reflexivity. Qed.

Lemma randomCode_spec n st res st' :
  randomCode n st = (res, st') ->
  cache st' = cache st /\ trace (world st') = trace (world st) /\
  match res with
  | Ok code => length code = n /\ Forall (fun r => In r charset) code
  | Err e => e = ErrWrap InRandom ErrEntropy
  end.
Proof.
  revert st res st'. induction n as [|n IH]; intros st res st' H.
  - inversion H; subst. auto.
  - rewrite randomCode_S in H. run_inv H.
    + run_inv Hrun; [|discriminate]. inversion Hrun0; subst a0. clear Hrun0.
      assert (Hk : cache st0 = cache st /\ trace (world st0) = trace (world st)
                   /\ (a < 36)%N).
      { unfold randInt in Hrun. rewrite charset_length in Hrun.
        destruct (rands (world st)) as [|[k|] ?]; inversion Hrun; subst; simpl;
          repeat split. apply N.mod_lt. discriminate. }
      destruct Hk as (Hc & Ht & Hlt). run_inv H.
      * apply IH in Hrun0 as (Hc' & Ht' & Hlen & Hall).
        inversion H; subst.
        split; [congruence|]. split; [congruence|]. split; [reflexivity|].
        constructor; [|exact Hall]. apply nth_In. rewrite charset_length. lia.
      * apply IH in H as (Hc' & Ht' & He). subst res.
        repeat split; congruence.
    + run_inv H; [discriminate|]. subst res.
      unfold randInt in H.
      destruct (rands (world st)) as [|[k|] ?]; inversion H; subst; simpl;
        repeat split; congruence.
Qed.

Lemma codeExists_spec code st res st' :
  codeExists code st = (res, st') ->
  cache st' = cache st /\
  ((exists rows, res = Ok (codeInRows code rows) /\
      trace (world st') = trace (world st) ++ [codeRead (Some rows)]) \/
   (res = Err ErrService /\
      trace (world st') = trace (world st) ++ [codeRead None])).
Proof.
  unfold codeExists, bind, valuesGet, ret, codeRead.
  destruct (gets (world st)) as [|[rows|] g]; simpl; intros H; inversion H; subst;
    simpl; split; eauto.
Qed.

Lemma generateAttempts_spec n st res st' :
  generateAttempts n st = (res, st') ->
  cache st' = cache st /\
  exists calls,
    trace (world st') = trace (world st) ++ calls /\
    match res with
    | Ok code =>
        length code = codeLength /\ Forall (fun r => In r charset) code /\
        exists before rows,
          calls = before ++ [codeRead (Some rows)] /\
          Forall collision before /\ codeInRows code rows = false
    | Err (ErrAttemptsExhausted m) =>
        m = Z.of_nat maxAttempts /\ length calls = n /\ Forall collision calls
    | Err ErrService =>
        exists before, calls = before ++ [codeRead None] /\ Forall collision before
    | Err (ErrWrap InRandom ErrEntropy) => Forall collision calls
    | Err _ => False
    end.
Proof.
  revert st res st'. induction n as [|n IH]; intros st res st' H.
  - inversion H; subst. split; [reflexivity|]. exists [].
    rewrite app_nil_r. auto.
  - rewrite generateAttempts_S in H. run_inv H.
    2:{ apply randomCode_spec in H as (Hc & Ht & He). subst res e.
        split; [exact Hc|]. exists []. rewrite app_nil_r. auto. }
    apply randomCode_spec in Hrun as (Hc & Ht & Hlen & Hall).
    run_inv H.
    2:{ apply codeExists_spec in H as (Hc' & [(rows & Hres & _) | (Hres & Ht')]);
          [congruence|].
        subst res. inversion Hres; subst e. split; [congruence|].
        exists [codeRead None]. split; [congruence|]. exists []. auto. }
    apply codeExists_spec in Hrun as (Hc' & [(rows & Hres & Ht') | (Hres & _)]);
      [|discriminate].
    inversion Hres; subst a0. clear Hres.
    destruct (codeInRows a rows) eqn:Hfound.
    + apply IH in H as (Hc'' & calls & Ht'' & Hcase).
      split; [congruence|]. exists (codeRead (Some rows) :: calls).
      split. { rewrite Ht'', Ht', Ht, <- app_assoc. reflexivity. }
      assert (Hcol : collision (codeRead (Some rows))) by (exists rows, a; auto).
      destruct res as [code | e].
      * destruct Hcase as (Hl & Hin & before & rows' & -> & Hbefore & Hnot).
        repeat split; try assumption.
        exists (codeRead (Some rows) :: before), rows'. auto.
      * destruct e as [| | |m|ctx e]; try contradiction.
        -- destruct Hcase as (before & -> & Hbefore).
           exists (codeRead (Some rows) :: before). auto.
        -- destruct Hcase as (-> & <- & Hall'). simpl. auto.
        -- destruct ctx; try contradiction. destruct e; try contradiction. auto.
    + inversion H; subst. split; [congruence|].
      exists [codeRead (Some rows)]. split; [congruence|].
      repeat split; try assumption. exists [], rows. auto.
Qed.

Transparent charset.

(** C7 (as amended). [generateUniqueCode] leaves the cache alone and returns
    one of: a code of 6 characters of the alphabet A-Z0-9 whose live check,
    the last request made, read the code column and did not find it, every
    earlier request being a check that found its candidate; the
    generation-exhausted error, after exactly 100 checks that each found a
    collision; the service's error, when a check's read failed (the last
    request); or the wrapped error of the random source. *)
Theorem generateUniqueCode_outcomes st res st' :
  generateUniqueCode st = (res, st') ->
  cache st' = cache st /\
  exists calls,
    trace (world st') = trace (world st) ++ calls /\
    match res with
    | Ok code =>
        length code = 6%nat /\ Forall (fun r => In r charset) code /\
        exists before rows,
          calls = before ++ [codeRead (Some rows)] /\
          Forall collision before /\ codeInRows code rows = false
    | Err (ErrAttemptsExhausted m) =>
        m = 100 /\ length calls = 100%nat /\ Forall collision calls
    | Err ErrService =>
        exists before, calls = before ++ [codeRead None] /\ Forall collision before
    | Err (ErrWrap InRandom ErrEntropy) => Forall collision calls
    | Err _ => False
    end.
Proof.
  intros H. apply generateAttempts_spec in H. exact H.
Qed.

(** ** The requests of the write paths *)

Lemma valuesUpdate_spec r values st res st' :
  valuesUpdate r values st = (res, st') ->
  cache st' = cache st /\
  exists ok,
    trace (world st') = trace (world st) ++ [CallUpdate r values ok] /\
    res = if ok then Ok tt else Err ErrService.
Proof.
  unfold valuesUpdate. intros H. inversion H; subst. simpl.
  split; [reflexivity|]. exists (nextAck (world st)). auto.
Qed.

Lemma findFirstEmptyRow_spec sheet st res st' :
  findFirstEmptyRow sheet st = (res, st') ->
  cache st' = cache st /\
  exists o,
    trace (world st')
    = trace (world st) ++ [CallGet (RangeFrom sheet cA 2 cA) FormattedValue o] /\
    match res with
    | Ok _ => True
    | Err e => e = ErrWrap (InReadSheet sheet) ErrService
    end.
Proof.
  unfold findFirstEmptyRow, bind, wrap, valuesGet.
  destruct (gets (world st)) as [|[rows|] g]; simpl; intros H.
  - inversion H; subst. simpl. eauto.
  - destruct rows; inversion H; subst; simpl; eauto.
  - inversion H; subst. simpl. eauto.
Qed.

(** The requests of [CreateReferral]: the read of column A, then the write of
    the ledger row; the deal id is marked exactly when the write is
    acknowledged. *)
Lemma CreateReferral_spec ref st res st' :
  CreateReferral ref st = (res, st') ->
  exists o,
    let read := CallGet (RangeFrom Referrals cA 2 cA) FormattedValue o in
    (trace (world st') = trace (world st) ++ [read] /\
       cache st' = cache st /\ (exists e, res = Err e)) \/
    (exists i ok,
       trace (world st')
       = trace (world st) ++
           [read; CallUpdate (RangeRow Referrals cA i cF i) [referralValues ref] ok] /\
       if ok then cache st' = markDealID (rDealID ref) (cache st) /\ res = Ok tt
       else cache st' = cache st /\ exists e, res = Err e).
Proof.
  unfold CreateReferral. intros H. run_inv H.
  - run_inv Hrun; [|discriminate]. inversion Hrun0; subst a0. clear Hrun0.
    apply findFirstEmptyRow_spec in Hrun as (Hc & o & Ht & _).
    exists o. right. exists a. run_inv H.
    + run_inv Hrun; [|discriminate].
      apply valuesUpdate_spec in Hrun as (Hc' & ok & Ht' & Hok).
      destruct ok; [|discriminate]. exists true.
      unfold modifyCache in H. inversion H; subst. simpl.
      rewrite Ht', Ht, <- app_assoc. split; [reflexivity|].
      split; [congruence | reflexivity].
    + run_inv H; [discriminate|].
      apply valuesUpdate_spec in H as (Hc' & ok & Ht' & Hok).
      destruct ok; [discriminate|]. exists false.
      rewrite Ht', Ht, <- app_assoc. split; [reflexivity|].
      split; [congruence | eauto].
  - run_inv H; [discriminate|].
    apply findFirstEmptyRow_spec in H as (Hc & o & Ht & _).
    exists o. left. eauto.
Qed.

(** The requests of [UpdateReferrer]: the read of the sheet, then, when the
    referrer's row is found, the write of that row. *)
Lemma UpdateReferrer_spec ref st res st' :
  UpdateReferrer ref st = (res, st') ->
  exists o,
    let read := CallGet (RangeFrom Referrers cA 2 cG) FormattedValue o in
    (trace (world st') = trace (world st) ++ [read] /\
       cache st' = cache st /\ (exists e, res = Err e)) \/
    (exists i ok,
       trace (world st')
       = trace (world st) ++
           [read; CallUpdate (RangeRow Referrers cA i cG i) [referrerValues ref] ok] /\
       if ok then cache st' = upsertReferrer ref (cache st) /\ res = Ok tt
       else cache st' = cache st /\ exists e, res = Err e).
Proof.
  unfold UpdateReferrer. intros H. run_inv H.
  - run_inv Hrun; [|discriminate]. inversion Hrun0; subst a0. clear Hrun0.
    assert (Hget : cache st0 = cache st /\
              exists o, trace (world st0)
                        = trace (world st) ++
                            [CallGet (RangeFrom Referrers cA 2 cG) FormattedValue o]).
    { unfold valuesGet in Hrun. inversion Hrun; subst. simpl. eauto. }
    destruct Hget as (Hc & o & Ht). exists o.
    destruct (findReferrerRow (ID ref) 0 a) as [i|].
    + right. exists i. run_inv H.
      * run_inv Hrun0; [|discriminate].
        apply valuesUpdate_spec in Hrun0 as (Hc' & ok & Ht' & Hok).
        destruct ok; [|discriminate]. exists true.
        unfold modifyCache in H. inversion H; subst. simpl.
        rewrite Ht', Ht, <- app_assoc. split; [reflexivity|].
        split; [congruence | reflexivity].
      * run_inv H; [discriminate|].
        apply valuesUpdate_spec in H as (Hc' & ok & Ht' & Hok).
        destruct ok; [discriminate|]. exists false.
        rewrite Ht', Ht, <- app_assoc. split; [reflexivity|].
        split; [congruence | eauto].
    + left. inversion H; subst. eauto.
  - run_inv H; [discriminate|].
    unfold valuesGet in H. inversion H; subst. simpl.
    eexists. left. eauto.
Qed.

(** ** The requests of [processWithdrawal] *)

Lemma processWithdrawal_spec w st res st' :
  processWithdrawal w st = (res, st') ->
  st' = st /\ res = Ok tt \/
  exists inv ref o1,
    let bonus := (Profit w * bonusRate)%float in
    let referral :=
      mkReferral (wUserID w) (RefCode inv) (Profit w) (DealID w) bonus
                 (time_Format (clock (world st))) in
    let read1 := CallGet (RangeFrom Referrals cA 2 cA) FormattedValue o1 in
    (trace (world st') = trace (world st) ++ [read1] /\ cache st' = cache st) \/
    exists i ok1,
      let ledger :=
        CallUpdate (RangeRow Referrals cA i cF i) [referralValues referral] ok1 in
      if ok1 then
        exists o2,
          let read2 := CallGet (RangeFrom Referrers cA 2 cG) FormattedValue o2 in
          (trace (world st') = trace (world st) ++ [read1; ledger; read2] /\
             cache st' = markDealID (DealID w) (cache st)) \/
          exists j ok2,
            trace (world st')
            = trace (world st) ++
                [read1; ledger; read2;
                 CallUpdate (RangeRow Referrers cA j cG j)
                   [referrerValues (addBonus ref bonus)] ok2] /\
            cache st'
            = if ok2
              then upsertReferrer (addBonus ref bonus)
                     (markDealID (DealID w) (cache st))
              else markDealID (DealID w) (cache st)
      else
        trace (world st') = trace (world st) ++ [read1; ledger] /\
        cache st' = cache st.
Proof.
  unfold processWithdrawal. intros H. run_inv H.
  2:{ run_inv H; discriminate. }
  run_inv Hrun; [|discriminate]. rewrite GetInvitedByUserID_run in Hrun.
  inversion Hrun; subst st0. inversion Hrun0; subst a0. clear Hrun Hrun0.
  destruct a as [inv|].
  2:{ left. inversion H; subst. auto. }
  run_inv H.
  2:{ run_inv H; discriminate. }
  run_inv Hrun; [|discriminate]. rewrite GetReferrerByCode_run in Hrun.
  inversion Hrun; subst st0. inversion Hrun0; subst a0. clear Hrun Hrun0.
  destruct a as [ref|].
  2:{ left. inversion H; subst. auto. }
  right. exists inv, ref. run_inv H.
  2:{ discriminate. }
  unfold timeNow in Hrun. inversion Hrun; subst a st0. clear Hrun.
  run_inv H.
  - run_inv Hrun; [|discriminate].
    apply CreateReferral_spec in Hrun as (o1 & Hcase). exists o1.
    destruct Hcase as [(_ & _ & e & He) | (i & ok1 & Ht & Hok)]; [discriminate|].
    destruct ok1; [|destruct Hok as (_ & e & He); discriminate].
    destruct Hok as (Hc & _). right. exists i, true.
    simpl in Hc, Ht. run_inv H.
    + apply UpdateReferrer_spec in H as (o2 & Hcase). exists o2.
      destruct Hcase as [(Ht2 & Hc2 & _) | (j & ok2 & Ht2 & Hok2)].
      * left. rewrite Ht2, Ht, <- app_assoc. split; [reflexivity | congruence].
      * right. exists j, ok2. rewrite Ht2, Ht, <- app_assoc.
        split; [reflexivity|]. destruct ok2; destruct Hok2 as (Hc2 & _); congruence.
    + apply UpdateReferrer_spec in H as (o2 & Hcase). exists o2.
      destruct Hcase as [(Ht2 & Hc2 & _) | (j & ok2 & Ht2 & Hok2)].
      * left. rewrite Ht2, Ht, <- app_assoc. split; [reflexivity | congruence].
      * right. exists j, ok2. rewrite Ht2, Ht, <- app_assoc.
        split; [reflexivity|]. destruct ok2; destruct Hok2 as (Hc2 & _); congruence.
  - run_inv H; [discriminate|].
    apply CreateReferral_spec in H as (o1 & Hcase). exists o1.
    destruct Hcase as [(Ht & Hc & _) | (i & ok1 & Ht & Hok)]; [left; auto|].
    right. exists i, ok1. destruct ok1.
    + destruct Hok as (_ & Hok). discriminate.
    + destruct Hok as (Hc & _). auto.
Qed.

Lemma ledgerDealIDs_app (tr1 tr2 : list Call) :
  ledgerDealIDs (tr1 ++ tr2) = ledgerDealIDs tr1 ++ ledgerDealIDs tr2.
Proof. apply omap_app. Qed.

(** What one [processWithdrawal] adds to the trace and to the known deal ids:
    nothing to the ledger and the set, or the ledger row of its deal id,
    which is then known, followed by at most one credit. *)
Lemma processWithdrawal_effect w st :
  let st' := snd (processWithdrawal w st) in
  exists calls,
    trace (world st') = trace (world st) ++ calls /\
    Forall (bonusCall w) calls /\
    (ledgerDealIDs calls = [] /\
       existingDealIDs (cache st') = existingDealIDs (cache st) /\
       (forall last rest, creditedFrom last (calls ++ rest) = creditedFrom last rest)
     \/
     ledgerDealIDs calls = [DealID w] /\
       existingDealIDs (cache st') = <[DealID w := true]> (existingDealIDs (cache st)) /\
       exists cr,
         cr `sublist_of` [DealID w] /\
         forall last rest,
           creditedFrom last (calls ++ rest)
           = cr ++ creditedFrom (Some (DealID w)) rest).
Proof.
  cbv zeta. destruct (processWithdrawal w st) as [res st'] eqn:Hrun. simpl.
  apply processWithdrawal_spec in Hrun
    as [(-> & _) | (inv & ref & o1 & [(Ht & Hc) | (i & ok1 & Hcase)])].
  - exists []. rewrite app_nil_r. split; [reflexivity|]. split; [constructor|].
    left. auto.
  - eexists. split; [exact Ht|]. split; [repeat constructor|].
    left. rewrite Hc. auto.
  - destruct ok1.
    + destruct Hcase as (o2 & [(Ht & Hc) | (j & ok2 & Ht & Hc)]).
      * eexists. split; [exact Ht|]. split.
        { repeat constructor. simpl. eauto. }
        right. split; [reflexivity|]. split; [rewrite Hc; reflexivity|].
        exists []. split; [apply sublist_nil_l|]. intros last rest. reflexivity.
      * eexists. split; [exact Ht|]. split.
        { repeat constructor; simpl; eauto. }
        right. split; [destruct ok2; reflexivity|].
        split; [destruct ok2; rewrite Hc; reflexivity|].
        destruct ok2.
        -- exists [DealID w]. split; [reflexivity|]. intros last rest. reflexivity.
        -- exists []. split; [apply sublist_nil_l|]. intros last rest. reflexivity.
    + destruct Hcase as (Ht & Hc). eexists. split; [exact Ht|]. split.
      { repeat constructor. simpl. eauto. }
      left. rewrite Hc. split; [reflexivity|]. split; [reflexivity|].
      intros last rest. reflexivity.
Qed.

(** The loop of [syncWithdrawals] over [ws]. *)
Lemma pass_loop_effect ws st :
  let st' := fold_left (fun s w => snd (processWithdrawal w s)) ws st in
  exists calls,
    trace (world st') = trace (world st) ++ calls /\
    Forall (fun c => exists w, w ∈ ws /\ bonusCall w c) calls /\
    ledgerDealIDs calls `sublist_of` map DealID ws /\
    (forall d, d ∈ ledgerDealIDs calls ->
               existingDealIDs (cache st') !! d = Some true) /\
    (forall d, existingDealIDs (cache st) !! d = Some true ->
               existingDealIDs (cache st') !! d = Some true) /\
    exists cr,
      cr `sublist_of` ledgerDealIDs calls /\
      forall last rest, exists last',
        creditedFrom last (calls ++ rest) = cr ++ creditedFrom last' rest.
Proof.
  cbv zeta. revert st. induction ws as [|w ws IH]; intros st; simpl.
  - exists []. rewrite app_nil_r. split; [reflexivity|]. split; [constructor|].
    split; [constructor|]. split; [intros d Hd; inversion Hd|]. split; [auto|].
    exists []. split; [constructor|]. intros last rest. exists last. reflexivity.
  - destruct (processWithdrawal_effect w st) as (calls1 & Ht1 & Hb1 & Hcase).
    cbv zeta in Ht1, Hcase.
    set (st1 := snd (processWithdrawal w st)) in *.
    destruct (IH st1) as (calls2 & Ht2 & Hb2 & Hsub2 & Hknown2 & Hmono2 & cr2 & Hcr2 & Hcred2).
    exists (calls1 ++ calls2).
    split. { rewrite Ht2, Ht1, <- app_assoc. reflexivity. }
    split.
    { apply Forall_app. split.
      - eapply Forall_impl; [exact Hb1|]. intros c Hc. exists w. split; [left|exact Hc].
      - eapply Forall_impl; [exact Hb2|]. intros c (w' & Hw' & Hc).
        exists w'. split; [right; exact Hw' | exact Hc]. }
    rewrite ledgerDealIDs_app.
    destruct Hcase as [(Hl1 & He1 & Hcred1) | (Hl1 & He1 & cr1 & Hcr1 & Hcred1)];
      rewrite Hl1.
    + split. { simpl. apply sublist_cons. exact Hsub2. }
      split. { simpl. exact Hknown2. }
      split. { intros d Hd. apply Hmono2. rewrite He1. exact Hd. }
      exists cr2. split; [exact Hcr2|]. intros last rest.
      rewrite <- app_assoc, Hcred1. apply Hcred2.
    + split. { simpl. apply sublist_skip. exact Hsub2. }
      split.
      { intros d Hd. simpl in Hd. apply elem_of_cons in Hd as [-> | Hd].
        - apply Hmono2. rewrite He1. apply lookup_insert_eq.
        - apply Hknown2. exact Hd. }
      split.
      { intros d Hd. apply Hmono2. rewrite He1, lookup_insert.
        case_decide; [reflexivity | exact Hd]. }
      exists (cr1 ++ cr2). split.
      { apply (sublist_app cr1 [DealID w] cr2 _ Hcr1 Hcr2). }
      intros last rest. rewrite <- app_assoc, Hcred1.
      destruct (Hcred2 (Some (DealID w)) rest) as (last' & ->).
      exists last'. rewrite app_assoc. reflexivity.
Qed.

Lemma GetNewWithdrawals_run st :
  let o := match gets (world st) with o :: _ => o | [] => None end in
  let read := CallGet (RangeFrom Withdrawals cA 2 cD) UnformattedValue o in
  GetNewWithdrawals st
  = (match o with
     | Some rows => Ok (omap (parseWithdrawalRow (existingDealIDs (cache st))) rows)
     | None => Err (ErrWrap (InReadSheet Withdrawals) ErrService)
     end,
     mkState (cache st)
       (mkWorld (tail (gets (world st))) (acks (world st)) (rands (world st))
                (clock (world st)) (trace (world st) ++ [read]))).
Proof.
  cbv zeta. unfold GetNewWithdrawals, GetExistingDealIDs, bind, wrap, valuesGet,
    getCache, ret. simpl.
  destruct (gets (world st)) as [|[rows|] g]; reflexivity.
Qed.

(** ** The profit filter *)

Lemma parseWithdrawalRow_Some existing (row : Row) w :
  parseWithdrawalRow existing row = Some w ->
  DealID w <> [] /\
  default false (existing !! DealID w) = false /\
  (Profit w <=? 0)%float = false.
Proof.
  unfold parseWithdrawalRow. intros H.
  destruct row as [|c0 [|c1 rest]]; try discriminate.
  destruct (bool_decide (getStringValue c0 = [])) eqn:Hid; [discriminate|].
  apply bool_decide_eq_false_1 in Hid.
  destruct (default false (existing !! getStringValue c0)) eqn:Hnew; [discriminate|].
  destruct (parseUserID c1); [|discriminate].
  destruct (profitCell _); [|discriminate].
  destruct (_ <=? _)%float eqn:Hpos; [discriminate|].
  inversion H; subst. simpl. auto.
Qed.

Lemma parseWithdrawalRow_nonpositive existing (row : Row) cell :
  profitCell row = Some cell -> (getFloatValue cell <=? 0)%float = true ->
  parseWithdrawalRow existing row = None.
Proof.
  intros Hcell Hle. unfold parseWithdrawalRow.
  destruct row as [|c0 [|c1 rest]]; try reflexivity.
  rewrite Hcell, Hle. repeat case_match; reflexivity.
Qed.

Lemma GetNewWithdrawals_positive st ws st' :
  GetNewWithdrawals st = (Ok ws, st') ->
  Forall (fun w => (Profit w <=? 0)%float = false) ws.
Proof.
  rewrite GetNewWithdrawals_run. cbv zeta.
  destruct (match gets (world st) with o :: _ => o | [] => None end)
    as [rows|]; [|discriminate].
  intros H. inversion H; subst. apply Forall_forall. intros w Hw.
  apply list_elem_of_omap in Hw as (row & _ & Hrow).
  apply parseWithdrawalRow_Some in Hrow. tauto.
Qed.

(** ** What two passes write at most *)

(** Knowing more deal ids only removes withdrawals. *)
Lemma parseWithdrawalRow_mono e1 e2 (row : Row) w :
  (forall d, e1 !! d = Some true -> e2 !! d = Some true) ->
  parseWithdrawalRow e2 row = Some w -> parseWithdrawalRow e1 row = Some w.
Proof.
  intros Hmono. unfold parseWithdrawalRow.
  destruct row as [|c0 [|c1 rest]]; try discriminate.
  destruct (bool_decide (getStringValue c0 = [])); [discriminate|].
  destruct (default false (e2 !! getStringValue c0)) eqn:H2; [discriminate|].
  destruct (e1 !! getStringValue c0) as [[|]|] eqn:H1; simpl; auto.
  apply Hmono in H1. rewrite H1 in H2. discriminate.
Qed.

Lemma omap_parse_sublist e1 e2 (rows : list (list Cell)) :
  (forall d, e1 !! d = Some true -> e2 !! d = Some true) ->
  omap (parseWithdrawalRow e2) rows `sublist_of` omap (parseWithdrawalRow e1) rows.
Proof.
  intros Hmono. induction rows as [|row rows IH]; simpl; [constructor|].
  destruct (parseWithdrawalRow e2 row) as [w|] eqn:H2.
  - rewrite (parseWithdrawalRow_mono e1 e2 row w Hmono H2).
    apply sublist_skip. exact IH.
  - destruct (parseWithdrawalRow e1 row); [apply sublist_cons|]; exact IH.
Qed.

Lemma map_sublist {A B} (f : A -> B) (l1 l2 : list A) :
  l1 `sublist_of` l2 -> map f l1 `sublist_of` map f l2.
Proof. induction 1; simpl; constructor; assumption. Qed.

(** One pass from a state whose next read returns [rows]. *)
Lemma syncWithdrawals_effect st rows g :
  gets (world st) = Some rows :: g ->
  let ws := omap (parseWithdrawalRow (existingDealIDs (cache st))) rows in
  let st' := syncWithdrawals st in
  exists read calls,
    trace (world st') = trace (world st) ++ read :: calls /\
    isWrite read = false /\
    ledgerDealIDs calls `sublist_of` map DealID ws /\
    (forall d, d ∈ ledgerDealIDs calls ->
               existingDealIDs (cache st') !! d = Some true) /\
    (forall d, existingDealIDs (cache st) !! d = Some true ->
               existingDealIDs (cache st') !! d = Some true) /\
    exists cr,
      cr `sublist_of` ledgerDealIDs calls /\
      forall last rest, exists last',
        creditedFrom last (calls ++ rest) = cr ++ creditedFrom last' rest.
Proof.
  intros Hg. cbv zeta. unfold syncWithdrawals.
  rewrite GetNewWithdrawals_run. cbv zeta. rewrite Hg.
  match goal with
  | |- context [fold_left _ ?ws ?st0] =>
      destruct (pass_loop_effect ws st0)
        as (calls & Ht & _ & Hsub & Hknown & Hmono & cr & Hcr & Hcred)
  end.
  cbv zeta in Ht, Hknown, Hmono. eexists. exists calls. split.
  { rewrite Ht. simpl. rewrite <- app_assoc. reflexivity. }
  split; [reflexivity|]. split; [exact Hsub|]. split; [exact Hknown|].
  split; [exact Hmono|]. exists cr. auto.
Qed.

(** Whatever the service does and whoever is invited: take two consecutive
    passes whose reads of "Выводы" return the same rows, the withdrawals of
    the first pass having pairwise distinct deal ids.  Every deal id whose
    ledger row was written in the first pass is in the known-deal-id set
    afterwards, and no withdrawal of the second pass carries such a deal id;
    over both passes at most one ledger row is written per deal id, and at
    most one credit to a referrer row, each credit following the ledger row
    of its deal id. *)
Lemma second_pass_skips_ledgered_deals st rows g1 g2 :
  gets (world st) = Some rows :: g1 ->
  gets (world (syncWithdrawals st)) = Some rows :: g2 ->
  NoDup (map DealID
           (omap (parseWithdrawalRow (existingDealIDs (cache st))) rows)) ->
  let st1 := syncWithdrawals st in
  let st2 := syncWithdrawals st1 in
  exists calls1 calls2 ws2,
    trace (world st1) = trace (world st) ++ calls1 /\
    trace (world st2) = trace (world st1) ++ calls2 /\
    fst (GetNewWithdrawals st1) = Ok ws2 /\
    (forall d, d ∈ ledgerDealIDs calls1 ->
               existingDealIDs (cache st1) !! d = Some true /\
               d ∉ map DealID ws2) /\
    NoDup (ledgerDealIDs (calls1 ++ calls2)) /\
    NoDup (creditedDealIDs (calls1 ++ calls2)) /\
    creditedDealIDs (calls1 ++ calls2) ⊆ ledgerDealIDs (calls1 ++ calls2).
Proof.
  intros Hg1 Hg2 Hnodup. cbv zeta.
  destruct (syncWithdrawals_effect st rows g1 Hg1)
    as (read1 & calls1 & Ht1 & Hr1 & Hsub1 & Hknown1 & Hmono1 & cr1 & Hcr1 & Hcred1).
  cbv zeta in *. set (st1 := syncWithdrawals st) in *.
  destruct (syncWithdrawals_effect st1 rows g2 Hg2)
    as (read2 & calls2 & Ht2 & Hr2 & Hsub2 & Hknown2 & Hmono2 & cr2 & Hcr2 & Hcred2).
  cbv zeta in *. set (st2 := syncWithdrawals st1) in *.
  set (ws1 := omap (parseWithdrawalRow (existingDealIDs (cache st))) rows) in *.
  set (ws2 := omap (parseWithdrawalRow (existingDealIDs (cache st1))) rows) in *.
  assert (Hws : ws2 `sublist_of` ws1) by (apply omap_parse_sublist; exact Hmono1).
  assert (Hfresh : forall d, d ∈ map DealID ws2 ->
                     existingDealIDs (cache st1) !! d <> Some true).
  { intros d Hd. apply list_elem_of_fmap in Hd as (w & -> & Hw).
    apply list_elem_of_omap in Hw as (row & _ & Hrow).
    apply parseWithdrawalRow_Some in Hrow as (_ & Hnew & _).
    intros Hk. rewrite Hk in Hnew. discriminate. }
  assert (Hl1 : ledgerDealIDs (read1 :: calls1) = ledgerDealIDs calls1).
  { destruct read1; try discriminate. reflexivity. }
  assert (Hl2 : ledgerDealIDs (read2 :: calls2) = ledgerDealIDs calls2).
  { destruct read2; try discriminate. reflexivity. }
  assert (Hledger : NoDup (ledgerDealIDs calls1 ++ ledgerDealIDs calls2)).
  { apply NoDup_app. split; [|split].
    - eapply sublist_NoDup; [exact Hnodup | exact Hsub1].
    - intros d Hd1 Hd2. apply (Hfresh d).
      + eapply sublist_subseteq; [exact Hsub2 | exact Hd2].
      + apply Hknown1. exact Hd1.
    - eapply sublist_NoDup; [|exact Hsub2].
      eapply sublist_NoDup; [exact Hnodup|]. apply map_sublist. exact Hws. }
  assert (Hcredit : creditedDealIDs ((read1 :: calls1) ++ read2 :: calls2)
                    = cr1 ++ cr2).
  { unfold creditedDealIDs. destruct read1; try discriminate. simpl.
    destruct (Hcred1 None (read2 :: calls2)) as (last1 & ->).
    destruct read2; try discriminate. simpl.
    destruct (Hcred2 last1 []) as (last2 & Hc2). rewrite app_nil_r in Hc2.
    rewrite Hc2. destruct last1; simpl; rewrite app_nil_r; reflexivity. }
  exists (read1 :: calls1), (read2 :: calls2), ws2.
  split; [exact Ht1|]. split; [exact Ht2|].
  split. { rewrite GetNewWithdrawals_run. cbv zeta. rewrite Hg2. reflexivity. }
  split.
  { intros d Hd. rewrite Hl1 in Hd. split; [apply Hknown1; exact Hd|].
    intros Hin. apply (Hfresh d Hin). apply Hknown1. exact Hd. }
  rewrite ledgerDealIDs_app, Hl1, Hl2, Hcredit.
  split; [exact Hledger|].
  assert (Hsub : cr1 ++ cr2 `sublist_of` ledgerDealIDs calls1 ++ ledgerDealIDs calls2)
    by (apply sublist_app; assumption).
  split; [eapply sublist_NoDup; eassumption|].
  apply sublist_subseteq. exact Hsub.
Qed.

(** ** [CreateReferrer] and the cache *)

Lemma keepsCache_bind {A B} (m : M A) (k : A -> M B) :
  keepsCache m -> (forall a, keepsCache (k a)) -> keepsCache (bind m k).
Proof.
  intros Hm Hk st r st' H. apply bind_inv in H as [(a & st1 & H1 & H2) | (e & H1 & _)].
  - rewrite (Hk a _ _ _ H2). eapply Hm, H1.
  - eapply Hm, H1.
Qed.

Lemma keepsCache_wrap {A} ctx (m : M A) : keepsCache m -> keepsCache (wrap ctx m).
Proof.
  intros Hm st r st' H. apply wrap_inv in H as [(a & H & _) | (e & H & _)];
    eapply Hm, H.
Qed.

Lemma keepsCache_ret {A} (a : A) : keepsCache (ret a).
Proof. intros st r st' H. inversion H. reflexivity. Qed.

Lemma keepsCache_generateUniqueCode : keepsCache generateUniqueCode.
Proof. intros st r st' H. apply generateAttempts_spec in H. tauto. Qed.

(** X1. [CreateReferrer] never writes the cache, whatever its outcome: unlike
    [UpdateReferrer], [CreateInvited] and [CreateReferral] it has no cache
    update after the row is written, so the new referrer is found only after
    the next reload. *)
Theorem CreateReferrer_leaves_cache userID username st :
  cache (snd (CreateReferrer userID username st)) = cache st.
Proof.
  destruct (CreateReferrer userID username st) as [res st'] eqn:H. simpl.
  revert st res st' H. change (keepsCache (CreateReferrer userID username)).
  unfold CreateReferrer.
  apply keepsCache_bind; [apply keepsCache_wrap, keepsCache_generateUniqueCode|].
  intros code. apply keepsCache_bind.
  { apply keepsCache_wrap. intros st r st' H. eapply findFirstEmptyRow_cache, H. }
  intros rowIndex. apply keepsCache_bind; [|intros _; apply keepsCache_ret].
  apply keepsCache_wrap. intros st r st' H. eapply valuesUpdate_cache, H.
Qed.

(** ** What a successful reload puts in the cache *)

Lemma last_cons_alt {A} (x : A) (l : list A) :
  last (x :: l) = match last l with Some y => Some y | None => Some x end.
Proof.
  revert x. induction l as [|a l IH]; intros x; [reflexivity|].
  change (last (x :: a :: l)) with (last (a :: l)).
  rewrite (IH a). destruct (last l); reflexivity.
Qed.

(** Inserting a list of items under their keys: the last item with a given
    key is the one found. *)
Lemma fold_insert_last {K V} `{Countable K} (key : V -> option K) (items : list V)
    (m : gmap K V) (k : K) :
  fold_left (fun m v => match key v with Some k' => <[k' := v]> m | None => m end)
            items m !! k
  = match last (filter (fun v => key v = Some k) items) with
    | Some v => Some v
    | None => m !! k
    end.
Proof.
  revert m. induction items as [|v items IH]; intros m; simpl; [reflexivity|].
  rewrite IH, filter_cons. clear IH.
  destruct (decide (key v = Some k)) as [Hk|Hk].
  - rewrite Hk, lookup_insert_eq, last_cons_alt.
    destruct (last (filter _ items)); reflexivity.
  - destruct (last (filter _ items)); [reflexivity|].
    destruct (key v) as [k'|]; [|reflexivity].
    rewrite lookup_insert_ne; [reflexivity|]. congruence.
Qed.

Lemma fold_indexReferrerRow_maps (rows : list (list Cell)) c :
  let refs := omap parseReferrerRow rows in
  referrersByID (fold_left indexReferrerRow rows c)
  = fold_left (fun m v => match Some (ID v) with
                          | Some k => <[k := v]> m | None => m end)
      refs (referrersByID c) /\
  referrersByCode (fold_left indexReferrerRow rows c)
  = fold_left (fun m v => match codeKey v with
                          | Some k => <[k := v]> m | None => m end)
      refs (referrersByCode c).
Proof.
  cbv zeta. revert c. induction rows as [|row rows IH]; intros c; simpl; [auto|].
  destruct (IH (indexReferrerRow c row)) as [-> ->].
  unfold indexReferrerRow. destruct row as [|c0 cells]; [auto|].
  destruct (parseReferrerRow (c0 :: cells)) as [ref|]; [|auto].
  simpl. unfold codeKey. destruct (bool_decide (Code ref = [])); auto.
Qed.

Lemma indexInvitedRow_parse c (row : Row) :
  indexInvitedRow c row
  = match parseInvitedRow row with
    | Some inv => upsertInvited inv c
    | None => c
    end.
Proof.
  unfold indexInvitedRow, parseInvitedRow.
  destruct row as [|c0 [|c1 rest]]; try reflexivity.
  destruct c0; try reflexivity. destruct (strconv_ParseInt s); reflexivity.
Qed.

Lemma fold_indexInvitedRow_map (rows : list (list Cell)) c :
  invitedByUserID (fold_left indexInvitedRow rows c)
  = fold_left (fun m v => match Some (UserID v) with
                          | Some k => <[k := v]> m | None => m end)
      (omap parseInvitedRow rows) (invitedByUserID c).
Proof.
  revert c. induction rows as [|row rows IH]; intros c; simpl; [reflexivity|].
  rewrite IH, indexInvitedRow_parse.
  destruct (parseInvitedRow row); reflexivity.
Qed.

Lemma indexDealIDRow_parse c (row : Row) :
  indexDealIDRow c row
  = match dealIDOfRow row with
    | Some d => markDealID d c
    | None => c
    end.
Proof.
  unfold indexDealIDRow, dealIDOfRow. destruct row as [|c0 rest]; [reflexivity|].
  destruct (bool_decide _); reflexivity.
Qed.

Lemma fold_indexDealIDRow_frame (rows : list (list Cell)) c :
  referrersByID (fold_left indexDealIDRow rows c) = referrersByID c /\
  referrersByCode (fold_left indexDealIDRow rows c) = referrersByCode c /\
  invitedByUserID (fold_left indexDealIDRow rows c) = invitedByUserID c /\
  lastCacheUpdate (fold_left indexDealIDRow rows c) = lastCacheUpdate c.
Proof.
  revert c. induction rows as [|row rows IH]; intros c; simpl; [auto|].
  destruct (IH (indexDealIDRow c row)) as (-> & -> & -> & ->).
  rewrite indexDealIDRow_parse. destruct (dealIDOfRow row); auto.
Qed.

Lemma fold_indexDealIDRow_lookup (rows : list (list Cell)) c d :
  existingDealIDs (fold_left indexDealIDRow rows c) !! d
  = if decide (d ∈ omap dealIDOfRow rows) then Some true
    else existingDealIDs c !! d.
Proof.
  revert c. induction rows as [|row rows IH]; intros c.
  - simpl. destruct (decide (d ∈ [])) as [H|H]; [inversion H | reflexivity].
  - change (fold_left indexDealIDRow (row :: rows) c)
      with (fold_left indexDealIDRow rows (indexDealIDRow c row)).
    rewrite IH, indexDealIDRow_parse.
    change (omap dealIDOfRow (row :: rows))
      with (match dealIDOfRow row with
            | Some d' => d' :: omap dealIDOfRow rows
            | None => omap dealIDOfRow rows
            end).
    destruct (dealIDOfRow row) as [d'|]; [|reflexivity].
    destruct (decide (d ∈ omap dealIDOfRow rows)) as [Hin|Hin].
    + destruct (decide (d ∈ d' :: omap dealIDOfRow rows)) as [_|Hn];
        [reflexivity|]. exfalso. apply Hn. right. exact Hin.
    + simpl. rewrite lookup_insert. destruct (decide (d' = d)) as [->|Hne].
      * destruct (decide (d ∈ d :: omap dealIDOfRow rows)) as [_|Hn];
          [reflexivity|]. exfalso. apply Hn. left.
      * destruct (decide (d ∈ d' :: omap dealIDOfRow rows)) as [Hy|_];
          [|reflexivity]. apply elem_of_cons in Hy as [Hy|Hy]; congruence.
Qed.

(** X2. After a successful [loadReferrersCache] the referrer found under an
    id is the one parsed from the last row of the sheet with that id, and the
    referrer found under a code is the one parsed from the last row whose
    non-empty code has the same normal form; an id or code no row carries is
    not found, whatever the cache held before.  The other maps are
    untouched. *)
Theorem loadReferrersCache_last_row_wins st st' :
  loadReferrersCache st = (Ok tt, st') ->
  exists rows g,
    gets (world st) = Some rows :: g /\
    (forall id,
       fst (GetReferrerByID id st')
       = Ok (last (filter (fun r => ID r = id) (omap parseReferrerRow rows)))) /\
    (forall code,
       fst (GetReferrerByCode code st')
       = Ok (last (filter (fun r => codeKey r = Some (normalizedCode code))
                          (omap parseReferrerRow rows)))) /\
    invitedByUserID (cache st') = invitedByUserID (cache st) /\
    existingDealIDs (cache st') = existingDealIDs (cache st).
Proof.
  intros H. apply loadReferrersCache_cache in H as (rows & g & Hg & Hc).
  exists rows, g. split; [exact Hg|].
  destruct (fold_indexReferrerRow_maps rows (resetReferrers (cache st)))
    as [Hid Hcode]. cbv zeta in Hid, Hcode.
  destruct (fold_indexReferrerRow_frame rows (resetReferrers (cache st)))
    as (Hinv & Hdeal & _).
  rewrite <- Hc in Hid, Hcode, Hinv, Hdeal.
  split; [|split; [|split]].
  - intros id. rewrite GetReferrerByID_run. cbn [fst].
    rewrite Hid, (fold_insert_last (fun v => Some (ID v))).
    cbn [referrersByID resetReferrers]. rewrite lookup_empty.
    rewrite (list_filter_iff (fun v => Some (ID v) = Some id) (fun r => ID r = id)).
    + destruct (last _); reflexivity.
    + intros r. split; congruence.
  - intros code. rewrite GetReferrerByCode_run. cbn [fst].
    rewrite Hcode, fold_insert_last.
    cbn [referrersByCode resetReferrers]. rewrite lookup_empty.
    destruct (last _); reflexivity.
  - exact Hinv.
  - exact Hdeal.
Qed.

(** X3. After a successful [loadInvitedCache] the binding found for a user
    id is the one read from the last row of at least two cells whose first
    cell gives that id (a text that parses as an integer, or a number); a
    user no such row names has no binding, whatever the cache held before.
    The other maps are untouched. *)
Theorem loadInvitedCache_last_row_wins st st' :
  loadInvitedCache st = (Ok tt, st') ->
  exists rows g,
    gets (world st) = Some rows :: g /\
    (forall userID,
       fst (GetInvitedByUserID userID st')
       = Ok (last (filter (fun i => UserID i = userID)
                          (omap parseInvitedRow rows)))) /\
    referrersByID (cache st') = referrersByID (cache st) /\
    referrersByCode (cache st') = referrersByCode (cache st) /\
    existingDealIDs (cache st') = existingDealIDs (cache st).
Proof.
  intros H. apply loadInvitedCache_cache in H as (rows & g & Hg & Hc).
  exists rows, g. split; [exact Hg|].
  pose proof (fold_indexInvitedRow_map rows (resetInvited (cache st))) as Hmap.
  destruct (fold_indexInvitedRow_frame rows (resetInvited (cache st)))
    as (Hid & Hcode & Hdeal & _).
  rewrite <- Hc in Hmap, Hid, Hcode, Hdeal.
  split; [|auto].
  intros userID. rewrite GetInvitedByUserID_run. cbn [fst].
  rewrite Hmap, (fold_insert_last (fun v => Some (UserID v))).
  cbn [invitedByUserID resetInvited]. rewrite lookup_empty.
  rewrite (list_filter_iff (fun v => Some (UserID v) = Some userID)
             (fun i => UserID i = userID)).
  - destruct (last _); reflexivity.
  - intros i. split; congruence.
Qed.

(** X4. After a successful [loadDealIDsCache] a deal id is known exactly
    when it is the trimmed, non-empty text of the first cell of some row
    read from column D of "Рефералы"; ids known before and absent from the
    sheet are forgotten.  The other maps are untouched. *)
Theorem loadDealIDsCache_known_iff_read st st' :
  loadDealIDsCache st = (Ok tt, st') ->
  exists rows g,
    gets (world st) = Some rows :: g /\
    (forall d,
       existingDealIDs (cache st') !! d
       = if decide (d ∈ omap dealIDOfRow rows) then Some true else None) /\
    referrersByID (cache st') = referrersByID (cache st) /\
    referrersByCode (cache st') = referrersByCode (cache st) /\
    invitedByUserID (cache st') = invitedByUserID (cache st).
Proof.
  intros H. apply loadDealIDsCache_cache in H as (rows & g & Hg & Hc).
  exists rows, g. split; [exact Hg|].
  destruct (fold_indexDealIDRow_frame rows (resetDealIDs (cache st)))
    as (Hid & Hcode & Hinv & _).
  rewrite <- Hc in Hid, Hcode, Hinv.
  split; [|auto].
  intros d. rewrite Hc, fold_indexDealIDRow_lookup. simpl.
  rewrite lookup_empty. reflexivity.
Qed.

Lemma Cache_eq (c1 c2 : Cache) :
  referrersByID c1 = referrersByID c2 ->
  referrersByCode c1 = referrersByCode c2 ->
  invitedByUserID c1 = invitedByUserID c2 ->
  existingDealIDs c1 = existingDealIDs c2 ->
  lastCacheUpdate c1 = lastCacheUpdate c2 ->
  c1 = c2.
Proof. destruct c1, c2. simpl. intros. subst. reflexivity. Qed.

(** The cache a reload builds from the rows of its three reads. *)
Lemma LoadCache_run st refRows invRows dealRows g :
  gets (world st) = Some refRows :: Some invRows :: Some dealRows :: g ->
  LoadCache st
  = (Ok tt,
     mkState
       (setLastCacheUpdate (clock (world st))
          (fold_left indexDealIDRow dealRows
             (resetDealIDs
                (fold_left indexInvitedRow invRows
                   (resetInvited
                      (fold_left indexReferrerRow refRows
                         (resetReferrers (cache st))))))))
       (mkWorld g (acks (world st)) (rands (world st)) (clock (world st))
          (trace (world st) ++
             [CallGet (RangeFrom Referrers cA 2 cG) UnformattedValue (Some refRows);
              CallGet (RangeFrom InvitedUsers cA 2 cB) FormattedValue (Some invRows);
              CallGet (RangeFrom Referrals cD 2 cD) FormattedValue (Some dealRows)]))).
Proof.
  intros Hg. unfold LoadCache, loadReferrersCache, loadInvitedCache,
    loadDealIDsCache, bind, wrap, valuesGet, modifyCache, timeNow, record.
  simpl. rewrite Hg. simpl. rewrite <- !app_assoc. reflexivity.
Qed.

Lemma LoadCache_ok_reads st st' :
  LoadCache st = (Ok tt, st') ->
  exists refRows invRows dealRows g,
    gets (world st) = Some refRows :: Some invRows :: Some dealRows :: g.
Proof.
  unfold LoadCache, loadReferrersCache, loadInvitedCache,
    loadDealIDsCache, bind, wrap, valuesGet, modifyCache, timeNow.
  simpl. destruct (gets (world st)) as [|[r1|] [|[r2|] [|[r3|] g]]]; simpl;
    try discriminate. eauto.
Qed.

Lemma loaded_cache_independent (refRows invRows dealRows : list (list Cell)) t c1 c2 :
  setLastCacheUpdate t
    (fold_left indexDealIDRow dealRows
       (resetDealIDs
          (fold_left indexInvitedRow invRows
             (resetInvited
                (fold_left indexReferrerRow refRows (resetReferrers c1))))))
  = setLastCacheUpdate t
      (fold_left indexDealIDRow dealRows
         (resetDealIDs
            (fold_left indexInvitedRow invRows
               (resetInvited
                  (fold_left indexReferrerRow refRows (resetReferrers c2)))))).
Proof.
  apply Cache_eq; simpl.
  - destruct (fold_indexDealIDRow_frame dealRows
      (resetDealIDs (fold_left indexInvitedRow invRows
         (resetInvited (fold_left indexReferrerRow refRows (resetReferrers c1))))))
      as (-> & _).
    destruct (fold_indexDealIDRow_frame dealRows
      (resetDealIDs (fold_left indexInvitedRow invRows
         (resetInvited (fold_left indexReferrerRow refRows (resetReferrers c2))))))
      as (-> & _). simpl.
    destruct (fold_indexInvitedRow_frame invRows
      (resetInvited (fold_left indexReferrerRow refRows (resetReferrers c1))))
      as (-> & _).
    destruct (fold_indexInvitedRow_frame invRows
      (resetInvited (fold_left indexReferrerRow refRows (resetReferrers c2))))
      as (-> & _). simpl.
    destruct (fold_indexReferrerRow_maps refRows (resetReferrers c1)) as [-> _].
    destruct (fold_indexReferrerRow_maps refRows (resetReferrers c2)) as [-> _].
    reflexivity.
  - destruct (fold_indexDealIDRow_frame dealRows
      (resetDealIDs (fold_left indexInvitedRow invRows
         (resetInvited (fold_left indexReferrerRow refRows (resetReferrers c1))))))
      as (_ & -> & _).
    destruct (fold_indexDealIDRow_frame dealRows
      (resetDealIDs (fold_left indexInvitedRow invRows
         (resetInvited (fold_left indexReferrerRow refRows (resetReferrers c2))))))
      as (_ & -> & _). simpl.
    destruct (fold_indexInvitedRow_frame invRows
      (resetInvited (fold_left indexReferrerRow refRows (resetReferrers c1))))
      as (_ & -> & _).
    destruct (fold_indexInvitedRow_frame invRows
      (resetInvited (fold_left indexReferrerRow refRows (resetReferrers c2))))
      as (_ & -> & _). simpl.
    destruct (fold_indexReferrerRow_maps refRows (resetReferrers c1)) as [_ ->].
    destruct (fold_indexReferrerRow_maps refRows (resetReferrers c2)) as [_ ->].
    reflexivity.
  - destruct (fold_indexDealIDRow_frame dealRows
      (resetDealIDs (fold_left indexInvitedRow invRows
         (resetInvited (fold_left indexReferrerRow refRows (resetReferrers c1))))))
      as (_ & _ & -> & _).
    destruct (fold_indexDealIDRow_frame dealRows
      (resetDealIDs (fold_left indexInvitedRow invRows
         (resetInvited (fold_left indexReferrerRow refRows (resetReferrers c2))))))
      as (_ & _ & -> & _). simpl.
    rewrite !fold_indexInvitedRow_map. reflexivity.
  - apply map_eq. intros d. rewrite !fold_indexDealIDRow_lookup. reflexivity.
  - reflexivity.
Qed.

(** X5. A successful [LoadCache] replaces the whole cache: started on the
    same service from two different caches it ends in the same state, so no
    entry of the previous cache survives a reload unless the sheets still
    carry it.  It succeeds exactly when its three reads succeed, makes those
    three reads and no write, and stamps the cache with the current time. *)
Theorem LoadCache_replaces_cache :
  (forall c1 c2 w st1 st2,
     LoadCache (mkState c1 w) = (Ok tt, st1) ->
     LoadCache (mkState c2 w) = (Ok tt, st2) ->
     st1 = st2) /\
  (forall st,
     (exists st', LoadCache st = (Ok tt, st')) <->
     (exists refRows invRows dealRows g,
        gets (world st) = Some refRows :: Some invRows :: Some dealRows :: g)) /\
  (forall st st',
     LoadCache st = (Ok tt, st') ->
     lastCacheUpdate (cache st') = clock (world st) /\
     exists reads,
       trace (world st') = trace (world st) ++ reads /\
       length reads = 3%nat /\ Forall (fun c => isWrite c = false) reads).
Proof.
  split; [|split].
  - intros c1 c2 w st1 st2 H1 H2.
    destruct (LoadCache_ok_reads _ _ H1) as (r1 & r2 & r3 & g & Hg).
    simpl in Hg.
    rewrite (LoadCache_run (mkState c1 w) r1 r2 r3 g Hg) in H1.
    rewrite (LoadCache_run (mkState c2 w) r1 r2 r3 g Hg) in H2.
    inversion H1; inversion H2; subst. simpl. f_equal.
    apply loaded_cache_independent.
  - intros st. split.
    + intros (st' & H). eapply LoadCache_ok_reads, H.
    + intros (r1 & r2 & r3 & g & Hg). eexists. apply (LoadCache_run st r1 r2 r3 g Hg).
  - intros st st' H.
    destruct (LoadCache_ok_reads _ _ H) as (r1 & r2 & r3 & g & Hg).
    rewrite (LoadCache_run st r1 r2 r3 g Hg) in H. inversion H; subst. simpl.
    split; [reflexivity|]. eexists. split; [reflexivity|].
    split; [reflexivity|]. repeat constructor.
Qed.

(** ** Row positions *)

Lemma scanEmptyRow_first (i : Z) (rows : list (list Cell)) :
  exists k : nat,
    scanEmptyRow i rows = i + Z.of_nat k + 2 /\
    (k <= length rows)%nat /\
    (forall (j : nat) (row : Row),
       (j < k)%nat -> rows !! j = Some row -> rowIsEmpty row = false) /\
    (forall row : Row, rows !! k = Some row -> rowIsEmpty row = true).
Proof.
  revert i. induction rows as [|row rows IH]; intros i.
  - exists 0%nat. simpl. split; [lia|]. split; [lia|].
    split; [intros; lia | intros row H; discriminate].
  - destruct (rowIsEmpty row) eqn:Hrow.
    + exists 0%nat. split.
      { simpl. destruct row as [|c0 cells]; [lia|]. simpl in Hrow.
        rewrite Hrow. lia. }
      split; [simpl; lia|]. split; [intros; lia|].
      intros row' H. simpl in H. inversion H; subst. exact Hrow.
    + destruct (IH (i + 1)) as (k & Hk & Hle & Hbefore & Hat).
      exists (S k). split.
      { simpl. destruct row as [|c0 cells]; [discriminate|]. simpl in Hrow.
        rewrite Hrow, Hk. lia. }
      split; [simpl; lia|]. split.
      * intros [|j] row' Hj Hrow'; simpl in Hrow'.
        -- inversion Hrow'; subst. exact Hrow.
        -- apply (Hbefore j); [lia | exact Hrow'].
      * intros row' H. simpl in H. apply Hat. exact H.
Qed.

(** X6. The row [findFirstEmptyRow] returns is the first free one of the
    column it read: counted from sheet row 2, every row before it has text in
    its first cell, and the row itself is past the end of the rows read or
    has none; so the three create functions, which write at that row, never
    write over a row that showed text in column A in that read. *)
Theorem findFirstEmptyRow_is_first_free sheet st r st' :
  findFirstEmptyRow sheet st = (Ok r, st') ->
  exists rows g (k : nat),
    gets (world st) = Some rows :: g /\
    r = Z.of_nat k + 2 /\
    (k <= length rows)%nat /\
    (forall (j : nat) (row : Row),
       (j < k)%nat -> rows !! j = Some row -> rowIsEmpty row = false) /\
    (forall row : Row, rows !! k = Some row -> rowIsEmpty row = true).
Proof.
  unfold findFirstEmptyRow, bind, wrap, valuesGet.
  destruct (gets (world st)) as [|[rows|] g] eqn:Hg; simpl; try discriminate.
  intros H. exists rows, g.
  assert (Hr : r = scanEmptyRow 0 rows).
  { destruct rows; unfold ret in H; inversion H; reflexivity. }
  destruct (scanEmptyRow_first 0 rows) as (k & Hk & Hrest).
  exists k. split; [reflexivity|]. split; [|exact Hrest].
  rewrite Hr, Hk. lia.
Qed.

(** ** Decimal texts and the row of a referrer *)

Lemma digitVal_digit (d : Z) :
  0 <= d < 10 -> digitVal (Z.to_N (48 + d)) = Some d.
Proof.
  intros Hd. unfold digitVal.
  assert (H48 : (48 <=? Z.to_N (48 + d))%N = true) by (apply N.leb_le; lia).
  assert (H57 : (Z.to_N (48 + d) <=? 57)%N = true) by (apply N.leb_le; lia).
  rewrite H48, H57. simpl. f_equal. rewrite Z2N.id; lia.
Qed.

Lemma digitsOf_parse (fuel : nat) (n : Z) (acc : gostring) :
  0 <= n < 10 ^ Z.of_nat (S fuel) ->
  exists d rest (k : nat),
    0 <= d < 10 /\
    digitsOf (S fuel) n acc = Z.to_N (48 + d) :: rest /\
    forall a, parseDigits a (Z.to_N (48 + d) :: rest)
              = parseDigits (a * 10 ^ Z.of_nat k + n) acc.
Proof.
  revert n acc. induction fuel as [|fuel IH]; intros n acc Hn.
  - assert (Hlt : n < 10) by (change (10 ^ Z.of_nat 1) with 10 in Hn; lia).
    exists n, acc, 1%nat. split; [lia|]. split.
    + simpl. rewrite Z.mod_small by lia.
      destruct (Z.ltb_spec n 10); [reflexivity | lia].
    + intros a. simpl. rewrite digitVal_digit by lia. f_equal.
      change (10 ^ Z.of_nat 1) with 10. lia.
  - change (digitsOf (S (S fuel)) n acc)
      with (let acc' := Z.to_N (48 + n mod 10) :: acc in
            if n <? 10 then acc' else digitsOf (S fuel) (n / 10) acc').
    cbv zeta. destruct (Z.ltb_spec n 10) as [Hlt|Hge].
    + exists n, acc, 1%nat. rewrite Z.mod_small by lia. split; [lia|].
      split; [reflexivity|]. intros a. simpl. rewrite digitVal_digit by lia.
      f_equal. change (10 ^ Z.of_nat 1) with 10. lia.
    + assert (Hdiv : 0 <= n / 10 < 10 ^ Z.of_nat (S fuel)).
      { split; [apply Z.div_pos; lia|].
        apply Z.div_lt_upper_bound; [lia|].
        rewrite (Nat2Z.inj_succ (S fuel)), Z.pow_succ_r in Hn by lia. lia. }
      destruct (IH (n / 10) (Z.to_N (48 + n mod 10) :: acc) Hdiv)
        as (d & rest & k & Hd & Heq & Hparse).
      exists d, rest, (S k). split; [exact Hd|]. split; [exact Heq|].
      intros a. rewrite Hparse. simpl parseDigits.
      rewrite digitVal_digit by (apply Z.mod_pos_bound; lia). f_equal.
      rewrite (Nat2Z.inj_succ k), Z.pow_succ_r by lia.
      pose proof (Z.div_mod n 10). lia.
Qed.

Lemma ParseInt_digits (d : Z) (rest : gostring) :
  0 <= d < 10 ->
  strconv_ParseInt (Z.to_N (48 + d) :: rest)
  = match parseDigits 0 (Z.to_N (48 + d) :: rest) with
    | Some un => if (minInt64 <=? un) && (un <=? maxInt64) then Some un else None
    | None => None
    end.
Proof.
  intros Hd.
  assert (Hcases : d = 0 \/ d = 1 \/ d = 2 \/ d = 3 \/ d = 4 \/ d = 5 \/ d = 6 \/
                   d = 7 \/ d = 8 \/ d = 9) by lia.
  repeat (destruct Hcases as [-> | Hcases]); try subst d; reflexivity.
Qed.

(** [strconv.ParseInt] reads back what [fmt.Sprintf("%d", n)] wrote. *)
Lemma ParseInt_formatInt (n : Z) :
  minInt64 <= n <= maxInt64 -> strconv_ParseInt (formatInt n) = Some n.
Proof.
  intros Hn. unfold formatInt.
  assert (Hbig : 2 ^ 63 < 10 ^ Z.of_nat 20) by reflexivity.
  unfold minInt64, maxInt64 in Hn.
  destruct (Z.ltb_spec n 0) as [Hneg|Hpos].
  - destruct (digitsOf_parse 19 (- n) []) as (d & rest & k & Hd & Heq & Hparse);
      [lia|].
    rewrite Heq. unfold strconv_ParseInt. rewrite (Hparse 0). simpl parseDigits.
    replace (0 * 10 ^ Z.of_nat k + - n) with (- n) by lia.
    rewrite Z.opp_involutive.
    assert (H1 : (minInt64 <=? n) = true) by (apply Z.leb_le; unfold minInt64; lia).
    assert (H2 : (n <=? maxInt64) = true) by (apply Z.leb_le; unfold maxInt64; lia).
    rewrite H1, H2. reflexivity.
  - destruct (digitsOf_parse 19 n []) as (d & rest & k & Hd & Heq & Hparse);
      [lia|].
    rewrite Heq, (ParseInt_digits d rest Hd), (Hparse 0). simpl parseDigits.
    replace (0 * 10 ^ Z.of_nat k + n) with n by lia.
    assert (H1 : (minInt64 <=? n) = true) by (apply Z.leb_le; unfold minInt64; lia).
    assert (H2 : (n <=? maxInt64) = true) by (apply Z.leb_le; unfold maxInt64; lia).
    rewrite H1, H2. reflexivity.
Qed.

Lemma findReferrerRow_cons id i (row : Row) rows :
  findReferrerRow id i (row :: rows)
  = if rowHasID id row then Some (i + 2) else findReferrerRow id (i + 1) rows.
Proof.
  simpl. unfold rowHasID. destruct row as [|c0 cells]; [reflexivity|].
  destruct c0; try reflexivity.
  destruct (strconv_ParseInt s) as [id'|]; [|reflexivity].
  destruct (Z.eqb_spec id' id) as [->|Hne].
  - rewrite bool_decide_eq_true_2; reflexivity.
  - rewrite bool_decide_eq_false_2; [reflexivity | congruence].
Qed.

Lemma findReferrerRow_first id i (rows : list (list Cell)) (k : nat) (row : Row) :
  rows !! k = Some row -> rowHasID id row = true ->
  (forall (j : nat) (row' : Row),
     (j < k)%nat -> rows !! j = Some row' -> rowHasID id row' = false) ->
  findReferrerRow id i rows = Some (i + Z.of_nat k + 2).
Proof.
  revert i k. induction rows as [|r rows IH]; intros i k Hk Hrow Hbefore;
    [rewrite lookup_nil in Hk; discriminate|].
  rewrite findReferrerRow_cons. destruct k as [|k].
  - simpl in Hk. inversion Hk; subst. rewrite Hrow. f_equal. lia.
  - rewrite (Hbefore 0%nat r) by (try lia; reflexivity).
    rewrite (IH (i + 1) k); [f_equal; lia | exact Hk | exact Hrow |].
    intros j row' Hj Hrow'. apply (Hbefore (S j)); [lia | exact Hrow'].
Qed.

Lemma findReferrerRow_none id i (rows : list (list Cell)) :
  (forall row : Row, row ∈ rows -> rowHasID id row = false) ->
  findReferrerRow id i rows = None.
Proof.
  revert i. induction rows as [|r rows IH]; intros i Hall; [reflexivity|].
  rewrite findReferrerRow_cons, (Hall r) by left.
  apply IH. intros row Hrow. apply Hall. right. exact Hrow.
Qed.

(** X7. [UpdateReferrer] writes the referrer over the first row it read
    whose first cell is a text that parses to the referrer's id (sheet row
    k + 2 for index k), whatever rows follow; a row whose first cell is the
    decimal text of an int64 id, as [CreateReferrer] and [UpdateReferrer]
    write it, is such a row.  When no row qualifies (in particular when the
    ids come back as numbers, not texts) it returns the not-found error after
    the one read, writes nothing and leaves the cache alone. *)
Theorem UpdateReferrer_targets_first_row_of_id :
  (forall ref st rows g (k : nat) (row : Row),
     gets (world st) = Some rows :: g ->
     rows !! k = Some row -> rowHasID (ID ref) row = true ->
     (forall (j : nat) (row' : Row),
        (j < k)%nat -> rows !! j = Some row' -> rowHasID (ID ref) row' = false) ->
     trace (world (snd (UpdateReferrer ref st)))
     = trace (world st) ++
         [CallGet (RangeFrom Referrers cA 2 cG) FormattedValue (Some rows);
          CallUpdate (RangeRow Referrers cA (Z.of_nat k + 2) cG (Z.of_nat k + 2))
            [referrerValues ref] (nextAck (world st))]) /\
  (forall id (cells : Row),
     minInt64 <= id <= maxInt64 ->
     rowHasID id (VString (formatInt id) :: cells) = true) /\
  (forall ref st rows g,
     gets (world st) = Some rows :: g ->
     (forall row : Row, row ∈ rows -> rowHasID (ID ref) row = false) ->
     UpdateReferrer ref st
     = (Err ErrReferrerNotFound,
        mkState (cache st)
          (mkWorld g (acks (world st)) (rands (world st)) (clock (world st))
             (trace (world st) ++
                [CallGet (RangeFrom Referrers cA 2 cG) FormattedValue
                   (Some rows)])))).
Proof.
  split; [|split].
  - intros ref st rows g k row Hg Hk Hrow Hbefore.
    unfold UpdateReferrer, bind, wrap, valuesGet. rewrite Hg. simpl.
    rewrite (findReferrerRow_first (ID ref) 0 rows k row Hk Hrow Hbefore).
    unfold valuesUpdate, modifyCache, nextAck, record. simpl.
    rewrite Z.add_0_l.
    destruct (acks (world st)) as [|[|] ?]; simpl; rewrite <- app_assoc;
      reflexivity.
  - intros id cells Hid. unfold rowHasID.
    rewrite ParseInt_formatInt by exact Hid. apply bool_decide_eq_true_2.
    reflexivity.
  - intros ref st rows g Hg Hall.
    unfold UpdateReferrer, bind, wrap, valuesGet. rewrite Hg. simpl.
    rewrite (findReferrerRow_none (ID ref) 0 rows Hall). reflexivity.
Qed.

(** ** The code index stays sound *)

Lemma codeIndexSound_same c1 c2 :
  referrersByCode c2 = referrersByCode c1 -> codeIndexSound c1 -> codeIndexSound c2.
Proof. unfold codeIndexSound. intros ->. auto. Qed.

Lemma upsertReferrer_sound ref c :
  codeIndexSound c -> codeIndexSound (upsertReferrer ref c).
Proof.
  intros Hc k ref'. unfold upsertReferrer. simpl.
  destruct (bool_decide (Code ref = [])) eqn:Hcode; [apply Hc|].
  apply bool_decide_eq_false_1 in Hcode.
  rewrite lookup_insert. case_decide as Hk; [|apply Hc].
  intros H. inversion H; subst. auto.
Qed.

Lemma fold_indexReferrerRow_sound (rows : list (list Cell)) c :
  codeIndexSound c -> codeIndexSound (fold_left indexReferrerRow rows c).
Proof.
  revert c. induction rows as [|row rows IH]; intros c Hc; simpl; [exact Hc|].
  apply IH. unfold indexReferrerRow. destruct row; [exact Hc|].
  destruct (parseReferrerRow _); [|exact Hc]. apply upsertReferrer_sound, Hc.
Qed.

Lemma resetReferrers_sound c : codeIndexSound (resetReferrers c).
Proof. intros k ref H. simpl in H. rewrite lookup_empty in H. discriminate. Qed.

Lemma LoadCache_byCode st res st' :
  LoadCache st = (res, st') ->
  (res <> Ok tt /\ referrersByCode (cache st') = referrersByCode (cache st)) \/
  exists rows,
    referrersByCode (cache st')
    = referrersByCode (fold_left indexReferrerRow rows (resetReferrers (cache st))).
Proof.
  unfold LoadCache, loadReferrersCache, loadInvitedCache,
    loadDealIDsCache, bind, wrap, valuesGet, modifyCache, timeNow, record.
  simpl. destruct (gets (world st)) as [|[r1|] g1]; simpl;
    try (intros H; inversion H; subst; left; split; [discriminate|reflexivity]).
  destruct g1 as [|[r2|] g2]; simpl;
    try (intros H; inversion H; subst; right; exists r1; reflexivity).
  destruct g2 as [|[r3|] g3]; simpl; intros H; inversion H; subst; right;
    exists r1; simpl.
  - destruct (fold_indexInvitedRow_frame r2
                (resetInvited (fold_left indexReferrerRow r1
                                 (resetReferrers (cache st)))))
      as (_ & -> & _). reflexivity.
  - destruct (fold_indexDealIDRow_frame r3
                (resetDealIDs (fold_left indexInvitedRow r2
                   (resetInvited (fold_left indexReferrerRow r1
                                    (resetReferrers (cache st)))))))
      as (_ & -> & _). simpl.
    destruct (fold_indexInvitedRow_frame r2
                (resetInvited (fold_left indexReferrerRow r1
                                 (resetReferrers (cache st)))))
      as (_ & -> & _). reflexivity.
  - destruct (fold_indexInvitedRow_frame r2
                (resetInvited (fold_left indexReferrerRow r1
                                 (resetReferrers (cache st)))))
      as (_ & -> & _). reflexivity.
Qed.

Lemma keepsCache_CreateReferrer userID username :
  keepsCache (CreateReferrer userID username).
Proof.
  unfold CreateReferrer.
  apply keepsCache_bind; [apply keepsCache_wrap, keepsCache_generateUniqueCode|].
  intros code. apply keepsCache_bind.
  { apply keepsCache_wrap. intros st r st' H. eapply findFirstEmptyRow_cache, H. }
  intros rowIndex. apply keepsCache_bind; [|intros _; apply keepsCache_ret].
  apply keepsCache_wrap. intros st r st' H. eapply valuesUpdate_cache, H.
Qed.

Lemma keepsCache_UpdatePendingPayouts : keepsCache UpdatePendingPayouts.
Proof.
  unfold UpdatePendingPayouts. apply keepsCache_bind.
  { apply keepsCache_wrap. intros st r st' H. eapply valuesGet_cache, H. }
  intros rows. destruct rows as [|row rows]; [apply keepsCache_ret|].
  destruct (pendingUpdates 0 (row :: rows)); [apply keepsCache_ret|].
  apply keepsCache_wrap. intros st r st' H.
  unfold valuesBatchUpdate in H. inversion H. reflexivity.
Qed.

Lemma keepsCache_GetNewWithdrawals : keepsCache GetNewWithdrawals.
Proof.
  intros st r st' H. rewrite GetNewWithdrawals_run in H. cbv zeta in H.
  inversion H. reflexivity.
Qed.

Lemma processWithdrawal_sound w st :
  codeIndexSound (cache st) -> codeIndexSound (cache (snd (processWithdrawal w st))).
Proof.
  intros Hc. destruct (processWithdrawal w st) as [res st'] eqn:Hrun. simpl.
  apply processWithdrawal_spec in Hrun
    as [(-> & _) | (inv & ref & o1 & [(_ & ->) | (i & ok1 & Hcase)])];
    try exact Hc.
  destruct ok1.
  - destruct Hcase as (o2 & [(_ & ->) | (j & ok2 & _ & ->)]); [exact Hc|].
    destruct ok2; [apply upsertReferrer_sound|]; exact Hc.
  - destruct Hcase as (_ & ->). exact Hc.
Qed.

Lemma pass_loop_sound ws st :
  codeIndexSound (cache st) ->
  codeIndexSound
    (cache (fold_left (fun s w => snd (processWithdrawal w s)) ws st)).
Proof.
  revert st. induction ws as [|w ws IH]; intros st Hc; simpl; [exact Hc|].
  apply IH, processWithdrawal_sound, Hc.
Qed.

(** X8. The code index is sound in every state the program reaches: it
    holds for the empty cache, every reload that succeeds establishes it
    (one that fails keeps it), and every write path keeps it.  Hence
    [GetReferrerByCode] never returns a referrer whose own code is empty or
    has another normal form than the code asked for. *)
Theorem code_index_stays_sound :
  codeIndexSound emptyCache /\
  (forall st res st',
     LoadCache st = (res, st') ->
     res = Ok tt \/ codeIndexSound (cache st) ->
     codeIndexSound (cache st')) /\
  (forall st,
     codeIndexSound (cache st) ->
     (forall ref, codeIndexSound (cache (snd (UpdateReferrer ref st)))) /\
     (forall userID username,
        codeIndexSound (cache (snd (CreateReferrer userID username st)))) /\
     (forall userID refCode,
        codeIndexSound (cache (snd (CreateInvited userID refCode st)))) /\
     (forall ref, codeIndexSound (cache (snd (CreateReferral ref st)))) /\
     (forall refCode, codeIndexSound (cache (snd (IncrementRefCount refCode st)))) /\
     (forall ref username,
        codeIndexSound (cache (snd (updateUsernameIfChanged ref username st)))) /\
     codeIndexSound (cache (snd (UpdatePendingPayouts st))) /\
     (forall w, codeIndexSound (cache (snd (processWithdrawal w st)))) /\
     codeIndexSound (cache (syncWithdrawals st))) /\
  (forall st code ref,
     codeIndexSound (cache st) ->
     fst (GetReferrerByCode code st) = Ok (Some ref) ->
     Code ref <> [] /\ normalizedCode (Code ref) = normalizedCode code).
Proof.
  assert (Hupd : forall st ref, codeIndexSound (cache st) ->
                   codeIndexSound (cache (snd (UpdateReferrer ref st)))).
  { intros st ref Hc. destruct (UpdateReferrer ref st) as [res st'] eqn:H.
    apply UpdateReferrer_cache in H. simpl. rewrite H.
    destruct res; [apply upsertReferrer_sound|]; exact Hc. }
  split; [|split; [|split]].
  - intros k ref H. simpl in H. rewrite lookup_empty in H. discriminate.
  - intros st res st' H Hpre.
    destruct (LoadCache_byCode st res st' H) as [(Hne & Heq) | (rows & Heq)].
    + destruct Hpre as [-> | Hc]; [contradiction|].
      eapply codeIndexSound_same; [exact Heq | exact Hc].
    + eapply codeIndexSound_same; [exact Heq|].
      apply fold_indexReferrerRow_sound, resetReferrers_sound.
  - intros st Hc.
    split. { intros ref. apply Hupd, Hc. }
    split.
    { intros userID username.
      destruct (CreateReferrer userID username st) as [res st'] eqn:H.
      apply keepsCache_CreateReferrer in H. simpl. rewrite H. exact Hc. }
    split.
    { intros userID refCode.
      destruct (CreateInvited userID refCode st) as [res st'] eqn:H.
      apply CreateInvited_cache in H. simpl. rewrite H.
      destruct res; exact Hc. }
    split.
    { intros ref. destruct (CreateReferral ref st) as [res st'] eqn:H.
      apply CreateReferral_cache in H. simpl. rewrite H.
      destruct res; exact Hc. }
    split.
    { intros refCode. unfold IncrementRefCount. rewrite GetReferrerByCode_run.
      destruct (referrersByCode (cache st) !! normalizedCode refCode) as [ref|];
        [|exact Hc].
      pose proof (Hupd st (withRefCount ref (incrInt (RefCount ref))) Hc) as Hs.
      destruct (UpdateReferrer _ st) as [[u|e] st2]; exact Hs. }
    split.
    { intros ref username. unfold updateUsernameIfChanged.
      destruct (bool_decide (username = [])); [exact Hc|].
      destruct (bool_decide _); [exact Hc|]. apply Hupd, Hc. }
    split.
    { destruct (UpdatePendingPayouts st) as [res st'] eqn:H.
      apply keepsCache_UpdatePendingPayouts in H. simpl. rewrite H. exact Hc. }
    split. { intros w. apply processWithdrawal_sound, Hc. }
    unfold syncWithdrawals.
    destruct (GetNewWithdrawals st) as [[ws|e] st0] eqn:H;
      apply keepsCache_GetNewWithdrawals in H.
    + apply pass_loop_sound. rewrite H. exact Hc.
    + rewrite H. exact Hc.
  - intros st code ref Hc H. rewrite GetReferrerByCode_run in H. simpl in H.
    inversion H as [Hl]. apply Hc in Hl. exact Hl.
Qed.

(** ** [IncrementRefCount] and [updateUsernameIfChanged] *)

(** X9. [IncrementRefCount] of a code no cached referrer answers to returns
    its not-found error without any request and without changing the state.
    Otherwise it writes the referrer found with its count raised by one: when
    that succeeds the referrer is found by id with the new count and its
    other fields as before, and, the code index being sound, also by the
    code that was given; when it fails the error is passed on and the cache
    is as before. *)
Theorem IncrementRefCount_outcomes refCode st err st' :
  IncrementRefCount refCode st = (err, st') ->
  match err with
  | Some (ErrCodeNotFound c) =>
      c = refCode /\ st' = st /\ fst (GetReferrerByCode refCode st) = Ok None
  | Some (ErrPassed e) =>
      cache st' = cache st /\
      exists ref, fst (GetReferrerByCode refCode st) = Ok (Some ref)
  | None =>
      exists ref,
        fst (GetReferrerByCode refCode st) = Ok (Some ref) /\
        let ref' := withRefCount ref (incrInt (RefCount ref)) in
        (RefCount ref < maxInt64 -> RefCount ref' = RefCount ref + 1) /\
        fst (GetReferrerByID (ID ref) st') = Ok (Some ref') /\
        (codeIndexSound (cache st) ->
         fst (GetReferrerByCode refCode st') = Ok (Some ref'))
  end.
Proof.
  unfold IncrementRefCount. rewrite GetReferrerByCode_run.
  destruct (referrersByCode (cache st) !! normalizedCode refCode) as [ref|] eqn:Hl.
  2:{ intros H. inversion H; subst. auto. }
  destruct (UpdateReferrer (withRefCount ref (incrInt (RefCount ref))) st)
    as [[u|e] st2] eqn:Hupd; intros H; inversion H; subst;
    apply UpdateReferrer_cache in Hupd.
  - exists ref. split; [reflexivity|]. cbv zeta. split.
    { intros Hlt. simpl. unfold incrInt.
      destruct (Z.eqb_spec (RefCount ref) maxInt64); [lia | reflexivity]. }
    split.
    { rewrite GetReferrerByID_run, Hupd. unfold upsertReferrer. simpl.
      rewrite lookup_insert_eq. reflexivity. }
    intros Hsound. destruct (Hsound _ _ Hl) as [Hcode Hnorm].
    rewrite GetReferrerByCode_run, Hupd. unfold upsertReferrer. simpl.
    rewrite bool_decide_eq_false_2 by exact Hcode.
    rewrite Hnorm, lookup_insert_eq. reflexivity.
  - split; [exact Hupd|]. exists ref. reflexivity.
Qed.

(** X10. [updateUsernameIfChanged] makes no request and changes nothing when
    the current username is empty or the stored one, trimmed, already is "@"
    followed by it.  Otherwise the referrer the caller holds leaves with the
    new username whether or not the write succeeds, the state is that of
    [UpdateReferrer] on it, and after a successful write the cache holds it.
    For a username with no white space at its end the update settles: a
    second call with the referrer returned (which is also the one cached
    after a successful write) does nothing. *)
Theorem updateUsernameIfChanged_outcomes :
  (forall ref username st,
     username = [] \/ strings_TrimSpace (Username ref) = 64%N :: username ->
     updateUsernameIfChanged ref username st = (ref, st)) /\
  (forall ref username st,
     username <> [] ->
     strings_TrimSpace (Username ref) <> 64%N :: username ->
     let ref' := withUsername ref (64%N :: username) in
     updateUsernameIfChanged ref username st = (ref', snd (UpdateReferrer ref' st)) /\
     (fst (UpdateReferrer ref' st) = Ok tt ->
      fst (GetReferrerByID (ID ref) (snd (UpdateReferrer ref' st)))
      = Ok (Some ref'))) /\
  (forall ref username st,
     strings_TrimSpace (64%N :: username) = 64%N :: username ->
     let (ref1, st1) := updateUsernameIfChanged ref username st in
     updateUsernameIfChanged ref1 username st1 = (ref1, st1)).
Proof.
  split; [|split].
  - intros ref username st [-> | Hsame]; unfold updateUsernameIfChanged.
    + reflexivity.
    + destruct (bool_decide (username = [])); [reflexivity|].
      rewrite bool_decide_eq_true_2 by exact Hsame. reflexivity.
  - intros ref username st Hne Hdiff. cbv zeta. split.
    + unfold updateUsernameIfChanged.
      rewrite bool_decide_eq_false_2 by exact Hne.
      rewrite bool_decide_eq_false_2 by exact Hdiff. reflexivity.
    + intros Hok.
      destruct (UpdateReferrer (withUsername ref (64%N :: username)) st)
        as [res st'] eqn:Hupd. simpl in Hok. subst res.
      apply UpdateReferrer_cache in Hupd. cbn [snd].
      rewrite GetReferrerByID_run, Hupd. unfold upsertReferrer. simpl.
      rewrite lookup_insert_eq. reflexivity.
  - intros ref username st Htrim. unfold updateUsernameIfChanged at 1.
    destruct (bool_decide (username = [])) eqn:He.
    { unfold updateUsernameIfChanged. rewrite He. reflexivity. }
    destruct (bool_decide (strings_TrimSpace (Username ref) = 64%N :: username))
      eqn:Hs.
    { unfold updateUsernameIfChanged. rewrite He, Hs. reflexivity. }
    unfold updateUsernameIfChanged. rewrite He. simpl Username.
    rewrite bool_decide_eq_true_2 by exact Htrim. reflexivity.
Qed.

(** ** The cost and the shape of a generated code *)

Lemma randomCode_draws n st res st' :
  randomCode n st = (res, st') ->
  gets (world st') = gets (world st) /\ acks (world st') = acks (world st) /\
  exists k, (k <= n)%nat /\ rands (world st') = drop k (rands (world st)).
Proof.
  revert st res st'. induction n as [|n IH]; intros st res st' H.
  - inversion H; subst. repeat split. exists 0%nat. split; [lia | reflexivity].
  - rewrite randomCode_S in H. run_inv H.
    + run_inv Hrun; [|discriminate].
      assert (Hw : gets (world st0) = gets (world st) /\
                   acks (world st0) = acks (world st) /\
                   rands (world st0) = drop 1 (rands (world st))).
      { unfold randInt in Hrun.
        destruct (rands (world st)) as [|[d|] l] eqn:Hd; inversion Hrun; subst;
          simpl; rewrite ?Hd; auto. }
      destruct Hw as (Hg & Ha & Hr). run_inv H.
      * apply IH in Hrun1 as (Hg' & Ha' & k & Hk & Hr').
        inversion H; subst. split; [congruence|]. split; [congruence|].
        exists (S k). split; [lia|]. rewrite Hr', Hr.
        rewrite drop_drop. f_equal.
      * apply IH in H as (Hg' & Ha' & k & Hk & Hr').
        split; [congruence|]. split; [congruence|].
        exists (S k). split; [lia|]. rewrite Hr', Hr.
        rewrite drop_drop. f_equal.
    + run_inv H; [discriminate|]. unfold randInt in H.
      destruct (rands (world st)) as [|[d|] l] eqn:Hd; inversion H; subst;
        simpl; rewrite ?Hd; repeat split; exists 1%nat; (split; [lia|]);
        reflexivity.
Qed.

Lemma generateAttempts_bounds n st res st' :
  generateAttempts n st = (res, st') ->
  acks (world st') = acks (world st) /\
  (exists k, (k <= 6 * n)%nat /\ rands (world st') = drop k (rands (world st))) /\
  exists calls,
    trace (world st') = trace (world st) ++ calls /\
    (length calls <= n)%nat /\
    Forall (fun c => isWrite c = false) calls /\
    gets (world st') = drop (length calls) (gets (world st)).
Proof.
  revert st res st'. induction n as [|n IH]; intros st res st' H.
  - inversion H; subst. split; [reflexivity|].
    split; [exists 0%nat; split; [lia | reflexivity]|].
    exists []. rewrite app_nil_r. split; [reflexivity|].
    split; [simpl; lia|]. split; [constructor|]. reflexivity.
  - rewrite generateAttempts_S in H. run_inv H.
    2:{ pose proof (randomCode_spec _ _ _ _ H) as (_ & Ht & _).
        apply randomCode_draws in H as (Hg & Ha & k & Hk & Hr).
        split; [exact Ha|]. unfold codeLength in Hk.
        split; [exists k; split; [lia | exact Hr]|].
        exists []. rewrite app_nil_r. split; [congruence|].
        split; [simpl; lia|]. split; [constructor|]. simpl. exact Hg. }
    pose proof (randomCode_spec _ _ _ _ Hrun) as (_ & Ht0 & _).
    apply randomCode_draws in Hrun as (Hg0 & Ha0 & k0 & Hk0 & Hr0).
    unfold codeLength in Hk0.
    assert (Hce : forall r s, codeExists a st0 = (r, s) ->
              acks (world s) = acks (world st0) /\
              rands (world s) = rands (world st0) /\
              gets (world s) = drop 1 (gets (world st0)) /\
              exists c, trace (world s) = trace (world st0) ++ [c] /\
                        isWrite c = false).
    { intros r s Hc. unfold codeExists, bind, valuesGet, record in Hc.
      destruct (gets (world st0)) as [|[rows|] g] eqn:Hgg; inversion Hc; subst;
        simpl; rewrite ?Hgg; repeat split; eexists; split; reflexivity. }
    run_inv H.
    2:{ apply Hce in H as (Ha1 & Hr1 & Hg1 & c & Ht1 & Hc).
        split; [congruence|].
        split; [exists k0; split; [lia | congruence]|].
        exists [c]. split; [congruence|]. split; [simpl; lia|].
        split; [repeat constructor; exact Hc|]. simpl length. congruence. }
    apply Hce in Hrun as (Ha1 & Hr1 & Hg1 & c & Ht1 & Hc).
    destruct a0.
    + apply IH in H as (Ha2 & (k2 & Hk2 & Hr2) & calls & Ht2 & Hlen & Hall & Hg2).
      split; [congruence|]. split.
      { exists (k0 + k2)%nat. split; [lia|].
        rewrite Hr2, Hr1, Hr0, drop_drop. reflexivity. }
      exists (c :: calls). split.
      { rewrite Ht2, Ht1, Ht0, <- app_assoc. reflexivity. }
      split; [simpl; lia|]. split; [constructor; assumption|].
      rewrite Hg2, Hg1, Hg0, drop_drop. reflexivity.
    + inversion H; subst. split; [congruence|].
      split; [exists k0; split; [lia | congruence]|].
      exists [c]. split; [congruence|]. split; [simpl; lia|].
      split; [repeat constructor; exact Hc|]. simpl length. congruence.
Qed.

Lemma trimLeft_nospace (s : gostring) :
  Forall (fun r => unicode_IsSpace r = false) s -> trimLeft s = s.
Proof. intros H. destruct H as [|r s Hr _]; simpl; [|rewrite Hr]; reflexivity. Qed.

Lemma strings_TrimSpace_nospace (s : gostring) :
  Forall (fun r => unicode_IsSpace r = false) s -> strings_TrimSpace s = s.
Proof.
  intros H. unfold strings_TrimSpace, trimRight.
  rewrite (trimLeft_nospace s H).
  rewrite trimLeft_nospace by (apply Forall_rev; exact H).
  apply rev_involutive.
Qed.

Lemma charset_normal (r : rune) :
  In r charset -> unicode_IsSpace r = false /\ unicode_ToUpper r = r.
Proof.
  intros H. simpl in H.
  repeat (destruct H as [<- | H]; [split; reflexivity|]). destruct H.
Qed.

(** X11. One call of [generateUniqueCode] costs at most 100 reads of the
    code column and at most 600 random draws, taken from the front of what
    the service and the random source hold ready, and makes no write.  A
    code it returns is in normal form (trimming and upper-casing leave it
    as it is), so it is the key it will be found under once indexed. *)
Theorem generateUniqueCode_cost_and_shape st res st' :
  generateUniqueCode st = (res, st') ->
  acks (world st') = acks (world st) /\
  (exists k, (k <= 600)%nat /\ rands (world st') = drop k (rands (world st))) /\
  (exists calls,
     trace (world st') = trace (world st) ++ calls /\
     (length calls <= 100)%nat /\
     Forall (fun c => isWrite c = false) calls /\
     gets (world st') = drop (length calls) (gets (world st))) /\
  (forall code, res = Ok code -> normalizedCode code = code).
Proof.
  intros H. unfold generateUniqueCode in H.
  pose proof (generateAttempts_bounds _ _ _ _ H) as (Ha & Hr & Hc).
  split; [exact Ha|]. split; [exact Hr|]. split; [exact Hc|].
  intros code ->. apply generateAttempts_spec in H as (_ & calls & _ & _ & Hall & _).
  assert (Hn : Forall (fun r => unicode_IsSpace r = false /\ unicode_ToUpper r = r)
                 code).
  { eapply Forall_impl; [exact Hall|]. intros r. apply charset_normal. }
  unfold normalizedCode, strings_ToUpper.
  rewrite strings_TrimSpace_nospace.
  - clear Hall. induction Hn as [|r s [_ Hr'] _ IH]; simpl; [reflexivity|].
    rewrite Hr', IH. reflexivity.
  - eapply Forall_impl; [exact Hn|]. intros r [Hs _]. exact Hs.
Qed.

(** ** What the result of [processWithdrawal] tells *)

Lemma parseWithdrawalRow_unknown existing row w :
  parseWithdrawalRow existing row = Some w ->
  existing !! DealID w <> Some true.
Proof.
  unfold parseWithdrawalRow. intros H.
  destruct row as [|c0 [|c1 rest]]; try discriminate.
  destruct (bool_decide (getStringValue c0 = [])); [discriminate|].
  destruct (existing !! getStringValue c0) as [b|] eqn:He; simpl in H.
  - destruct b; [discriminate|].
    destruct (parseUserID c1); [|discriminate].
    destruct (profitCell _); [|discriminate].
    destruct (_ <=? _)%float; [discriminate|].
    inversion H; subst; simpl. congruence.
  - destruct (parseUserID c1); [|discriminate].
    destruct (profitCell _); [|discriminate].
    destruct (_ <=? _)%float; [discriminate|].
    inversion H; subst; simpl. congruence.
Qed.

Lemma GetNewWithdrawals_unknown st ws st' :
  GetNewWithdrawals st = (Ok ws, st') ->
  forall w, w ∈ ws -> existingDealIDs (cache st) !! DealID w <> Some true.
Proof.
  rewrite GetNewWithdrawals_run. cbv zeta.
  destruct (match gets (world st) with o :: _ => o | [] => None end)
    as [rows|]; [|discriminate].
  intros H w Hw. inversion H; subst.
  apply list_elem_of_omap in Hw as (row & _ & Hrow).
  eapply parseWithdrawalRow_unknown, Hrow.
Qed.

(** The two writes of [processWithdrawal], with the result of each. *)
Lemma processWithdrawal_steps w st res st' :
  processWithdrawal w st = (res, st') ->
  res = Ok tt /\ st' = st \/
  exists inv ref,
    let bonus := (Profit w * bonusRate)%float in
    let referral :=
      mkReferral (wUserID w) (RefCode inv) (Profit w) (DealID w) bonus
                 (time_Format (clock (world st))) in
    invitedByUserID (cache st) !! wUserID w = Some inv /\
    referrersByCode (cache st) !! normalizedCode (RefCode inv) = Some ref /\
    exists r1 st1,
      CreateReferral referral st = (r1, st1) /\
      match r1 with
      | Err e1 => res = Err (ErrWrap InCreateReferral e1) /\ st' = st1
      | Ok _ =>
          exists r2,
            UpdateReferrer (addBonus ref bonus) st1 = (r2, st') /\
            res = match r2 with
                  | Ok _ => Ok tt
                  | Err e2 => Err (ErrWrap InUpdateReferrerBonus e2)
                  end
      end.
Proof.
  unfold processWithdrawal, bind at 1, wrap at 1.
  rewrite GetInvitedByUserID_run.
  destruct (invitedByUserID (cache st) !! wUserID w) as [inv|] eqn:Hinv.
  2:{ intros H. inversion H. auto. }
  unfold bind at 1, wrap at 1. rewrite GetReferrerByCode_run.
  destruct (referrersByCode (cache st) !! normalizedCode (RefCode inv))
    as [ref|] eqn:Href.
  2:{ intros H. inversion H. auto. }
  unfold bind at 1, timeNow. intros H. right. exists inv, ref. cbv zeta.
  split; [first [exact Hinv | reflexivity]|].
  split; [first [exact Href | reflexivity]|].
  unfold bind at 1, wrap at 1 in H.
  destruct (CreateReferral _ st) as [[[]|e1] st1] eqn:Hcr.
  - exists (Ok tt), st1. split; [reflexivity|].
    unfold wrap in H.
    destruct (UpdateReferrer _ st1) as [[[]|e2] st2] eqn:Hup;
      inversion H; subst; eexists; split; reflexivity.
  - exists (Err e1), st1. split; [reflexivity|]. inversion H; auto.
Qed.

(** X12. What the result of [processWithdrawal] tells about what was done.
    [nil] means nothing at all (a referential gap) or both writes
    acknowledged: the ledger row, then the credit, with the deal id known
    and the cached referrer credited.  An error of the ledger step means no
    ledger row, no credit and the cache as before.  An error of the credit
    step means the ledger row is written and the deal id known, but nothing
    is credited, in the store or in the cache; the next [GetNewWithdrawals]
    on this cache no longer returns the deal, so the bonus is not tried
    again. *)
Theorem processWithdrawal_outcomes w st res st' :
  processWithdrawal w st = (res, st') ->
  let bonus := (Profit w * bonusRate)%float in
  exists calls,
    trace (world st') = trace (world st) ++ calls /\
    match res with
    | Ok _ =>
        st' = st \/
        exists inv ref,
          invitedByUserID (cache st) !! wUserID w = Some inv /\
          referrersByCode (cache st) !! normalizedCode (RefCode inv) = Some ref /\
          ledgerDealIDs calls = [DealID w] /\
          creditedDealIDs calls = [DealID w] /\
          cache st'
          = upsertReferrer (addBonus ref bonus) (markDealID (DealID w) (cache st))
    | Err e =>
        (exists e', e = ErrWrap InCreateReferral e' /\
           ledgerDealIDs calls = [] /\ creditedDealIDs calls = [] /\
           cache st' = cache st) \/
        (exists e', e = ErrWrap InUpdateReferrerBonus e' /\
           ledgerDealIDs calls = [DealID w] /\ creditedDealIDs calls = [] /\
           cache st' = markDealID (DealID w) (cache st) /\
           forall ws s, GetNewWithdrawals st' = (Ok ws, s) ->
                        DealID w ∉ map DealID ws)
    end.
Proof.
  intros H. cbv zeta.
  apply processWithdrawal_steps in H
    as [(-> & ->) | (inv & ref & Hinv & Href & r1 & st1 & Hcr & Hrest)].
  { exists []. rewrite app_nil_r. auto. }
  cbv zeta in *.
  apply CreateReferral_spec in Hcr as (o1 & Hcr). cbv zeta in Hcr.
  destruct Hcr as [(Ht1 & Hc1 & e1 & ->) | (i & ok1 & Ht1 & Hok1)].
  { destruct Hrest as (-> & ->). eexists. split; [exact Ht1|].
    left. exists e1. auto. }
  destruct ok1.
  2:{ destruct Hok1 as (Hc1 & e1 & ->). destruct Hrest as (-> & ->).
      eexists. split; [exact Ht1|]. left. exists e1. auto. }
  destruct Hok1 as (Hc1 & ->). destruct Hrest as (r2 & Hup & ->).
  simpl in Hc1.
  apply UpdateReferrer_spec in Hup as (o2 & Hup). cbv zeta in Hup.
  assert (Hlost : cache st' = markDealID (DealID w) (cache st) ->
            forall ws s, GetNewWithdrawals st' = (Ok ws, s) ->
                         DealID w ∉ map DealID ws).
  { intros Hc ws s Hget Hin. apply list_elem_of_fmap in Hin as (w' & Hd & Hw').
    eapply GetNewWithdrawals_unknown in Hget; [|exact Hw'].
    apply Hget. rewrite Hc, <- Hd. simpl. apply lookup_insert_eq. }
  destruct Hup as [(Ht2 & Hc2 & e2 & ->) | (j & ok2 & Ht2 & Hok2)].
  { eexists. split; [rewrite Ht2, Ht1, <- app_assoc; reflexivity|].
    assert (Hc : cache st' = markDealID (DealID w) (cache st)) by congruence.
    right. exists e2. split; [reflexivity|]. split; [reflexivity|].
    split; [reflexivity|]. split; [exact Hc|]. apply Hlost, Hc. }
  destruct ok2.
  - destruct Hok2 as (Hc2 & ->).
    eexists. split; [rewrite Ht2, Ht1, <- app_assoc; reflexivity|].
    right. exists inv, ref. split; [exact Hinv|]. split; [exact Href|].
    split; [reflexivity|]. split; [reflexivity|]. congruence.
  - destruct Hok2 as (Hc2 & e2 & ->).
    eexists. split; [rewrite Ht2, Ht1, <- app_assoc; reflexivity|].
    assert (Hc : cache st' = markDealID (DealID w) (cache st)) by congruence.
    right. exists e2. split; [reflexivity|]. split; [reflexivity|].
    split; [reflexivity|]. split; [exact Hc|]. apply Hlost, Hc.
Qed.

(** ** A round of the sync worker *)

(** X13. A round of the sync worker whose reload succeeds makes four reads,
    then the requests of the pass.  No ledger row written in the round
    carries a deal id the reload has just read from column D of "Рефералы",
    and every ledger row written carries the deal id of a row of "Выводы"
    read in the round. *)
Theorem syncRound_skips_ledger_ids st refRows invRows dealRows rows g :
  gets (world st)
  = Some refRows :: Some invRows :: Some dealRows :: Some rows :: g ->
  exists reads calls,
    trace (world (syncRound st)) = trace (world st) ++ reads ++ calls /\
    length reads = 4%nat /\
    Forall (fun c => isWrite c = false) reads /\
    (forall d, d ∈ omap dealIDOfRow dealRows -> d ∉ ledgerDealIDs calls) /\
    (forall d, d ∈ ledgerDealIDs calls ->
               exists c0 row, (c0 :: row) ∈ rows /\ getStringValue c0 = d).
Proof.
  intros Hg. unfold syncRound.
  rewrite (LoadCache_run st refRows invRows dealRows (Some rows :: g) Hg).
  cbn [snd].
  match goal with
  | |- context [syncWithdrawals ?s] => set (st1 := s)
  end.
  destruct (syncWithdrawals_effect st1 rows g eq_refl)
    as (read & calls & Ht & Hr & Hsub & _).
  cbv zeta in Ht, Hsub.
  eexists [_; _; _; read], calls. split.
  { rewrite Ht. unfold st1. cbn [world trace]. rewrite <- app_assoc. reflexivity. }
  split; [reflexivity|]. split; [repeat constructor; exact Hr|].
  assert (Hws : forall d, d ∈ ledgerDealIDs calls ->
            exists w row, row ∈ rows /\
              parseWithdrawalRow (existingDealIDs (cache st1)) row = Some w /\
              DealID w = d).
  { intros d Hd. eapply elem_of_sublist in Hd; [|exact Hsub].
    apply list_elem_of_fmap in Hd as (w & -> & Hw).
    apply list_elem_of_omap in Hw as (row & Hrow & Hw). eauto. }
  split.
  - intros d Hread Hd. apply Hws in Hd as (w & row & _ & Hw & <-).
    apply parseWithdrawalRow_unknown in Hw. apply Hw.
    unfold st1. cbn [cache existingDealIDs setLastCacheUpdate].
    rewrite fold_indexDealIDRow_lookup.
    destruct (decide _) as [_|Hn]; [reflexivity | contradiction].
  - intros d Hd. apply Hws in Hd as (w & row & Hrow & Hw & <-).
    unfold parseWithdrawalRow in Hw.
    destruct row as [|c0 [|c1 rest]]; try discriminate.
    exists c0, (c1 :: rest). split; [exact Hrow|].
    destruct (bool_decide _); [discriminate|].
    destruct (default false _); [discriminate|].
    destruct (parseUserID c1); [|discriminate].
    destruct (profitCell _); [|discriminate].
    destruct (_ <=? _)%float; [discriminate|].
    inversion Hw. reflexivity.
Qed.

(** ** The handlers of the bot *)

Lemma run_inv_bot {A} (f : State -> A * State) b a b' :
  run f b = (a, b') ->
  f (sheets b) = (a, sheets b') /\
  waitingForWallet b' = waitingForWallet b /\
  apiResults b' = apiResults b /\ apiSent b' = apiSent b.
Proof.
  unfold run. destruct (f (sheets b)) as [a0 st]. intros H.
  inversion H; subst. auto.
Qed.

Lemma run_GetReferrerByID userID b r b' :
  run (GetReferrerByID userID) b = (r, b') ->
  r = Ok (referrersByID (cache (sheets b)) !! userID) /\
  sheets b' = sheets b /\ waitingForWallet b' = waitingForWallet b.
Proof.
  intros H. apply run_inv_bot in H as (H & Hw & _).
  rewrite GetReferrerByID_run in H. inversion H. auto.
Qed.

Lemma run_GetReferrerByCode code b r b' :
  run (GetReferrerByCode code) b = (r, b') ->
  r = Ok (referrersByCode (cache (sheets b)) !! normalizedCode code) /\
  sheets b' = sheets b /\ waitingForWallet b' = waitingForWallet b.
Proof.
  intros H. apply run_inv_bot in H as (H & Hw & _).
  rewrite GetReferrerByCode_run in H. inversion H. auto.
Qed.

Lemma run_GetInvitedByUserID userID b r b' :
  run (GetInvitedByUserID userID) b = (r, b') ->
  r = Ok (invitedByUserID (cache (sheets b)) !! userID) /\
  sheets b' = sheets b /\ waitingForWallet b' = waitingForWallet b.
Proof.
  intros H. apply run_inv_bot in H as (H & Hw & _).
  rewrite GetInvitedByUserID_run in H. inversion H. auto.
Qed.

Lemma apiSend_bot chatID text mode markup b :
  sheets (snd (apiSend chatID text mode markup b)) = sheets b /\
  waitingForWallet (snd (apiSend chatID text mode markup b)) = waitingForWallet b.
Proof. split; reflexivity. Qed.

Lemma sendMessage_bot chatID text b :
  sheets (sendMessage chatID text b) = sheets b /\
  waitingForWallet (sendMessage chatID text b) = waitingForWallet b.
Proof. split; reflexivity. Qed.

Lemma sendFormattedMessage_bot chatID text b :
  sheets (sendFormattedMessage chatID text b) = sheets b /\
  waitingForWallet (sendFormattedMessage chatID text b) = waitingForWallet b.
Proof.
  unfold sendFormattedMessage, apiSend.
  destruct (match apiResults b with r :: _ => r | [] => false end);
    split; reflexivity.
Qed.

Lemma sendHTMLMessage_bot chatID text b :
  sheets (sendHTMLMessage chatID text b) = sheets b /\
  waitingForWallet (sendHTMLMessage chatID text b) = waitingForWallet b.
Proof.
  unfold sendHTMLMessage, apiSend.
  destruct (match apiResults b with r :: _ => r | [] => false end);
    split; reflexivity.
Qed.

Lemma showMenu_bot chatID text b :
  sheets (showMenu chatID text b) = sheets b /\
  waitingForWallet (showMenu chatID text b) = waitingForWallet b.
Proof. split; reflexivity. Qed.

(** X14. [handleWalletInput] always ends with the user's flag removed, also
    on the path of a wrongly formatted address, where the flag the handler
    sets back for another try is deleted again by the deferred function.
    It either leaves the sheets client and the store untouched, or the text
    is neither a menu button nor a command, its trimmed form matches
    [walletRegex], the user is a cached referrer, and the one thing done is
    [UpdateReferrer] of that referrer with the trimmed text as wallet; the
    cache holds the new wallet exactly when that call succeeds, and the last
    message sent says which it was. *)
Theorem handleWalletInput_outcomes msg userID b :
  let b' := handleWalletInput msg userID b in
  let wallet := strings_TrimSpace (Text msg) in
  waitingForWallet b' = delete userID (waitingForWallet b) /\
  (sheets b' = sheets b \/
   exists ref res,
     isMenuButton (Text msg) = false /\ IsCommand msg = false /\
     walletRegex_MatchString wallet = true /\
     referrersByID (cache (sheets b)) !! userID = Some ref /\
     UpdateReferrer (withWallet ref wallet) (sheets b) = (res, sheets b') /\
     cache (sheets b')
     = match res with
       | Ok _ => upsertReferrer (withWallet ref wallet) (cache (sheets b))
       | Err _ => cache (sheets b)
       end /\
     exists ok,
       last (apiSent b')
       = Some (mkSent (ChatID msg)
                 match res with
                 | Ok _ => WalletConnected wallet
                 | Err _ => WalletSaveFailed
                 end NoMode NoMarkup ok)).
Proof.
  cbv zeta. unfold handleWalletInput.
  destruct (isMenuButton (Text msg)) eqn:Hbtn; cbn [orb].
  { split; [reflexivity | left; reflexivity]. }
  destruct (IsCommand msg) eqn:Hcmd.
  { split; [reflexivity | left; reflexivity]. }
  destruct (walletRegex_MatchString _) eqn:Hre; cbn [negb].
  2:{ split; [|left; reflexivity]. cbn. apply delete_insert_eq. }
  destruct (run (GetReferrerByID userID) b) as [r b1] eqn:H1.
  apply run_GetReferrerByID in H1 as (-> & Hs1 & Hw1).
  destruct (referrersByID (cache (sheets b)) !! userID) as [ref|] eqn:Href.
  2:{ split; [cbn; rewrite Hw1; reflexivity | left; cbn; exact Hs1]. }
  destruct (run (UpdateReferrer _) b1) as [res b2] eqn:H2.
  apply run_inv_bot in H2 as (H2 & Hw2 & _ & Hsent).
  rewrite Hs1 in H2.
  pose proof (UpdateReferrer_cache _ _ _ _ H2) as Hc.
  destruct res as [[]|e].
  - split; [cbn; rewrite Hw2, Hw1; reflexivity|].
    right. exists ref, (Ok tt). cbn.
    split; [reflexivity|]. split; [reflexivity|]. split; [reflexivity|].
    split; [reflexivity|]. split; [exact H2|]. split; [exact Hc|].
    eexists. apply last_snoc.
  - split; [cbn; rewrite Hw2, Hw1; reflexivity|].
    right. exists ref, (Err e). cbn.
    split; [reflexivity|]. split; [reflexivity|]. split; [reflexivity|].
    split; [reflexivity|]. split; [exact H2|]. split; [exact Hc|].
    eexists. apply last_snoc.
Qed.

(** X15. The prompt for a wallet and the next message.  [handleConnectWallet]
    by a cached referrer sets the user's flag.  If the user then presses a
    menu button or sends a command other than /start, [handleUpdate] hands
    the message to [handleWalletInput] and returns: the button's own handler
    does not run, no request is made, nothing is sent, and only the flag is
    removed. *)
Theorem wallet_prompt_swallows_next_button msg1 msg2 b ref :
  referrersByID (cache (sheets b)) !! FromID msg1 = Some ref ->
  FromID msg2 = FromID msg1 ->
  Text msg2 <> [] ->
  (IsCommand msg2 && bool_decide (Command msg2 = str "start")) = false ->
  (isMenuButton (Text msg2) || IsCommand msg2) = true ->
  let b1 := handleConnectWallet msg1 (FromID msg1) b in
  waitingForWallet b1 !! FromID msg1 = Some true /\
  handleUpdate (Some msg2) b1
  = Returned (setWaiting (delete (FromID msg1) (waitingForWallet b1)) b1).
Proof.
  intros Href Hfrom Htext Hstart Hbtn. cbv zeta.
  assert (Hflag : waitingForWallet (handleConnectWallet msg1 (FromID msg1) b)
                    !! FromID msg1 = Some true).
  { unfold handleConnectWallet.
    destruct (run (GetReferrerByID (FromID msg1)) b) as [r b1] eqn:H1.
    apply run_GetReferrerByID in H1 as (-> & Hs1 & Hw1). rewrite Href.
    cbn. apply lookup_insert_eq. }
  split; [exact Hflag|].
  unfold handleUpdate. rewrite Hstart.
  rewrite (bool_decide_eq_true_2 _ Htext), Hfrom, Hflag. cbn [default].
  unfold handleWalletInput. rewrite Hbtn. reflexivity.
Qed.

(** *** No write of a handler removes a referrer *)

Lemma keepsReferrerKeys_refl c : keepsReferrerKeys c c.
Proof. split; auto. Qed.

Lemma keepsReferrerKeys_trans c1 c2 c3 :
  keepsReferrerKeys c1 c2 -> keepsReferrerKeys c2 c3 -> keepsReferrerKeys c1 c3.
Proof. intros [H1 H2] [H3 H4]. split; auto. Qed.

Lemma keepsReferrerKeys_same c c' : c' = c -> keepsReferrerKeys c c'.
Proof. intros ->. apply keepsReferrerKeys_refl. Qed.

Lemma upsertReferrer_keeps ref c :
  invitedByUserID (upsertReferrer ref c) = invitedByUserID c /\
  keepsReferrerKeys c (upsertReferrer ref c).
Proof.
  split; [reflexivity|]. unfold upsertReferrer. split; simpl.
  - intros u H. apply lookup_insert_is_Some'. auto.
  - intros k H. destruct (bool_decide (Code ref = [])); [exact H|].
    apply lookup_insert_is_Some'. auto.
Qed.

Lemma UpdateReferrer_keeps ref st res st' :
  UpdateReferrer ref st = (res, st') ->
  invitedByUserID (cache st') = invitedByUserID (cache st) /\
  keepsReferrerKeys (cache st) (cache st').
Proof.
  intros H. apply UpdateReferrer_cache in H. rewrite H.
  destruct res; [apply upsertReferrer_keeps|].
  split; [reflexivity | apply keepsReferrerKeys_refl].
Qed.

Lemma IncrementRefCount_keeps refCode st err st' :
  IncrementRefCount refCode st = (err, st') ->
  invitedByUserID (cache st') = invitedByUserID (cache st) /\
  keepsReferrerKeys (cache st) (cache st').
Proof.
  unfold IncrementRefCount. rewrite GetReferrerByCode_run.
  destruct (referrersByCode (cache st) !! normalizedCode refCode) as [ref|].
  2:{ intros H. inversion H; subst.
      split; [reflexivity | apply keepsReferrerKeys_refl]. }
  destruct (UpdateReferrer _ st) as [[u|e] st2] eqn:Hupd;
    intros H; inversion H; subst; eapply UpdateReferrer_keeps, Hupd.
Qed.

Lemma updateUsernameIfChanged_keeps ref username st ref' st' :
  updateUsernameIfChanged ref username st = (ref', st') ->
  invitedByUserID (cache st') = invitedByUserID (cache st) /\
  keepsReferrerKeys (cache st) (cache st').
Proof.
  unfold updateUsernameIfChanged.
  destruct (bool_decide (username = [])).
  { intros H. inversion H; subst.
    split; [reflexivity | apply keepsReferrerKeys_refl]. }
  destruct (bool_decide (_ = _)).
  { intros H. inversion H; subst.
    split; [reflexivity | apply keepsReferrerKeys_refl]. }
  destruct (UpdateReferrer _ st) as [res st2] eqn:Hupd. cbn [snd].
  intros H. inversion H; subst. eapply UpdateReferrer_keeps, Hupd.
Qed.

Lemma CreateReferrer_keeps userID username st res st' :
  CreateReferrer userID username st = (res, st') -> cache st' = cache st.
Proof. apply keepsCache_CreateReferrer. Qed.

Lemma extendsTrace_bind {A B} (m : M A) (k : A -> M B) :
  extendsTrace m -> (forall a, extendsTrace (k a)) -> extendsTrace (bind m k).
Proof.
  intros Hm Hk st r st' H.
  apply bind_inv in H as [(a & st1 & H1 & H2) | (e & H1 & _)].
  - etransitivity; [eapply Hm, H1 | eapply Hk, H2].
  - eapply Hm, H1.
Qed.

Lemma extendsTrace_wrap {A} ctx (m : M A) : extendsTrace m -> extendsTrace (wrap ctx m).
Proof.
  intros Hm st r st' H. apply wrap_inv in H as [(a & H & _) | (e & H & _)];
    eapply Hm, H.
Qed.

Lemma extendsTrace_ret {A} (a : A) : extendsTrace (ret a).
Proof. intros st r st' H. inversion H. reflexivity. Qed.

Lemma extendsTrace_CreateReferrer userID username :
  extendsTrace (CreateReferrer userID username).
Proof.
  unfold CreateReferrer. apply extendsTrace_bind.
  { apply extendsTrace_wrap. intros st r st' H. unfold generateUniqueCode in H.
    apply generateAttempts_bounds in H as (_ & _ & calls & -> & _).
    eexists. reflexivity. }
  intros code. apply extendsTrace_bind.
  { apply extendsTrace_wrap. intros st r st' H.
    apply findFirstEmptyRow_spec in H as (_ & o & -> & _). eexists. reflexivity. }
  intros rowIndex. apply extendsTrace_bind; [|intros _; apply extendsTrace_ret].
  apply extendsTrace_wrap. intros st r st' H.
  apply valuesUpdate_spec in H as (_ & ok & -> & _). eexists. reflexivity.
Qed.

(** The lookups and writes of [handleReferralLink], in order. *)
Lemma handleReferralLink_cases msg userID username refCode b :
  let c := cache (sheets b) in
  exists b',
    handleReferralLink msg userID username refCode b = Returned b' /\
    match invitedByUserID c !! userID,
          referrersByCode c !! normalizedCode refCode with
    | Some _, _ | None, None => sheets b' = sheets b
    | None, Some ref =>
        if bool_decide (ID ref = userID) then sheets b' = sheets b
        else
          exists r st,
            CreateInvited userID refCode (sheets b) = (r, st) /\
            match r with
            | Err _ => sheets b' = st
            | Ok _ =>
                invitedByUserID (cache (sheets b'))
                = <[userID := mkInvited userID refCode]> (invitedByUserID c) /\
                exists err st',
                  IncrementRefCount refCode st = (err, st') /\
                  trace (world st') `prefix_of` trace (world (sheets b'))
            end
    end.
Proof.
  cbv zeta. unfold handleReferralLink.
  destruct (run (GetInvitedByUserID userID) b) as [r1 b1] eqn:H1.
  apply run_GetInvitedByUserID in H1 as (-> & Hs1 & _).
  destruct (invitedByUserID (cache (sheets b)) !! userID) as [inv|] eqn:Hinv.
  { eexists. split; [reflexivity|]. exact Hs1. }
  destruct (run (GetReferrerByCode refCode) b1) as [r2 b2] eqn:H2.
  apply run_GetReferrerByCode in H2 as (-> & Hs2 & _). rewrite Hs1 in *.
  destruct (referrersByCode (cache (sheets b)) !! normalizedCode refCode)
    as [ref|] eqn:Href.
  2:{ eexists. split; [reflexivity|]. exact Hs2. }
  destruct (bool_decide (ID ref = userID)).
  { eexists. split; [reflexivity|]. exact Hs2. }
  destruct (run (CreateInvited userID refCode) b2) as [r3 b3] eqn:H3.
  apply run_inv_bot in H3 as (H3 & _). rewrite Hs2 in H3.
  pose proof (CreateInvited_cache _ _ _ _ _ H3) as Hc3.
  destruct r3 as [[]|e3].
  2:{ eexists. split; [reflexivity|]. exists (Err e3), (sheets b3).
      split; [exact H3 | reflexivity]. }
  destruct (run (IncrementRefCount refCode) b3) as [err b4] eqn:H4.
  apply run_inv_bot in H4 as (H4 & _). cbn [snd].
  pose proof (IncrementRefCount_keeps _ _ _ _ H4) as [Hi4 Hk4].
  set (b5 := sendHTMLMessage (ChatID msg) Welcome b4).
  assert (Hs5 : sheets b5 = sheets b4) by apply sendHTMLMessage_bot.
  destruct (run (GetReferrerByCode refCode) b5) as [r6 b6] eqn:H6.
  apply run_GetReferrerByCode in H6 as (-> & Hs6 & _).
  rewrite Hs5 in *.
  assert (Hsome : is_Some (referrersByCode (cache (sheets b4))
                             !! normalizedCode refCode)).
  { apply Hk4. rewrite Hc3. simpl. rewrite Href. eauto. }
  destruct Hsome as [updatedRef Hupd]. rewrite Hupd.
  match goal with
  | |- context [sendFormattedMessage ?c ?t b6] =>
      set (b7 := sendFormattedMessage c t b6)
  end.
  assert (Hs7 : sheets b7 = sheets b4).
  { unfold b7. rewrite (proj1 (sendFormattedMessage_bot _ _ _)). exact Hs6. }
  destruct (run (GetReferrerByID userID) b7) as [r8 b8] eqn:H8.
  apply run_GetReferrerByID in H8 as (-> & Hs8 & _). rewrite Hs7 in *.
  match goal with
  | |- context [showMenu ?c ?t ?x] => set (b9 := x)
  end.
  assert (H9 : invitedByUserID (cache (sheets b9))
               = invitedByUserID (cache (sheets b4)) /\
               trace (world (sheets b4)) `prefix_of` trace (world (sheets b9))).
  { unfold b9.
    destruct (referrersByID (cache (sheets b4)) !! userID) as [existingRef|].
    - destruct (run (updateUsernameIfChanged existingRef username) b8)
        as [ref' b10] eqn:H10.
      apply run_inv_bot in H10 as (H10 & _). cbn [snd]. rewrite Hs8 in H10.
      split; [eapply updateUsernameIfChanged_keeps, H10|].
      revert H10. unfold updateUsernameIfChanged.
      destruct (bool_decide (username = [])).
      { intros H. inversion H. reflexivity. }
      destruct (bool_decide (_ = _)).
      { intros H. inversion H. reflexivity. }
      destruct (UpdateReferrer _ (sheets b4)) as [res st2] eqn:Hu. cbn [snd].
      intros H. inversion H; subst.
      apply UpdateReferrer_spec in Hu as (o & [(Ht & _) | (i & ok & Ht & _)]);
        rewrite Ht; eexists; reflexivity.
    - destruct (bool_decide (username <> [])).
      + destruct (run (CreateReferrer userID (64%N :: username)) b8)
          as [res b10] eqn:H10.
        apply run_inv_bot in H10 as (H10 & _). cbn [snd]. rewrite Hs8 in H10.
        split; [rewrite (CreateReferrer_keeps _ _ _ _ _ H10); reflexivity|].
        eapply extendsTrace_CreateReferrer, H10.
      + rewrite Hs8. split; reflexivity. }
  destruct H9 as [Hi9 Hp9].
  eexists. split; [reflexivity|].
  exists (Ok tt), (sheets b3). split; [exact H3|].
  rewrite (proj1 (showMenu_bot _ _ _)). split.
  { rewrite Hi9, Hi4, Hc3. reflexivity. }
  exists err, (sheets b4). split; [exact H4 | exact Hp9].
Qed.

Lemma handleMyReferrals_returns msg userID b :
  exists b', handleMyReferrals msg userID b = Returned b'.
Proof.
  unfold handleMyReferrals.
  destruct (run (GetReferrerByID userID) b) as [r1 b1] eqn:H1.
  apply run_GetReferrerByID in H1 as (-> & Hs1 & _).
  destruct (referrersByID (cache (sheets b)) !! userID) as [ref|] eqn:Href;
    [|eauto].
  destruct (bool_decide (FromUserName msg <> [])); [|eauto].
  destruct (run (updateUsernameIfChanged ref (FromUserName msg)) b1)
    as [ref' b2] eqn:H2. cbn [snd].
  apply run_inv_bot in H2 as (H2 & _).
  apply updateUsernameIfChanged_keeps in H2 as [_ [Hk _]].
  destruct (run (GetReferrerByID userID) b2) as [r3 b3] eqn:H3.
  apply run_GetReferrerByID in H3 as (-> & _).
  destruct (Hk userID) as [ref3 Hl]. { rewrite Hs1, Href. eauto. }
  rewrite Hl. eauto.
Qed.

Lemma handleStart_returns msg userID username b :
  exists b', handleStart msg userID username b = Returned b'.
Proof.
  unfold handleStart.
  destruct (bool_decide (CommandArguments msg <> [])).
  { destruct (handleReferralLink_cases msg userID username (CommandArguments msg) b)
      as (b' & H & _). eauto. }
  destruct (run (GetReferrerByID userID) b) as [[[ref|]|e] b1]; eauto.
  destruct (bool_decide (username = [])); eauto.
  destruct (run (CreateReferrer userID (64%N :: username)) b1) as [[ref|e] b2];
    eauto.
Qed.

(** X16. Run on its own, no handler dereferences a nil pointer: every update
    makes [handleUpdate] return.  The two places that could are the referrer
    [handleReferralLink] looks up again by code after the count is raised,
    and the one [handleMyReferrals] looks up again by id after the username
    is updated; both are found, since no write of a handler removes a key of
    the referrer maps.  (Only a reload rebuilds the maps.) *)
Theorem handleUpdate_returns update b :
  exists b', handleUpdate update b = Returned b'.
Proof.
  destruct update as [msg|]; [|simpl; eauto]. unfold handleUpdate.
  destruct (IsCommand msg && bool_decide (Command msg = str "start")).
  { apply handleStart_returns. }
  assert (Hbuttons : forall b0,
    exists b',
      (if bool_decide (Text msg = btnInviteFriends)
       then Returned (handleInviteFriends msg (FromID msg) (FromUserName msg) b0)
       else if bool_decide (Text msg = btnMyReferrals)
       then handleMyReferrals msg (FromID msg) b0
       else if bool_decide (Text msg = btnConnectWallet)
               || bool_decide (Text msg = btnChangeWallet)
       then Returned (handleConnectWallet msg (FromID msg) b0)
       else Returned (showMenu (ChatID msg) ChooseAction b0)) = Returned b').
  { intros b0. destruct (bool_decide (Text msg = btnInviteFriends)); [eauto|].
    destruct (bool_decide (Text msg = btnMyReferrals));
      [apply handleMyReferrals_returns|].
    destruct (_ || _); eauto. }
  destruct (bool_decide (Text msg <> [])); [|apply Hbuttons].
  destruct (default false _); [eauto|].
  destruct (walletRegex_MatchString _); [|apply Hbuttons].
  destruct (run (GetReferrerByID (FromID msg)) b) as [[[ref|]|e] b1];
    try apply Hbuttons.
  destruct (bool_decide (Wallet ref = [])); apply Hbuttons.
Qed.

(** X17. [handleReferralLink] links a user once.  For a user the cache has
    as invited, for a code no cached referrer answers to, and for the user's
    own code, it makes no request and leaves the sheets client as it is.
    Otherwise it first writes the Invited row; if that fails nothing else is
    requested; if it succeeds the cache has the user as invited with the code
    as it was typed, and [IncrementRefCount] of that code runs next, its
    requests being part of those made. *)
Theorem handleReferralLink_links_once msg userID username refCode b :
  let c := cache (sheets b) in
  let b' := botOf (handleReferralLink msg userID username refCode b) in
  match invitedByUserID c !! userID,
        referrersByCode c !! normalizedCode refCode with
  | Some _, _ | None, None => sheets b' = sheets b
  | None, Some ref =>
      if bool_decide (ID ref = userID) then sheets b' = sheets b
      else
        exists r st,
          CreateInvited userID refCode (sheets b) = (r, st) /\
          match r with
          | Err _ => sheets b' = st
          | Ok _ =>
              invitedByUserID (cache (sheets b'))
              = <[userID := mkInvited userID refCode]> (invitedByUserID c) /\
              exists err st',
                IncrementRefCount refCode st = (err, st') /\
                trace (world st') `prefix_of` trace (world (sheets b'))
          end
  end.
Proof.
  cbv zeta.
  destruct (handleReferralLink_cases msg userID username refCode b)
    as (b' & -> & H).
  exact H.
Qed.

Lemma handleStart_unknown msg userID username b :
  referrersByID (cache (sheets b)) !! userID = None ->
  CommandArguments msg = [] ->
  sheets (botOf (handleStart msg userID username b))
  = if bool_decide (username = []) then sheets b
    else snd (CreateReferrer userID (64%N :: username) (sheets b)).
Proof.
  intros Hnone Hargs. unfold handleStart. rewrite Hargs.
  rewrite bool_decide_eq_false_2 by (intros H; apply H; reflexivity).
  destruct (run (GetReferrerByID userID) b) as [r1 b1] eqn:H1.
  apply run_GetReferrerByID in H1 as (-> & Hs1 & _). rewrite Hnone.
  destruct (bool_decide (username = [])); [exact Hs1|].
  destruct (run (CreateReferrer userID (64%N :: username)) b1) as [res b2] eqn:H2.
  apply run_inv_bot in H2 as (H2 & _). rewrite Hs1 in H2. rewrite H2. cbn [snd].
  destruct res; cbn [botOf]; [|reflexivity].
  rewrite (proj1 (showMenu_bot _ _ _)). apply sendHTMLMessage_bot.
Qed.

(** X18. Registration by a handler does not make the user known.  For a
    user the cache has no referrer for, a plain /start and "invite friends"
    each do, on the sheets side, exactly what [CreateReferrer] of the user
    with "@" before the username does (nothing when the username is empty),
    and the cache is left as it was; so a second /start before the next
    reload runs [CreateReferrer] for the same user again. *)
Theorem registration_leaves_user_unknown msg userID username b :
  referrersByID (cache (sheets b)) !! userID = None ->
  CommandArguments msg = [] ->
  let register (st : State) :=
    if bool_decide (username = []) then st
    else snd (CreateReferrer userID (64%N :: username) st) in
  let b1 := botOf (handleStart msg userID username b) in
  sheets b1 = register (sheets b) /\
  sheets (handleInviteFriends msg userID username b) = register (sheets b) /\
  cache (register (sheets b)) = cache (sheets b) /\
  sheets (botOf (handleStart msg userID username b1)) = register (sheets b1).
Proof.
  intros Hnone Hargs. cbv zeta.
  assert (Hcache : cache (if bool_decide (username = []) then sheets b
                          else snd (CreateReferrer userID (64%N :: username)
                                      (sheets b)))
                   = cache (sheets b)).
  { destruct (bool_decide (username = [])); [reflexivity|].
    destruct (CreateReferrer userID (64%N :: username) (sheets b))
      as [res st] eqn:H.
    eapply CreateReferrer_keeps, H. }
  pose proof (handleStart_unknown msg userID username b Hnone Hargs) as H1.
  split; [exact H1|]. split.
  { unfold handleInviteFriends.
    destruct (run (GetReferrerByID userID) b) as [r1 b1] eqn:Hr.
    apply run_GetReferrerByID in Hr as (-> & Hs1 & _). rewrite Hnone.
    destruct (bool_decide (username = [])) eqn:Hu; [exact Hs1|].
    destruct (run (CreateReferrer userID (64%N :: username)) b1)
      as [res b2] eqn:H2.
    apply run_inv_bot in H2 as (H2 & _). rewrite Hs1 in H2. rewrite H2. cbn [snd].
    destruct res as [ref|e]; [|reflexivity].
    destruct (_ || _); [reflexivity | apply sendFormattedMessage_bot]. }
  split; [exact Hcache|].
  apply handleStart_unknown; [|exact Hargs].
  rewrite H1, Hcache. exact Hnone.
Qed.

(** ** Rows as written and as read *)

(** X19. The rows the program writes, read back cell for cell, give what
    was written.  A referrer row parses to the referrer it was made from,
    with the texts trimmed, and is the row [UpdateReferrer] takes for that
    id; the row [CreateInvited] writes parses to the binding it caches, the
    code trimmed; and the deal id cell of the ledger row written for a
    withdrawal [GetNewWithdrawals] returned gives, on reload, the very id
    [CreateReferral] marked as known.  (Ids within int64, as Go has them.) *)
Theorem written_rows_read_back :
  (forall ref,
     minInt64 <= ID ref <= maxInt64 ->
     parseReferrerRow (referrerValues ref)
     = Some (mkReferrer (ID ref) (strings_TrimSpace (Username ref))
               (strings_TrimSpace (Code ref)) (strings_TrimSpace (Wallet ref))
               (RefCount ref) (PendingPayout ref) (PaidOut ref)) /\
     rowHasID (ID ref) (referrerValues ref) = true) /\
  (forall userID refCode,
     minInt64 <= userID <= maxInt64 ->
     parseInvitedRow [VString (formatInt userID); VString refCode]
     = Some (mkInvited userID (strings_TrimSpace refCode))) /\
  (forall existing (row : Row) w refCode date cell,
     parseWithdrawalRow existing row = Some w ->
     referralValues
       (mkReferral (wUserID w) refCode (Profit w) (DealID w)
                   (Profit w * bonusRate)%float date) !! 3%nat = Some cell ->
     dealIDOfRow [cell] = Some (DealID w)).
Proof.
  split; [|split].
  - intros ref Hid. unfold parseReferrerRow, referrerValues, rowHasID.
    rewrite (ParseInt_formatInt _ Hid). split.
    + cbn. destruct (bool_decide (Wallet ref = [])) eqn:Hw; [|reflexivity].
      apply bool_decide_eq_true_1 in Hw. rewrite Hw. reflexivity.
    + apply bool_decide_eq_true_2. reflexivity.
  - intros userID refCode Hid. unfold parseInvitedRow.
    rewrite (ParseInt_formatInt _ Hid). reflexivity.
  - intros existing row w refCode date cell Hw Hcell.
    cbn in Hcell. inversion Hcell; subst cell. clear Hcell.
    unfold parseWithdrawalRow in Hw.
    destruct row as [|c0 [|c1 rest]]; try discriminate.
    destruct (bool_decide (getStringValue c0 = [])) eqn:He; [discriminate|].
    destruct (default false _); [discriminate|].
    destruct (parseUserID c1); [|discriminate].
    destruct (profitCell _); [|discriminate].
    destruct (_ <=? _)%float; [discriminate|].
    inversion Hw; subst w. cbn [DealID].
    apply bool_decide_eq_false_1 in He.
    assert (Htrim : getStringValue (VString (getStringValue c0))
                    = getStringValue c0).
    { unfold getStringValue at 1. cbn [fmt_Sprint].
      unfold getStringValue. destruct c0; [reflexivity|..];
        apply strings_TrimSpace_idem. }
    unfold dealIDOfRow. rewrite Htrim.
    rewrite bool_decide_eq_false_2 by exact He. reflexivity.
Qed.

(** ** User ids given as text *)

Lemma digitsOf_range (fuel : nat) (n : Z) (acc : gostring) :
  0 <= n ->
  Forall (fun r => (45 <= r <= 57)%N) acc ->
  Forall (fun r => (45 <= r <= 57)%N) (digitsOf fuel n acc).
Proof.
  revert n acc. induction fuel as [|fuel IH]; intros n acc Hn Hacc; simpl.
  - exact Hacc.
  - assert (Hd : 0 <= n mod 10 < 10) by (apply Z.mod_pos_bound; lia).
    assert (Hacc' : Forall (fun r => (45 <= r <= 57)%N)
                      (Z.to_N (48 + n mod 10) :: acc)).
    { constructor; [lia | exact Hacc]. }
    destruct (n <? 10); [exact Hacc'|].
    apply IH; [apply Z.div_pos; lia | exact Hacc'].
Qed.

Lemma digitsOf_cons (fuel : nat) (n : Z) (r : rune) (acc : gostring) :
  exists r' rest, digitsOf fuel n (r :: acc) = r' :: rest.
Proof.
  revert n r acc. induction fuel as [|fuel IH]; intros n r acc; simpl.
  - eauto.
  - destruct (n <? 10); [eauto | apply IH].
Qed.

Lemma digitsOf_S (fuel : nat) (n : Z) (acc : gostring) :
  exists r rest, digitsOf (S fuel) n acc = r :: rest.
Proof. simpl. destruct (n <? 10); [eauto | apply digitsOf_cons]. Qed.

Lemma formatInt_shape (n : Z) :
  Forall (fun r => (45 <= r <= 57)%N) (formatInt n) /\
  exists r rest, formatInt n = r :: rest.
Proof.
  unfold formatInt. destruct (Z.ltb_spec n 0) as [Hneg|Hpos].
  - split.
    + constructor; [lia|]. apply digitsOf_range; [lia | constructor].
    + eauto.
  - split; [apply digitsOf_range; [lia | constructor]|].
    apply (digitsOf_S 19).
Qed.

Lemma sign_or_digit_plain (r : rune) :
  (45 <= r <= 57)%N -> unicode_IsSpace r = false /\ unicode_ToLower r = r.
Proof.
  intros Hr.
  assert (Hcases : (r = 45 \/ r = 46 \/ r = 47 \/ r = 48 \/ r = 49 \/ r = 50 \/
                    r = 51 \/ r = 52 \/ r = 53 \/ r = 54 \/ r = 55 \/ r = 56 \/
                    r = 57)%N) by lia.
  repeat (destruct Hcases as [-> | Hcases]); try subst r; split; reflexivity.
Qed.

(** X20. A user id given as text is read with its spaces and no-break
    spaces taken out, wherever they stand: when what is left is the decimal
    text of an int64, that number is the user id.  So a number shown with
    digit grouping, and the text [CreateInvited] writes for a user, both
    name that user. *)
Theorem parseUserID_spaced_text (v : gostring) (n : Z) :
  minInt64 <= n <= maxInt64 ->
  removeRune 32%N (removeRune 160%N v) = formatInt n ->
  parseUserID (VString v) = Some n.
Proof.
  intros Hn Hv. unfold parseUserID. rewrite Hv.
  destruct (formatInt_shape n) as [Hrange (r & rest & Heq)].
  rewrite strings_TrimSpace_nospace.
  2:{ eapply Forall_impl; [exact Hrange|]. intros c Hc.
      apply sign_or_digit_plain, Hc. }
  rewrite (ParseInt_formatInt n Hn). rewrite Heq in *.
  rewrite bool_decide_eq_false_2 by discriminate.
  inversion Hrange as [|r0 l0 Hr _]; subst.
  cbn [strings_ToLower map strings_HasPrefix orb].
  rewrite (proj2 (sign_or_digit_plain r Hr)).
  rewrite bool_decide_eq_false_2 by (intros <-; lia).
  reflexivity.
Qed.

(** ** C2: a reload that fails part-way *)

Lemma referrers_of_rows (rows : list (list Cell)) c0 :
  let c := fold_left indexReferrerRow rows (resetReferrers c0) in
  let refs := omap parseReferrerRow rows in
  (forall id,
     referrersByID c !! id = last (filter (fun r => ID r = id) refs)) /\
  (forall code,
     referrersByCode c !! normalizedCode code
     = last (filter (fun r => codeKey r = Some (normalizedCode code)) refs)).
Proof.
  cbv zeta.
  destruct (fold_indexReferrerRow_maps rows (resetReferrers c0)) as [Hid Hcode].
  cbv zeta in Hid, Hcode. split.
  - intros id. rewrite Hid, (fold_insert_last (fun v => Some (ID v))).
    cbn [referrersByID resetReferrers]. rewrite lookup_empty.
    rewrite (list_filter_iff (fun v => Some (ID v) = Some id) (fun r => ID r = id)).
    + destruct (last _); reflexivity.
    + intros r. split; congruence.
  - intros code. rewrite Hcode, fold_insert_last.
    cbn [referrersByCode resetReferrers]. rewrite lookup_empty.
    destruct (last _); reflexivity.
Qed.

Lemma invited_of_rows (rows : list (list Cell)) c0 userID :
  invitedByUserID (fold_left indexInvitedRow rows (resetInvited c0)) !! userID
  = last (filter (fun i => UserID i = userID) (omap parseInvitedRow rows)).
Proof.
  rewrite fold_indexInvitedRow_map, (fold_insert_last (fun v => Some (UserID v))).
  cbn [invitedByUserID resetInvited]. rewrite lookup_empty.
  rewrite (list_filter_iff (fun v => Some (UserID v) = Some userID)
             (fun i => UserID i = userID)).
  - destruct (last _); reflexivity.
  - intros i. split; congruence.
Qed.

(** C2 (as amended). When a sub-load of [LoadCache] fails, [LoadCache]
    returns the error wrapped with that sub-load's message, and the maps of
    the sub-loads that ran before it have already been replaced by what
    their reads returned.  A failure of the referrer sub-load (its read
    fails) leaves the whole cache unchanged.  A failure of the invited
    sub-load, after the read of "Рефоводы" returned [refRows], leaves the
    invited map, the deal ids and the time of the last update unchanged,
    while the referrer maps are rebuilt from [refRows] alone: a referrer is
    found by id or by code exactly as the last matching row of [refRows]
    gives it, whatever the maps held before.  A failure of the deal-id
    sub-load, after the reads returned [refRows] and [invRows], leaves only
    the deal ids and the time of the last update unchanged; the referrer
    maps are those of [refRows] and the invited map is that of [invRows]. *)
Theorem LoadCache_error_keeps_unloaded_maps st e st' :
  LoadCache st = (Err e, st') ->
  let failed (g : list (option (list (list Cell)))) :=
    g = [] \/ exists g', g = None :: g' in
  let referrersFrom (refRows : list (list Cell)) :=
    (forall id,
       fst (GetReferrerByID id st')
       = Ok (last (filter (fun r => ID r = id)
                     (omap parseReferrerRow refRows)))) /\
    (forall code,
       fst (GetReferrerByCode code st')
       = Ok (last (filter (fun r => codeKey r = Some (normalizedCode code))
                     (omap parseReferrerRow refRows)))) in
  (exists e0,
     e = ErrWrap InLoadReferrers e0 /\
     failed (gets (world st)) /\
     cache st' = cache st) \/
  (exists e0 refRows g,
     e = ErrWrap InLoadInvited e0 /\
     gets (world st) = Some refRows :: g /\ failed g /\
     cache st' = fold_left indexReferrerRow refRows (resetReferrers (cache st)) /\
     referrersFrom refRows /\
     invitedByUserID (cache st') = invitedByUserID (cache st) /\
     existingDealIDs (cache st') = existingDealIDs (cache st) /\
     lastCacheUpdate (cache st') = lastCacheUpdate (cache st)) \/
  (exists e0 refRows invRows g,
     e = ErrWrap InLoadDealIDs e0 /\
     gets (world st) = Some refRows :: Some invRows :: g /\ failed g /\
     cache st'
     = fold_left indexInvitedRow invRows
         (resetInvited
            (fold_left indexReferrerRow refRows (resetReferrers (cache st)))) /\
     referrersFrom refRows /\
     (forall userID,
        fst (GetInvitedByUserID userID st')
        = Ok (last (filter (fun i => UserID i = userID)
                      (omap parseInvitedRow invRows)))) /\
     existingDealIDs (cache st') = existingDealIDs (cache st) /\
     lastCacheUpdate (cache st') = lastCacheUpdate (cache st)).
Proof.
  intros H. cbv zeta.
  unfold LoadCache, loadReferrersCache, loadInvitedCache, loadDealIDsCache,
    bind, wrap, valuesGet, modifyCache, timeNow, record in H.
  simpl in H.
  destruct (gets (world st)) as [|[refRows|] g1] eqn:Hg1; simpl in H.
  { left. inversion H; subst. eexists. split; [reflexivity|]. auto. }
  2:{ left. inversion H; subst. eexists. split; [reflexivity|].
      split; [right; eauto | reflexivity]. }
  right.
  set (c1 := fold_left indexReferrerRow refRows (resetReferrers (cache st))) in *.
  destruct (referrers_of_rows refRows (cache st)) as [Hid Hcode].
  cbv zeta in Hid, Hcode. fold c1 in Hid, Hcode.
  destruct (fold_indexReferrerRow_frame refRows (resetReferrers (cache st)))
    as (Hinv1 & Hdeal1 & Htime1). fold c1 in Hinv1, Hdeal1, Htime1.
  destruct g1 as [|[invRows|] g2]; simpl in H.
  { left. inversion H; subst. eexists _, refRows, []. cbn [cache].
    split; [reflexivity|]. split; [reflexivity|]. split; [auto|].
    split; [reflexivity|]. split.
    { split; [intros id; rewrite GetReferrerByID_run; cbn; rewrite Hid; reflexivity|].
      intros code. rewrite GetReferrerByCode_run. cbn. rewrite Hcode. reflexivity. }
    auto. }
  2:{ left. inversion H; subst. eexists _, refRows, (None :: g2). cbn [cache].
      split; [reflexivity|]. split; [reflexivity|]. split; [right; eauto|].
      split; [reflexivity|]. split.
      { split; [intros id; rewrite GetReferrerByID_run; cbn; rewrite Hid; reflexivity|].
        intros code. rewrite GetReferrerByCode_run. cbn. rewrite Hcode. reflexivity. }
      auto. }
  right.
  set (c2 := fold_left indexInvitedRow invRows (resetInvited c1)) in *.
  destruct (fold_indexInvitedRow_frame invRows (resetInvited c1))
    as (Hbyid2 & Hbycode2 & Hdeal2 & Htime2). fold c2 in Hbyid2, Hbycode2, Hdeal2, Htime2.
  cbn [referrersByID referrersByCode existingDealIDs lastCacheUpdate resetInvited]
    in Hbyid2, Hbycode2, Hdeal2, Htime2.
  destruct g2 as [|[dealRows|] g3]; simpl in H; inversion H; subst; clear H;
    eexists _, refRows, invRows, _; cbn [cache];
    (split; [reflexivity|]); (split; [reflexivity|]);
    (split; [first [left; reflexivity | right; eauto]|]);
    (split; [reflexivity|]);
    (split;
     [split;
      [intros id; rewrite GetReferrerByID_run; cbn [fst cache];
       rewrite Hbyid2, Hid; reflexivity
      |intros code; rewrite GetReferrerByCode_run; cbn [fst cache];
       rewrite Hbycode2, Hcode; reflexivity]|]);
    (split;
     [intros userID; rewrite GetInvitedByUserID_run; cbn [fst cache];
      unfold c2; rewrite invited_of_rows; reflexivity|]);
    (split; [rewrite Hdeal2; exact Hdeal1 | rewrite Htime2; exact Htime1]).
Qed.

(** ** C4: the bonus and the profit filter *)

(** [processWithdrawal] on a withdrawal of an invited user whose referrer is
    cached, when the service answers its two reads, acknowledges its two
    writes and shows the referrer's row. *)
Lemma processWithdrawal_run w st inv ref free sheet g a j :
  invitedByUserID (cache st) !! wUserID w = Some inv ->
  referrersByCode (cache st) !! normalizedCode (RefCode inv) = Some ref ->
  gets (world st) = Some free :: Some sheet :: g ->
  acks (world st) = true :: true :: a ->
  findReferrerRow (ID ref) 0 sheet = Some j ->
  let bonus := (Profit w * bonusRate)%float in
  let referral :=
    mkReferral (wUserID w) (RefCode inv) (Profit w) (DealID w) bonus
               (time_Format (clock (world st))) in
  let i := scanEmptyRow 0 free in
  processWithdrawal w st
  = (Ok tt,
     mkState
       (upsertReferrer (addBonus ref bonus) (markDealID (DealID w) (cache st)))
       (mkWorld g a (rands (world st)) (clock (world st))
          (trace (world st) ++
             [CallGet (RangeFrom Referrals cA 2 cA) FormattedValue (Some free);
              CallUpdate (RangeRow Referrals cA i cF i) [referralValues referral]
                true;
              CallGet (RangeFrom Referrers cA 2 cG) FormattedValue (Some sheet);
              CallUpdate (RangeRow Referrers cA j cG j)
                [referrerValues (addBonus ref bonus)] true]))).
Proof.
  intros Hinv Href Hg Ha Hj. cbv zeta.
  destruct st as [c [gs ac rs ck tr]]. simpl in Hinv, Href, Hg, Ha. subst gs ac.
  unfold processWithdrawal.
  erewrite bind_ok by (apply wrap_ok; rewrite GetInvitedByUserID_run; reflexivity).
  cbn [cache]. rewrite Hinv.
  erewrite bind_ok by (apply wrap_ok; rewrite GetReferrerByCode_run; reflexivity).
  cbn [cache]. rewrite Href.
  erewrite bind_ok by reflexivity. cbn [world clock].
  unfold CreateReferral, UpdateReferrer, findFirstEmptyRow, bind, wrap, valuesGet,
    valuesUpdate, modifyCache, ret, nextAck, dropAck, record.
  cbn [world cache gets acks rands clock trace tail fst snd].
  change (ID (addBonus ref (Profit w * bonusRate))) with (ID ref).
  destruct free as [|r0 free']; cbn [world cache gets acks rands clock trace tail];
    rewrite Hj; cbn [world cache gets acks rands clock trace tail];
    rewrite <- !app_assoc; reflexivity.
Qed.

(** The writes of one [processWithdrawal], whatever the service does. *)
Lemma processWithdrawal_writes w st :
  exists calls,
    trace (world (snd (processWithdrawal w st))) = trace (world st) ++ calls /\
    Forall (fun c => isWrite c = true ->
                     bonusWrite (cache st) (clock (world st)) w c) calls.
Proof.
  destruct (processWithdrawal w st) as [res st'] eqn:H. cbn [snd].
  apply processWithdrawal_steps in H
    as [(_ & ->) | (inv & ref & Hinv & Href & r1 & st1 & Hcr & Hrest)].
  { exists []. rewrite app_nil_r. split; [reflexivity | constructor]. }
  cbv zeta in *.
  assert (Hledger : forall i ok,
            bonusWrite (cache st) (clock (world st)) w
              (CallUpdate (RangeRow Referrals cA i cF i)
                 [referralValues
                    (mkReferral (wUserID w) (RefCode inv) (Profit w) (DealID w)
                       (Profit w * bonusRate)%float
                       (time_Format (clock (world st))))] ok)).
  { intros i ok. exists inv, ref. split; [exact Hinv|]. split; [exact Href|].
    left. eauto. }
  assert (Hcredit : forall j ok,
            bonusWrite (cache st) (clock (world st)) w
              (CallUpdate (RangeRow Referrers cA j cG j)
                 [referrerValues (addBonus ref (Profit w * bonusRate)%float)] ok)).
  { intros j ok. exists inv, ref. split; [exact Hinv|]. split; [exact Href|].
    right. eauto. }
  assert (Hread : forall r opt o,
            isWrite (CallGet r opt o) = true ->
            bonusWrite (cache st) (clock (world st)) w (CallGet r opt o)).
  { intros r opt o Hw. discriminate Hw. }
  apply CreateReferral_spec in Hcr as (o1 & Hcr). cbv zeta in Hcr.
  destruct Hcr as [(Ht1 & _ & e1 & ->) | (i & ok1 & Ht1 & Hok1)].
  { destruct Hrest as (_ & ->). eexists. split; [exact Ht1|].
    repeat constructor. apply Hread. }
  destruct ok1.
  2:{ destruct Hok1 as (_ & e1 & ->). destruct Hrest as (_ & ->).
      eexists. split; [exact Ht1|].
      constructor; [apply Hread|]. constructor; [|constructor].
      intros _. apply Hledger. }
  destruct Hok1 as (_ & ->). destruct Hrest as (r2 & Hup & _).
  apply UpdateReferrer_spec in Hup as (o2 & Hup). cbv zeta in Hup.
  destruct Hup as [(Ht2 & _) | (j & ok2 & Ht2 & _)].
  - eexists. split; [rewrite Ht2, Ht1, <- app_assoc; reflexivity|].
    constructor; [apply Hread|]. constructor; [intros _; apply Hledger|].
    constructor; [apply Hread | constructor].
  - eexists. split; [rewrite Ht2, Ht1, <- app_assoc; reflexivity|].
    constructor; [apply Hread|]. constructor; [intros _; apply Hledger|].
    constructor; [apply Hread|]. constructor; [intros _; apply Hcredit|].
    constructor.
Qed.

(** The writes of the loop of a pass: each is a write of one of the
    withdrawals, in the state the loop had reached when it came to it. *)
Lemma passLoop_writes ws st :
  exists calls,
    trace (world (passLoop ws st)) = trace (world st) ++ calls /\
    Forall (fun c =>
              isWrite c = true ->
              exists ws1 w ws2,
                ws = ws1 ++ w :: ws2 /\
                let s := passLoop ws1 st in
                bonusWrite (cache s) (clock (world s)) w c) calls.
Proof.
  revert st. induction ws as [|w ws IH]; intros st.
  - exists []. rewrite app_nil_r. split; [reflexivity | constructor].
  - destruct (processWithdrawal_writes w st) as (calls1 & Ht1 & H1).
    destruct (IH (snd (processWithdrawal w st))) as (calls2 & Ht2 & H2).
    exists (calls1 ++ calls2). split.
    { change (passLoop (w :: ws) st)
        with (passLoop ws (snd (processWithdrawal w st))).
      rewrite Ht2, Ht1, <- app_assoc. reflexivity. }
    apply Forall_app. split.
    + eapply Forall_impl; [exact H1|]. intros c Hc Hw.
      exists [], w, ws. split; [reflexivity|]. apply Hc, Hw.
    + eapply Forall_impl; [exact H2|]. intros c Hc Hw.
      destruct (Hc Hw) as (ws1 & w' & ws2 & -> & Hb).
      exists (w :: ws1), w', ws2. split; [reflexivity | exact Hb].
Qed.

(** C4. A withdrawal of an invited user whose referrer is cached, met by a
    service that answers and acknowledges, is ledgered and credited: the
    ledger row written carries the withdrawal's profit and, as its bonus,
    that profit multiplied by the float64 constant 0.1, and the referrer
    the cache has under the code of the user's Invited record is written
    and cached with this bonus added to its pending payout.  Whatever the
    service does, a write made while a withdrawal is processed is that
    ledger row or that referrer row, nothing else.  A row of "Выводы" whose
    profit cell holds a value <= 0 yields no withdrawal; the withdrawals
    [GetNewWithdrawals] returns are those of the rows it read, each with a
    profit that is not <= 0; and every write of a pass is such a write of
    one of these withdrawals, in the state the loop had reached when it came
    to it.  A pass whose [GetNewWithdrawals] fails writes nothing.  For a
    profit of 100.0 the bonus is 10.0. *)
Theorem bonus_is_tenth_of_positive_profit :
  (forall w st inv ref free sheet g a j,
     invitedByUserID (cache st) !! wUserID w = Some inv ->
     referrersByCode (cache st) !! normalizedCode (RefCode inv) = Some ref ->
     gets (world st) = Some free :: Some sheet :: g ->
     acks (world st) = true :: true :: a ->
     findReferrerRow (ID ref) 0 sheet = Some j ->
     let bonus := (Profit w * bonusRate)%float in
     let st' := snd (processWithdrawal w st) in
     let i := scanEmptyRow 0 free in
     fst (processWithdrawal w st) = Ok tt /\
     trace (world st')
     = trace (world st) ++
         [CallGet (RangeFrom Referrals cA 2 cA) FormattedValue (Some free);
          CallUpdate (RangeRow Referrals cA i cF i)
            [[VString (formatInt (wUserID w)); VString (RefCode inv);
              VFloat64 (Profit w); VString (DealID w); VFloat64 bonus;
              VString (time_Format (clock (world st)))]] true;
          CallGet (RangeFrom Referrers cA 2 cG) FormattedValue (Some sheet);
          CallUpdate (RangeRow Referrers cA j cG j)
            [referrerValues (addBonus ref bonus)] true] /\
     fst (GetReferrerByID (ID ref) st') = Ok (Some (addBonus ref bonus)) /\
     PendingPayout (addBonus ref bonus) = (PendingPayout ref + bonus)%float /\
     existingDealIDs (cache st') !! DealID w = Some true) /\
  (forall w st,
     exists calls,
       trace (world (snd (processWithdrawal w st))) = trace (world st) ++ calls /\
       Forall (fun c => isWrite c = true ->
                        bonusWrite (cache st) (clock (world st)) w c) calls) /\
  (forall existing (row : Row) cell,
     profitCell row = Some cell -> (getFloatValue cell <=? 0)%float = true ->
     parseWithdrawalRow existing row = None) /\
  (forall st ws st0,
     GetNewWithdrawals st = (Ok ws, st0) ->
     Forall (fun w => (Profit w <=? 0)%float = false) ws /\
     syncWithdrawals st = passLoop ws st0 /\
     exists rows calls,
       trace (world st0)
       = trace (world st) ++
           [CallGet (RangeFrom Withdrawals cA 2 cD) UnformattedValue (Some rows)] /\
       ws = omap (parseWithdrawalRow (existingDealIDs (cache st))) rows /\
       trace (world (syncWithdrawals st)) = trace (world st0) ++ calls /\
       Forall (fun c =>
                 isWrite c = true ->
                 exists ws1 w ws2,
                   ws = ws1 ++ w :: ws2 /\
                   (Profit w <=? 0)%float = false /\
                   let s := passLoop ws1 st0 in
                   bonusWrite (cache s) (clock (world s)) w c) calls) /\
  (forall st e st0,
     GetNewWithdrawals st = (Err e, st0) ->
     syncWithdrawals st = st0 /\
     exists read,
       trace (world st0) = trace (world st) ++ [read] /\ isWrite read = false) /\
  (100 * bonusRate = 10)%float.
Proof.
  split; [|split; [|split; [|split; [|split]]]].
  - intros w st inv ref free sheet g a j Hinv Href Hg Ha Hj. cbv zeta.
    rewrite (processWithdrawal_run w st inv ref free sheet g a j Hinv Href Hg Ha Hj).
    cbn [fst snd world trace cache]. split; [reflexivity|].
    split; [reflexivity|]. split.
    { rewrite GetReferrerByID_run. cbn [fst cache upsertReferrer referrersByID].
      change (ID (addBonus ref (Profit w * bonusRate))) with (ID ref).
      rewrite lookup_insert_eq. reflexivity. }
    split; [reflexivity|].
    unfold upsertReferrer, markDealID. cbn [existingDealIDs].
    apply lookup_insert_eq.
  - apply processWithdrawal_writes.
  - apply parseWithdrawalRow_nonpositive.
  - intros st ws st0 Hget.
    pose proof (GetNewWithdrawals_positive st ws st0 Hget) as Hpos.
    split; [exact Hpos|].
    assert (Hsync : syncWithdrawals st = passLoop ws st0).
    { unfold syncWithdrawals. rewrite Hget. reflexivity. }
    split; [exact Hsync|].
    rewrite GetNewWithdrawals_run in Hget. cbv zeta in Hget.
    destruct (passLoop_writes ws st0) as (calls & Ht & Hall).
    destruct (match gets (world st) with o :: _ => o | [] => None end)
      as [rows|]; [|discriminate Hget].
    exists rows, calls. split.
    { inversion Hget; subst st0. cbn [world trace]. reflexivity. }
    split; [inversion Hget; reflexivity|]. split; [rewrite Hsync; exact Ht|].
    eapply Forall_impl; [exact Hall|]. intros c Hc Hw.
    destruct (Hc Hw) as (ws1 & w & ws2 & Hws & Hb).
    exists ws1, w, ws2. split; [exact Hws|]. split; [|exact Hb].
    rewrite Forall_forall in Hpos. apply Hpos. rewrite Hws.
    apply elem_of_app. right. left.
  - intros st e st0 Hget. split.
    { unfold syncWithdrawals. rewrite Hget. reflexivity. }
    rewrite GetNewWithdrawals_run in Hget. cbv zeta in Hget.
    eexists. inversion Hget; subst st0. cbn [world trace].
    split; reflexivity.
  - reflexivity.
Qed.

(** ** C1: two passes over the same rows *)

Lemma coversReferrers_credit c (sheet : list (list Cell)) k0 ref bonus d :
  referrersByCode c !! k0 = Some ref ->
  coversReferrers c sheet ->
  coversReferrers (upsertReferrer (addBonus ref bonus) (markDealID d c)) sheet.
Proof.
  intros Hl Hc k r Hr. unfold upsertReferrer in Hr.
  cbn [referrersByCode markDealID] in Hr.
  destruct (bool_decide (Code (addBonus ref bonus) = [])); [eapply Hc, Hr|].
  apply lookup_insert_Some in Hr as [[_ <-] | [_ Hr]].
  - change (ID (addBonus ref bonus)) with (ID ref). eapply Hc, Hl.
  - eapply Hc, Hr.
Qed.

Lemma referrerOf_credit c w ref bonus d :
  is_Some (referrerOf c w) ->
  is_Some (referrerOf (upsertReferrer (addBonus ref bonus) (markDealID d c)) w).
Proof.
  unfold referrerOf. cbn [invitedByUserID upsertReferrer markDealID].
  destruct (invitedByUserID c !! wUserID w) as [inv|]; [|exact (fun H => H)].
  intros H.
  destruct (upsertReferrer_keeps (addBonus ref bonus) (markDealID d c))
    as [_ [_ Hk]].
  apply Hk. exact H.
Qed.

(** The loop of a pass that goes through: every withdrawal is ledgered and
    credited, in order. *)
Lemma passLoop_exact ws :
  forall (steps : list (list (list Cell) * list (list Cell))) st g a,
    length steps = length ws ->
    gets (world st)
    = flat_map (fun s => [Some (fst s); Some (snd s)]) steps ++ g ->
    acks (world st) = flat_map (fun _ => [true; true]) ws ++ a ->
    Forall (fun s => coversReferrers (cache st) (snd s)) steps ->
    Forall (fun w => is_Some (referrerOf (cache st) w)) ws ->
    exists calls,
      trace (world (passLoop ws st)) = trace (world st) ++ calls /\
      gets (world (passLoop ws st)) = g /\
      acks (world (passLoop ws st)) = a /\
      ledgerDealIDs calls = map DealID ws /\
      (forall last rest, exists last',
         creditedFrom last (calls ++ rest)
         = map DealID ws ++ creditedFrom last' rest) /\
      (forall d, existingDealIDs (cache st) !! d = Some true ->
                 existingDealIDs (cache (passLoop ws st)) !! d = Some true) /\
      (forall w, w ∈ ws ->
                 existingDealIDs (cache (passLoop ws st)) !! DealID w = Some true).
Proof.
  induction ws as [|w ws IH]; intros steps st g a Hlen Hg Ha Hcov Href.
  - destruct steps; [|discriminate]. simpl in Hg, Ha.
    exists []. rewrite app_nil_r. cbn [passLoop fold_left].
    split; [reflexivity|]. split; [exact Hg|]. split; [exact Ha|].
    split; [reflexivity|]. split; [intros last rest; exists last; reflexivity|].
    split; [auto|]. intros w Hw. inversion Hw.
  - destruct steps as [|[free sheet] steps]; [discriminate|].
    simpl in Hlen. injection Hlen as Hlen.
    cbn [flat_map fst snd app] in Hg, Ha.
    inversion Hcov as [|s0 l0 Hsheet Hcov']; subst. cbn [snd] in Hsheet.
    inversion Href as [|w0 l0 Hw Href']; subst.
    unfold referrerOf in Hw.
    destruct (invitedByUserID (cache st) !! wUserID w) as [inv|] eqn:Hinv;
      [|destruct Hw; discriminate].
    destruct Hw as [ref Hl].
    destruct (Hsheet _ _ Hl) as [j Hj].
    pose proof (processWithdrawal_run w st inv ref free sheet _ _ j
                  Hinv Hl Hg Ha Hj) as Hrun.
    cbv zeta in Hrun.
    change (passLoop (w :: ws) st)
      with (passLoop ws (snd (processWithdrawal w st))).
    rewrite Hrun. cbn [snd].
    match goal with
    | |- context [passLoop ws ?s] => set (st1 := s)
    end.
    destruct (IH steps st1 g a Hlen eq_refl eq_refl) as
      (calls & Ht & Hg' & Ha' & Hled & Hcred & Hmono & Hknown).
    { eapply Forall_impl; [exact Hcov'|]. intros s Hs.
      unfold st1. cbn [cache]. eapply coversReferrers_credit; eauto. }
    { eapply Forall_impl; [exact Href'|]. intros w' Hw'.
      unfold st1. cbn [cache]. apply referrerOf_credit. exact Hw'. }
    eexists (_ :: _ :: _ :: _ :: calls). split.
    { rewrite Ht. unfold st1. cbn [world trace]. rewrite <- app_assoc.
      reflexivity. }
    split; [exact Hg'|]. split; [exact Ha'|].
    split; [cbn [map]; rewrite <- Hled; reflexivity|].
    split.
    { intros last rest.
      destruct (Hcred (Some (DealID w)) rest) as (last' & Hc).
      exists last'. cbn. rewrite Hc. reflexivity. }
    assert (Hw1 : existingDealIDs (cache st1) !! DealID w = Some true).
    { unfold st1, upsertReferrer, markDealID. cbn [cache existingDealIDs].
      apply lookup_insert_eq. }
    split.
    { intros d Hd. apply Hmono. unfold st1, upsertReferrer, markDealID.
      cbn [cache existingDealIDs]. rewrite lookup_insert.
      case_decide; [reflexivity | exact Hd]. }
    intros w' Hw'. apply elem_of_cons in Hw' as [-> | Hw'].
    + apply Hmono, Hw1.
    + apply Hknown, Hw'.
Qed.

Lemma omap_all_None {A B} (f : A -> option B) (l : list A) :
  (forall x, x ∈ l -> f x = None) -> omap f l = [].
Proof.
  induction l as [|x l IH]; intros H; simpl; [reflexivity|].
  rewrite (H x) by left. apply IH. intros y Hy. apply H. right. exact Hy.
Qed.

(** C1 (as amended). Take a pass whose read of "Выводы" returns rows whose
    withdrawals have pairwise distinct deal ids, each of a user with an
    Invited record whose code has a referrer in the cache, and let the
    service go along with the pass: the reads succeed, each read of
    "Рефоводы" shows the rows of the cached referrers, and the writes are
    acknowledged.  Let a second pass read the same rows.  Then over the two
    passes exactly one ledger row is written for each deal id and exactly
    one credit is applied for each deal id, in the order of the rows, each
    credit following the ledger row of its deal; every deal id is known
    after the first pass; and the second pass gets no withdrawal from
    [GetNewWithdrawals] and makes its one read and no write. *)
Theorem two_passes_ledger_each_deal_once st rows steps g a :
  let ws := omap (parseWithdrawalRow (existingDealIDs (cache st))) rows in
  gets (world st) = passReads rows steps (Some rows :: g) ->
  acks (world st) = flat_map (fun _ => [true; true]) ws ++ a ->
  length steps = length ws ->
  Forall (fun s => coversReferrers (cache st) (snd s)) steps ->
  Forall (fun w => is_Some (referrerOf (cache st) w)) ws ->
  NoDup (map DealID ws) ->
  let st1 := syncWithdrawals st in
  let st2 := syncWithdrawals st1 in
  exists read1 calls1 read2,
    trace (world st1) = trace (world st) ++ read1 :: calls1 /\
    trace (world st2) = trace (world st1) ++ [read2] /\
    isWrite read1 = false /\ isWrite read2 = false /\
    ledgerDealIDs (read1 :: calls1 ++ [read2]) = map DealID ws /\
    NoDup (ledgerDealIDs (read1 :: calls1 ++ [read2])) /\
    creditedDealIDs (read1 :: calls1 ++ [read2]) = map DealID ws /\
    NoDup (creditedDealIDs (read1 :: calls1 ++ [read2])) /\
    (forall w, w ∈ ws -> existingDealIDs (cache st1) !! DealID w = Some true) /\
    fst (GetNewWithdrawals st1) = Ok [].
Proof.
  intros ws Hg Ha Hlen Hcov Href Hnodup st1 st2.
  unfold passReads in Hg.
  assert (Hst1 : st1 = passLoop ws (snd (GetNewWithdrawals st))).
  { unfold st1, syncWithdrawals. rewrite GetNewWithdrawals_run. cbv zeta.
    rewrite Hg. reflexivity. }
  pose proof (GetNewWithdrawals_run st) as Hget. cbv zeta in Hget.
  rewrite Hg in Hget. cbn [tail] in Hget.
  set (st0 := snd (GetNewWithdrawals st)) in *.
  assert (Hst0 : st0 = mkState (cache st)
                         (mkWorld
                            (flat_map (fun s => [Some (fst s); Some (snd s)]) steps
                             ++ Some rows :: g)
                            (acks (world st)) (rands (world st))
                            (clock (world st))
                            (trace (world st) ++
                               [CallGet (RangeFrom Withdrawals cA 2 cD)
                                  UnformattedValue (Some rows)]))).
  { unfold st0. rewrite Hget. reflexivity. }
  destruct (passLoop_exact ws steps st0 (Some rows :: g) a Hlen)
    as (calls & Ht & Hg1 & Ha1 & Hled & Hcred & Hmono & Hknown).
  { rewrite Hst0. reflexivity. }
  { rewrite Hst0. exact Ha. }
  { rewrite Hst0. exact Hcov. }
  { rewrite Hst0. exact Href. }
  rewrite <- Hst1 in Ht, Hg1, Ha1, Hmono, Hknown.
  assert (Hws2 : omap (parseWithdrawalRow (existingDealIDs (cache st1))) rows = []).
  { apply omap_all_None. intros row Hrow.
    destruct (parseWithdrawalRow (existingDealIDs (cache st1)) row) as [w|] eqn:Hp;
      [|reflexivity].
    exfalso. apply (parseWithdrawalRow_unknown _ _ _ Hp). apply Hknown.
    apply list_elem_of_omap. exists row. split; [exact Hrow|].
    eapply parseWithdrawalRow_mono; [|exact Hp].
    intros d Hd. apply Hmono. rewrite Hst0. exact Hd. }
  pose proof (GetNewWithdrawals_run st1) as Hget1. cbv zeta in Hget1.
  rewrite Hg1, Hws2 in Hget1. cbn [tail] in Hget1.
  assert (Hst2 : st2 = snd (GetNewWithdrawals st1)).
  { unfold st2, syncWithdrawals. rewrite Hget1. reflexivity. }
  eexists _, calls, _. split.
  { rewrite Ht, Hst0. cbn [world trace]. rewrite <- app_assoc. reflexivity. }
  split. { rewrite Hst2, Hget1. reflexivity. }
  split; [reflexivity|]. split; [reflexivity|].
  assert (Hl : ledgerDealIDs
                 (CallGet (RangeFrom Withdrawals cA 2 cD) UnformattedValue
                    (Some rows) :: calls ++
                  [CallGet (RangeFrom Withdrawals cA 2 cD) UnformattedValue
                     (Some rows)]) = map DealID ws).
  { change (ledgerDealIDs (?c :: ?l)) with (ledgerDealIDs l).
    rewrite ledgerDealIDs_app, Hled. cbn. apply app_nil_r. }
  assert (Hc : creditedDealIDs
                 (CallGet (RangeFrom Withdrawals cA 2 cD) UnformattedValue
                    (Some rows) :: calls ++
                  [CallGet (RangeFrom Withdrawals cA 2 cD) UnformattedValue
                     (Some rows)]) = map DealID ws).
  { unfold creditedDealIDs. cbn [creditedFrom ledgerDealID].
    destruct (Hcred None [CallGet (RangeFrom Withdrawals cA 2 cD)
                            UnformattedValue (Some rows)]) as (last' & ->).
    cbn. apply app_nil_r. }
  split; [exact Hl|]. split; [rewrite Hl; exact Hnodup|].
  split; [exact Hc|]. split; [rewrite Hc; exact Hnodup|].
  split; [exact Hknown|].
  rewrite Hget1. reflexivity.
Qed.

End Program.

(** * Closed instances

    The theorems above that carry hypotheses, applied to concrete states, and
    the inputs on which the statements that had to be amended fail.  The
    library parameters are instantiated as described before section
    [Program]. *)

(** C6, instance: user 99 was invited by nobody; the withdrawal leaves the
    state as it is. *)
Lemma processWithdrawal_gap_is_skipped_witness :
  let st := mkState exampleCache (scripted [] [] []) in
  let w := mkWithdrawal (str "D9") 99 100%float in
  invitedByUserID (cache st) !! wUserID w = None /\
  processWithdrawal caseless formatFloatExample formatTimeExample w st = (Ok tt, st).
Proof.
  cbv zeta. split; [reflexivity|].
  apply (processWithdrawal_gap_is_skipped caseless formatFloatExample
           formatTimeExample).
  left. reflexivity.
Defined.

(** C1, counterexample: two rows of one read share the deal id D1 (profits
    100 and 50, user 7 invited by the referrer with code ABC123): the first
    pass writes two ledger rows for D1 and credits the referrer twice, and
    the second pass over the same rows adds nothing; a withdrawal of a user
    nobody invited gets no ledger row in either pass. *)
Lemma duplicate_deal_id_is_ledgered_twice :
  let pass :=
    syncWithdrawals caseless caseless parseFloatExample formatFloatExample
                    formatTimeExample in
  let rows := [withdrawalRow "D1" 7 100; withdrawalRow "D1" 7 50] in
  let st :=
    mkState exampleCache
      (scripted [Some rows; Some []; Some [aliceRow];
                 Some [[VString (str "7")]]; Some [aliceRow]; Some rows]
                [true; true; true; true] []) in
  let gap := [withdrawalRow "D2" 99 100] in
  let st' := mkState exampleCache (scripted [Some gap; Some gap] [] []) in
  ledgerDealIDs (trace (world (pass (pass st)))) = [str "D1"; str "D1"] /\
  creditedDealIDs (trace (world (pass (pass st)))) = [str "D1"; str "D1"] /\
  ledgerDealIDs (trace (world (pass (pass st')))) = [].
Proof. vm_compute. repeat split. Qed.

(** C2, counterexample: the cache knows referrer 1001; a reload reads an
    empty "Рефоводы" and then fails on "Приглашенные".  [LoadCache] returns
    the error, and referrer 1001, found before, is no longer found by id or
    by code. *)
Lemma failed_reload_drops_referrers :
  let st := mkState exampleCache (scripted [Some []; None] [] []) in
  let st' := snd (LoadCache caseless parseFloatExample formatFloatExample st) in
  fst (LoadCache caseless parseFloatExample formatFloatExample st)
  = Err (ErrWrap InLoadInvited (ErrWrap (InReadSheet InvitedUsers) ErrService)) /\
  fst (GetReferrerByID 1001 st) = Ok (Some alice) /\
  fst (GetReferrerByID 1001 st') = Ok None /\
  fst (GetReferrerByCode caseless (str "ABC123") st) = Ok (Some alice) /\
  fst (GetReferrerByCode caseless (str "ABC123") st') = Ok None.
Proof. vm_compute. repeat split. Qed.

(** C3, counterexample: [CreateReferrer 7 "@bob"] succeeds on an empty store
    (the drawn code AAAAAA is free, the row is written at row 2) and referrer
    7 is still not found in the cache; [UpdateReferrer] of a referrer whose
    code is empty succeeds and [GetReferrerByCode] of that code finds
    nothing. *)
Lemma created_referrer_is_not_cached :
  let draws := replicate 6 (Some 0%N) in
  let st := mkState emptyCache (scripted [Some []; Some []] [true] draws) in
  let created := CreateReferrer formatFloatExample 7 (str "@bob") st in
  let bob := mkReferrer 7 (str "@bob") (str "AAAAAA") [] 0 0%float 0%float in
  let nocode := mkReferrer 1001 (str "@alice") [] [] 1 0%float 0%float in
  let st1 := mkState emptyCache (scripted [Some [aliceRow]] [true] []) in
  let updated := UpdateReferrer caseless nocode st1 in
  fst created = Ok bob /\
  fst (GetReferrerByID 7 (snd created)) = Ok None /\
  fst updated = Ok tt /\
  fst (GetReferrerByID 1001 (snd updated)) = Ok (Some nocode) /\
  fst (GetReferrerByCode caseless (Code nocode) (snd updated)) = Ok None.
Proof. vm_compute. repeat split. Qed.

(** C7, counterexample: the first live check fails to read the store;
    [generateUniqueCode] returns the service's error after one attempt,
    neither a code nor the generation-exhausted error. *)
Lemma failed_check_ends_generation :
  let st := mkState emptyCache (scripted [None] [] (replicate 6 (Some 0%N))) in
  let run := generateUniqueCode formatFloatExample st in
  fst run = Err ErrService /\
  trace (world (snd run)) = [codeRead None].
Proof. vm_compute. split; reflexivity. Qed.

(** C7, instance: six draws of 0 give AAAAAA, the live check reads an empty
    code column, and the code is returned. *)
Lemma generateUniqueCode_outcomes_witness :
  let st := mkState emptyCache (scripted [Some []] [] (replicate 6 (Some 0%N))) in
  let st' := snd (generateUniqueCode formatFloatExample st) in
  let code := str "AAAAAA" in
  cache st' = cache st /\
  exists calls,
    trace (world st') = trace (world st) ++ calls /\
    length code = 6%nat /\ Forall (fun r => In r charset) code /\
    exists before rows,
      calls = before ++ [codeRead (Some rows)] /\
      Forall (collision formatFloatExample) before /\
      codeInRows formatFloatExample code rows = false.
Proof.
  cbv zeta.
  apply (generateUniqueCode_outcomes formatFloatExample
           (mkState emptyCache (scripted [Some []] [] (replicate 6 (Some 0%N))))
           (Ok (str "AAAAAA"))).
  reflexivity.
Defined.

Lemma caseless_idem (r : N) :
  (127 < r)%N -> unicode_ToUpper caseless (caseless r) = caseless r.
Proof.
  intros H. unfold unicode_ToUpper, caseless.
  destruct (N.leb_spec r 127); [lia | reflexivity].
Defined.

Lemma caseless_space (r : N) :
  (127 < r)%N -> unicode_IsSpace (caseless r) = unicode_IsSpace r.
Proof. reflexivity. Defined.

(** C9, instance: with the caseless table, the code " abc123 " finds the
    referrer stored under ABC123, as its normal form does. *)
Lemma GetReferrerByCode_normalizes_witness :
  let st := mkState exampleCache (scripted [] [] []) in
  let c := str " abc123 " in
  GetReferrerByCode caseless c st
  = GetReferrerByCode caseless (normalizedCode caseless c) st /\
  fst (GetReferrerByCode caseless c st) = Ok (Some alice).
Proof.
  cbv zeta. split.
  - apply (proj1 (GetReferrerByCode_normalizes caseless parseFloatExample
                    formatFloatExample caseless_idem caseless_space)).
  - vm_compute. reflexivity.
Defined.

(** C10, counterexample: with pending 2^54 and paid out 1 the float64
    difference is 2^54 again, so the repair writes nothing although paid out
    is not 0; and from pending 2^53 + 2 with paid out 1 two runs give
    2^53 - 1, not pending less twice the amount paid out (2^53). *)
Lemma repair_skips_row_with_nonzero_paid_out :
  let row (pending : float) : Row :=
    [VString (str "1001"); VNil; VNil; VNil; VNil; VFloat64 pending; VFloat64 1] in
  let run := pendingUpdates parseFloatExample formatFloatExample 0 in
  is_zero (paidOutOf parseFloatExample formatFloatExample (row 18014398509481984%float))
  = false /\
  run [row 18014398509481984%float] = [] /\
  run [row 9007199254740994%float]
  = [(RangeCell Referrers cF 2, [[VFloat64 9007199254740992]])] /\
  run [row 9007199254740992%float]
  = [(RangeCell Referrers cF 2, [[VFloat64 9007199254740991]])] /\
  (9007199254740994 - 2 * 1 = 9007199254740992)%float.
Proof. vm_compute. repeat split. Qed.

(** C1, instance: withdrawals D1 and D2 of user 7, who was invited by the
    referrer with code ABC123; the service goes along, and the second pass
    reads the same two rows.  One ledger row and one credit for D1, then one
    of each for D2, and nothing in the second pass. *)
Lemma two_passes_ledger_each_deal_once_witness :
  let pass :=
    syncWithdrawals caseless caseless parseFloatExample formatFloatExample
                    formatTimeExample in
  let rows := [withdrawalRow "D1" 7 100; withdrawalRow "D2" 7 50] in
  let steps : list (list (list Cell) * list (list Cell)) :=
    [([], [aliceRow]); ([[VString (str "7")]], [aliceRow])] in
  let st :=
    mkState exampleCache
      (scripted (passReads rows steps [Some rows]) [true; true; true; true] []) in
  let ws :=
    omap (parseWithdrawalRow caseless parseFloatExample formatFloatExample
            (existingDealIDs (cache st))) rows in
  map DealID ws = [str "D1"; str "D2"] /\
  exists read1 calls1 read2,
    trace (world (pass st)) = trace (world st) ++ read1 :: calls1 /\
    trace (world (pass (pass st))) = trace (world (pass st)) ++ [read2] /\
    isWrite read1 = false /\ isWrite read2 = false /\
    ledgerDealIDs (read1 :: calls1 ++ [read2]) = map DealID ws /\
    NoDup (ledgerDealIDs (read1 :: calls1 ++ [read2])) /\
    creditedDealIDs (read1 :: calls1 ++ [read2]) = map DealID ws /\
    NoDup (creditedDealIDs (read1 :: calls1 ++ [read2])) /\
    (forall w, w ∈ ws ->
               existingDealIDs (cache (pass st)) !! DealID w = Some true) /\
    fst (GetNewWithdrawals caseless parseFloatExample formatFloatExample (pass st))
    = Ok [].
Proof.
  cbv zeta. split; [vm_compute; reflexivity|].
  apply (two_passes_ledger_each_deal_once caseless caseless parseFloatExample
           formatFloatExample formatTimeExample
           (mkState exampleCache
              (scripted
                 (passReads
                    [withdrawalRow "D1" 7 100; withdrawalRow "D2" 7 50]
                    [([], [aliceRow]); ([[VString (str "7")]], [aliceRow])]
                    [Some [withdrawalRow "D1" 7 100; withdrawalRow "D2" 7 50]])
                 [true; true; true; true] []))
           [withdrawalRow "D1" 7 100; withdrawalRow "D2" 7 50]
           [([], [aliceRow]); ([[VString (str "7")]], [aliceRow])] [] []).
  - reflexivity.
  - vm_compute. reflexivity.
  - vm_compute. reflexivity.
  - apply Forall_cons_2; [|apply Forall_cons_2; [|apply Forall_nil_2]];
      intros k ref H; cbn [cache exampleCache referrersByCode] in H;
      apply lookup_singleton_Some in H as [_ <-]; vm_compute; eauto.
  - vm_compute. apply Forall_cons_2; [|apply Forall_cons_2; [|apply Forall_nil_2]];
      eauto.
  - vm_compute. apply NoDup_cons. split; [|apply NoDup_singleton].
    intros H. apply list_elem_of_singleton in H. discriminate H.
Defined.

(** C2, instance: the cache knows referrer 1001; a reload reads one row,
    referrer 2002, from "Рефоводы" and then fails on "Приглашенные".  The
    referrer maps are those of the row read: 2002 is found, 1001 no longer;
    the invited map, the deal ids and the time of the last update are as
    before. *)
Lemma LoadCache_error_keeps_unloaded_maps_witness :
  let bobRow : Row :=
    [VFloat64 2002; VString (str "@bob"); VString (str "BOB222")] in
  let st := mkState exampleCache (scripted [Some [bobRow]; None] [] []) in
  let load := LoadCache caseless parseFloatExample formatFloatExample in
  let e := ErrWrap InLoadInvited (ErrWrap (InReadSheet InvitedUsers) ErrService) in
  let st' := snd (load st) in
  load st = (Err e, st') /\
  fst (GetReferrerByID 1001 st) = Ok (Some alice) /\
  fst (GetReferrerByID 1001 st') = Ok None /\
  fst (GetReferrerByID 2002 st')
  = Ok (Some (mkReferrer 2002 (str "@bob") (str "BOB222") [] 0 0%float 0%float)) /\
  exists refRows g,
    gets (world st) = Some refRows :: g /\
    (forall id,
       fst (GetReferrerByID id st')
       = Ok (last (filter (fun r => ID r = id)
                     (omap (parseReferrerRow parseFloatExample formatFloatExample)
                        refRows)))) /\
    (forall code,
       fst (GetReferrerByCode caseless code st')
       = Ok (last (filter
                     (fun r => codeKey caseless r
                               = Some (normalizedCode caseless code))
                     (omap (parseReferrerRow parseFloatExample formatFloatExample)
                        refRows)))) /\
    invitedByUserID (cache st') = invitedByUserID (cache st) /\
    existingDealIDs (cache st') = existingDealIDs (cache st) /\
    lastCacheUpdate (cache st') = lastCacheUpdate (cache st).
Proof.
  cbv zeta. split; [vm_compute; reflexivity|].
  split; [vm_compute; reflexivity|]. split; [vm_compute; reflexivity|].
  split; [vm_compute; reflexivity|].
  pose proof
    (LoadCache_error_keeps_unloaded_maps caseless parseFloatExample
       formatFloatExample
       (mkState exampleCache
          (scripted
             [Some [[VFloat64 2002; VString (str "@bob"); VString (str "BOB222")]];
              None] [] []))
       (ErrWrap InLoadInvited (ErrWrap (InReadSheet InvitedUsers) ErrService)) _
       eq_refl) as H.
  cbv zeta in H.
  destruct H as [(e0 & He & _) | [H | (e0 & r1 & r2 & g & He & _)]];
    [discriminate He | | discriminate He].
  destruct H as (e0 & refRows & g & _ & Hg & _ & _ & [Hid Hcode] & Hinv & Hdeal & Htime).
  exists refRows, g. auto 7.
Defined.

(** C4, instance: a withdrawal of 100 by user 7; the ledger row written
    carries the bonus 10, and the referrer with code ABC123 is cached with
    a pending payout of 10. *)
Lemma bonus_is_tenth_of_positive_profit_witness :
  let process :=
    processWithdrawal caseless formatFloatExample formatTimeExample in
  let w := mkWithdrawal (str "D1") 7 100%float in
  let st :=
    mkState exampleCache (scripted [Some []; Some [aliceRow]] [true; true] []) in
  let bonus := (Profit w * bonusRate)%float in
  let st' := snd (process w st) in
  bonus = 10%float /\
  fst (process w st) = Ok tt /\
  trace (world st')
  = trace (world st) ++
      [CallGet (RangeFrom Referrals cA 2 cA) FormattedValue (Some []);
       CallUpdate (RangeRow Referrals cA 2 cF 2)
         [[VString (str "7"); VString (str "ABC123"); VFloat64 100;
           VString (str "D1"); VFloat64 bonus; VString (str "0")]] true;
       CallGet (RangeFrom Referrers cA 2 cG) FormattedValue (Some [aliceRow]);
       CallUpdate (RangeRow Referrers cA 2 cG 2)
         [referrerValues (addBonus alice bonus)] true] /\
  fst (GetReferrerByID 1001 st') = Ok (Some (addBonus alice bonus)) /\
  PendingPayout (addBonus alice bonus) = (PendingPayout alice + bonus)%float /\
  existingDealIDs (cache st') !! str "D1" = Some true.
Proof.
  cbv zeta. split; [vm_compute; reflexivity|].
  apply (proj1 (bonus_is_tenth_of_positive_profit caseless caseless
                  parseFloatExample formatFloatExample formatTimeExample)
           (mkWithdrawal (str "D1") 7 100%float)
           (mkState exampleCache
              (scripted [Some []; Some [aliceRow]] [true; true] []))
           (mkInvited 7 (str "ABC123")) alice [] [aliceRow] [] [] 2).
  - vm_compute. reflexivity.
  - vm_compute. reflexivity.
  - reflexivity.
  - reflexivity.
  - vm_compute. reflexivity.
Defined.

(** X2, instance: two rows for referrer 1001; the one read last is found,
    by id and by code. *)
Lemma loadReferrersCache_last_row_wins_witness :
  let load := loadReferrersCache caseless parseFloatExample formatFloatExample in
  let row (username code : gostring) : Row :=
    [VFloat64 1001; VString username; VString code] in
  let st :=
    mkState exampleCache
      (scripted [Some [row (str "@old") (str "abc123");
                       row (str "@new") (str "ABC123")]] [] []) in
  let st' := snd (load st) in
  load st = (Ok tt, st') /\
  exists rows g,
    gets (world st) = Some rows :: g /\
    (forall id,
       fst (GetReferrerByID id st')
       = Ok (last (filter (fun r => ID r = id)
                     (omap (parseReferrerRow parseFloatExample formatFloatExample)
                        rows)))) /\
    (forall code,
       fst (GetReferrerByCode caseless code st')
       = Ok (last (filter
                     (fun r => codeKey caseless r
                               = Some (normalizedCode caseless code))
                     (omap (parseReferrerRow parseFloatExample formatFloatExample)
                        rows)))) /\
    invitedByUserID (cache st') = invitedByUserID (cache st) /\
    existingDealIDs (cache st') = existingDealIDs (cache st).
Proof.
  cbv zeta. split; [vm_compute; reflexivity|].
  apply (loadReferrersCache_last_row_wins caseless parseFloatExample
           formatFloatExample).
  vm_compute. reflexivity.
Defined.

(** X3, instance: two rows for user 7; the code of the second is the one
    found. *)
Lemma loadInvitedCache_last_row_wins_witness :
  let load := loadInvitedCache formatFloatExample in
  let row (code : gostring) : Row := [VString (str "7"); VString code] in
  let st :=
    mkState exampleCache
      (scripted [Some [row (str "ABC123"); row (str "XYZ789")]] [] []) in
  let st' := snd (load st) in
  load st = (Ok tt, st') /\
  exists rows g,
    gets (world st) = Some rows :: g /\
    (forall userID,
       fst (GetInvitedByUserID userID st')
       = Ok (last (filter (fun i => UserID i = userID)
                     (omap (parseInvitedRow formatFloatExample) rows)))) /\
    referrersByID (cache st') = referrersByID (cache st) /\
    referrersByCode (cache st') = referrersByCode (cache st) /\
    existingDealIDs (cache st') = existingDealIDs (cache st).
Proof.
  cbv zeta. split; [vm_compute; reflexivity|].
  apply (loadInvitedCache_last_row_wins formatFloatExample).
  vm_compute. reflexivity.
Defined.

(** X4, instance: column D holds D1, a row without cells and D2. *)
Lemma loadDealIDsCache_known_iff_read_witness :
  let load := loadDealIDsCache formatFloatExample in
  let st :=
    mkState exampleCache
      (scripted [Some [[VString (str "D1")]; []; [VString (str "D2")]]] [] []) in
  let st' := snd (load st) in
  load st = (Ok tt, st') /\
  exists rows g,
    gets (world st) = Some rows :: g /\
    (forall d,
       existingDealIDs (cache st') !! d
       = if decide (d ∈ omap (dealIDOfRow formatFloatExample) rows)
         then Some true else None) /\
    referrersByID (cache st') = referrersByID (cache st) /\
    referrersByCode (cache st') = referrersByCode (cache st) /\
    invitedByUserID (cache st') = invitedByUserID (cache st).
Proof.
  cbv zeta. split; [vm_compute; reflexivity|].
  apply (loadDealIDsCache_known_iff_read formatFloatExample).
  vm_compute. reflexivity.
Defined.

(** X6, instance: column A holds 1001, an empty text and 1002; the row
    returned is sheet row 3. *)
Lemma findFirstEmptyRow_is_first_free_witness :
  let find := findFirstEmptyRow formatFloatExample Referrers in
  let st :=
    mkState emptyCache
      (scripted [Some [[VString (str "1001")]; [VString []];
                       [VString (str "1002")]]] [] []) in
  find st = (Ok 3, snd (find st)) /\
  exists rows g (k : nat),
    gets (world st) = Some rows :: g /\
    3 = Z.of_nat k + 2 /\
    (k <= length rows)%nat /\
    (forall (j : nat) (row : Row),
       (j < k)%nat -> rows !! j = Some row ->
       rowIsEmpty formatFloatExample row = false) /\
    (forall row : Row,
       rows !! k = Some row -> rowIsEmpty formatFloatExample row = true).
Proof.
  cbv zeta. split; [vm_compute; reflexivity|].
  eapply (findFirstEmptyRow_is_first_free formatFloatExample Referrers).
  vm_compute. reflexivity.
Defined.

(** X9, instance: the count of the referrer with code ABC123, given as
    "abc123", goes from 1 to 2. *)
Lemma IncrementRefCount_outcomes_witness :
  let st := mkState exampleCache (scripted [Some [aliceRow]] [true] []) in
  let st' := snd (IncrementRefCount caseless (str "abc123") st) in
  IncrementRefCount caseless (str "abc123") st = (None, st') /\
  exists ref,
    fst (GetReferrerByCode caseless (str "abc123") st) = Ok (Some ref) /\
    let ref' := withRefCount ref (incrInt (RefCount ref)) in
    (RefCount ref < maxInt64 -> RefCount ref' = RefCount ref + 1) /\
    fst (GetReferrerByID (ID ref) st') = Ok (Some ref') /\
    (codeIndexSound caseless (cache st) ->
     fst (GetReferrerByCode caseless (str "abc123") st') = Ok (Some ref')).
Proof.
  cbv zeta. split; [vm_compute; reflexivity|].
  apply (IncrementRefCount_outcomes caseless (str "abc123")
           (mkState exampleCache (scripted [Some [aliceRow]] [true] [])) None).
  vm_compute. reflexivity.
Defined.

(** X11, instance: six draws of 0 and one read of an empty code column. *)
Lemma generateUniqueCode_cost_and_shape_witness :
  let st := mkState emptyCache (scripted [Some []] [] (replicate 6 (Some 0%N))) in
  let res := fst (generateUniqueCode formatFloatExample st) in
  let st' := snd (generateUniqueCode formatFloatExample st) in
  res = Ok (str "AAAAAA") /\
  acks (world st') = acks (world st) /\
  (exists k, (k <= 600)%nat /\ rands (world st') = drop k (rands (world st))) /\
  (exists calls,
     trace (world st') = trace (world st) ++ calls /\
     (length calls <= 100)%nat /\
     Forall (fun c => isWrite c = false) calls /\
     gets (world st') = drop (length calls) (gets (world st))) /\
  (forall code, res = Ok code -> normalizedCode caseless code = code).
Proof.
  cbv zeta. split; [vm_compute; reflexivity|].
  apply (generateUniqueCode_cost_and_shape caseless formatFloatExample).
  vm_compute. reflexivity.
Defined.

(** X12, instance: the ledger row of deal D1 is written, then the read of
    "Рефоводы" for the credit fails; the deal is known and a later read of
    the same row of "Выводы" no longer returns it. *)
Lemma processWithdrawal_outcomes_witness :
  let process :=
    processWithdrawal caseless formatFloatExample formatTimeExample in
  let w := mkWithdrawal (str "D1") 7 100%float in
  let st := mkState exampleCache (scripted [Some []; None] [true] []) in
  let st' := snd (process w st) in
  let e := ErrWrap InUpdateReferrerBonus (ErrWrap (InReadSheet Referrers) ErrService) in
  process w st = (Err e, st') /\
  exists calls,
    trace (world st') = trace (world st) ++ calls /\
    ((exists e', e = ErrWrap InCreateReferral e' /\
        ledgerDealIDs calls = [] /\ creditedDealIDs calls = [] /\
        cache st' = cache st) \/
     (exists e', e = ErrWrap InUpdateReferrerBonus e' /\
        ledgerDealIDs calls = [DealID w] /\ creditedDealIDs calls = [] /\
        cache st' = markDealID (DealID w) (cache st) /\
        forall ws s,
          GetNewWithdrawals caseless parseFloatExample formatFloatExample st'
          = (Ok ws, s) ->
          DealID w ∉ map DealID ws)).
Proof.
  cbv zeta. split; [vm_compute; reflexivity|].
  apply (processWithdrawal_outcomes caseless caseless parseFloatExample
           formatFloatExample formatTimeExample
           (mkWithdrawal (str "D1") 7 100%float)
           (mkState exampleCache (scripted [Some []; None] [true] []))
           (Err (ErrWrap InUpdateReferrerBonus
                   (ErrWrap (InReadSheet Referrers) ErrService)))).
  vm_compute. reflexivity.
Defined.

(** X13, instance: the reload reads deal D1 from the ledger; of the
    withdrawals D1 and D2 of user 7 only D2 gets a ledger row. *)
Lemma syncRound_skips_ledger_ids_witness :
  let round :=
    syncRound caseless caseless parseFloatExample formatFloatExample
              formatTimeExample in
  let refRows : list Row :=
    [[VFloat64 1001; VString (str "@alice"); VString (str "ABC123")]] in
  let invRows : list Row := [[VString (str "7"); VString (str "ABC123")]] in
  let dealRows : list Row := [[VString (str "D1")]] in
  let rows := [withdrawalRow "D1" 7 100; withdrawalRow "D2" 7 50] in
  let st :=
    mkState emptyCache
      (scripted [Some refRows; Some invRows; Some dealRows; Some rows;
                 Some []; Some [aliceRow]] [true; true] []) in
  ledgerDealIDs (trace (world (round st))) = [str "D2"] /\
  exists reads calls,
    trace (world (round st)) = trace (world st) ++ reads ++ calls /\
    length reads = 4%nat /\
    Forall (fun c => isWrite c = false) reads /\
    (forall d, d ∈ omap (dealIDOfRow formatFloatExample) dealRows ->
               d ∉ ledgerDealIDs calls) /\
    (forall d, d ∈ ledgerDealIDs calls ->
               exists c0 row,
                 (c0 :: row) ∈ rows /\ getStringValue formatFloatExample c0 = d).
Proof.
  cbv zeta. split; [vm_compute; reflexivity|].
  apply (syncRound_skips_ledger_ids caseless caseless parseFloatExample
           formatFloatExample formatTimeExample
           (mkState emptyCache
              (scripted
                 [Some [[VFloat64 1001; VString (str "@alice");
                         VString (str "ABC123")]];
                  Some [[VString (str "7"); VString (str "ABC123")]];
                  Some [[VString (str "D1")]];
                  Some [withdrawalRow "D1" 7 100; withdrawalRow "D2" 7 50];
                  Some []; Some [aliceRow]] [true; true] []))
           [[VFloat64 1001; VString (str "@alice"); VString (str "ABC123")]]
           [[VString (str "7"); VString (str "ABC123")]]
           [[VString (str "D1")]]
           [withdrawalRow "D1" 7 100; withdrawalRow "D2" 7 50]
           [Some []; Some [aliceRow]]).
  reflexivity.
Defined.

(** X15, instance: referrer 1001 asks to connect a wallet and then presses
    "Мои рефералы": no statistics are sent, the flag is gone. *)
Lemma wallet_prompt_swallows_next_button_witness :
  let b := mkBot (mkState exampleCache (scripted [] [] [])) ∅ [true; true] [] in
  let msg1 := mkMessage 1001 [] 1001 btnConnectWallet false [] [] in
  let msg2 := mkMessage 1001 [] 1001 btnMyReferrals false [] [] in
  let b1 := handleConnectWallet caseless msg1 1001 b in
  apiSent b1 = [mkSent 1001 AskWallet NoMode NoMarkup true] /\
  waitingForWallet b1 !! 1001 = Some true /\
  handleUpdate caseless formatFloatExample (Some msg2) b1
  = Returned (setWaiting (delete 1001 (waitingForWallet b1)) b1).
Proof.
  cbv zeta. split; [vm_compute; reflexivity|].
  apply (wallet_prompt_swallows_next_button caseless formatFloatExample
           (mkMessage 1001 [] 1001 btnConnectWallet false [] [])
           (mkMessage 1001 [] 1001 btnMyReferrals false [] [])
           (mkBot (mkState exampleCache (scripted [] [] [])) ∅ [true; true] [])
           alice).
  - vm_compute. reflexivity.
  - reflexivity.
  - discriminate.
  - reflexivity.
  - vm_compute. reflexivity.
Defined.

(** X18, instance: user 7, unknown to the cache, sends /start twice; each
    time a referrer row is written for the user. *)
Lemma registration_leaves_user_unknown_witness :
  let b :=
    mkBot
      (mkState emptyCache
         (scripted [Some []; Some []; Some []; Some [[VString (str "7")]]]
                   [true; true] (replicate 12 (Some 0%N))))
      ∅ [] [] in
  let msg := mkMessage 7 (str "bob") 7 (str "/start") true (str "start") [] in
  let register (st : State) :=
    if bool_decide (str "bob" = []) then st
    else snd (CreateReferrer formatFloatExample 7 (64%N :: str "bob") st) in
  let b1 := botOf (handleStart caseless formatFloatExample msg 7 (str "bob") b) in
  let b2 := botOf (handleStart caseless formatFloatExample msg 7 (str "bob") b1) in
  length (filter (fun c => isWrite c = true) (trace (world (sheets b2)))) = 2%nat /\
  sheets b1 = register (sheets b) /\
  sheets (handleInviteFriends caseless formatFloatExample msg 7 (str "bob") b)
  = register (sheets b) /\
  cache (register (sheets b)) = cache (sheets b) /\
  sheets b2 = register (sheets b1).
Proof.
  cbv zeta. split; [vm_compute; reflexivity|].
  apply (registration_leaves_user_unknown caseless formatFloatExample
           (mkMessage 7 (str "bob") 7 (str "/start") true (str "start") [])).
  - reflexivity.
  - reflexivity.
Defined.

(** X20, instance: 7968044364 written with a space and a no-break space
    between the groups of digits. *)
Lemma parseUserID_spaced_text_witness :
  let v := str "7 968" ++ [160%N] ++ str "044 364" in
  removeRune 32%N (removeRune 160%N v) = formatInt 7968044364 /\
  parseUserID caseless formatFloatExample (VString v) = Some 7968044364.
Proof.
  cbv zeta. split; [vm_compute; reflexivity|].
  apply (parseUserID_spaced_text caseless formatFloatExample
           (str "7 968" ++ [160%N] ++ str "044 364") 7968044364).
  - unfold minInt64, maxInt64. lia.
  - vm_compute. reflexivity.
Defined.

(** The library functions written out in this file, on a few inputs. *)
Example strings_TrimSpace_examples :
  strings_TrimSpace (str "  ab c ") = str "ab c" /\
  strings_TrimSpace [160; 65; 8239]%N = [65]%N /\
  strings_TrimSpace (str "   ") = [].
Proof. vm_compute. repeat split. Qed.

Example strconv_ParseInt_examples :
  strconv_ParseInt (str "-123") = Some (-123) /\
  strconv_ParseInt (str "+7") = Some 7 /\
  strconv_ParseInt (str "") = None /\
  strconv_ParseInt (str "-") = None /\
  strconv_ParseInt (str "12a") = None /\
  strconv_ParseInt (str " 12") = None /\
  strconv_ParseInt (str "9223372036854775807") = Some maxInt64 /\
  strconv_ParseInt (str "9223372036854775808") = None /\
  strconv_ParseInt (str "-9223372036854775808") = Some minInt64.
Proof. vm_compute. repeat split. Qed.

Example formatInt_examples :
  formatInt 0 = str "0" /\ formatInt 1001 = str "1001" /\
  formatInt (-1203) = str "-1203" /\
  formatInt minInt64 = str "-9223372036854775808".
Proof. vm_compute. repeat split. Qed.

Example float_conversion_examples :
  int64_of_float 7968044364%float = 7968044364 /\
  int64_of_float (-2.5)%float = -2 /\
  int64_of_float 0.75%float = 0 /\
  int64_of_float infinity = minInt64 /\
  float64_of_int 50 = 50%float /\
  float64_of_int (-3) = (-3)%float /\
  float64_of_int 9007199254740993 = 9007199254740992%float.
Proof. vm_compute. repeat split. Qed.
